(** * ventas-check: catalogue de-duplication and order enrichment

    A shallow embedding of [src/calc_pedido.py] and of its sibling
    [src/downloads/calc_pedido.py], and the properties of the resolver and
    of the enrichment step that the specification states.

    Modelling conventions.
    - Numbers are exact rationals ([Q]); a null (NaN) is [None].  Two prices
      are the same value when they are [Qeq].  Binary floating point rounding
      is not modelled.
    - Text is a Rocq [string]; white space and letter case are those of
      Python on 7-bit characters.  Python's Unicode tables for code points
      above 127 are not modelled, and what is stated of [norm_text] and of
      the headers on their own is stated of 7-bit text ([siete_bits]).
    - A catalogue is the three-column frame
      [df_cat[["producto","precio compra","precio venta"]]] with the
      [RangeIndex] that [read_excel] gives it: a list of rows, labelled by
      position.  Price cells are numbers or nulls; for prices that are
      texts the resolver is embedded once more on raw cells, with its
      [astype(float)] calls ([Crudo]).
    - An order is the three-column frame [producto, cantidad, descuento_%].
    - A raised exception is the [Raise] outcome of the [result] type.
    - pandas is taken with its documented defaults: [idxmax], [idxmin],
      [mean] and [sum] skip nulls; [merge] gives the suffixes [_x] and [_y]
      to a column, other than the key, that both frames have; [groupby]
      yields its groups by ascending key.  [idxmax] and [idxmin] of a series
      without any number end in an exception (raised by the call itself in
      pandas 3, by the [.loc] that follows it before). *)

From Stdlib Require Import List String Ascii Bool Arith PeanoNat ZArith QArith Lia Lqa Permutation Sorted.
Import ListNotations.
Local Close Scope Q_scope.
Local Open Scope nat_scope.
Local Open Scope string_scope.
Local Open Scope list_scope.

(** ** Exceptions and results *)

Inductive exn : Type :=
| ValueError (msg : string)
| KeyError (label : string)
| TypeError
| IndexError
| MergeError.

Inductive result (A : Type) : Type :=
| OK (a : A)
| Raise (e : exn).

Arguments OK {A} a.
Arguments Raise {A} e.

Definition bind {A B : Type} (c : result A) (k : A -> result B) : result B :=
  match c with
  | OK a => k a
  | Raise e => Raise e
  end.

Notation "x <- c ;; k" := (bind c (fun x => k))
  (at level 61, c at next level, right associativity).

(** A [for] loop that collects one value per element and stops at the first
    exception. *)
Fixpoint for_each {A B : Type} (body : A -> result B) (l : list A) : result (list B) :=
  match l with
  | [] => OK []
  | x :: t =>
      y <- body x ;;
      ys <- for_each body t ;;
      OK (y :: ys)
  end.

(** ** The pandas operations the two programs use *)

Module Pandas.

(** Null-safe equality of two numeric cells (NaN is one value). *)
Definition cell_eqb (a b : option Q) : bool :=
  match a, b with
  | None, None => true
  | Some x, Some y => Qeq_bool x y
  | _, _ => false
  end.

Definition text_eqb (a b : option string) : bool :=
  match a, b with
  | None, None => true
  | Some x, Some y => String.eqb x y
  | _, _ => false
  end.

(** [Series.unique()]: the distinct values, in order of first appearance. *)
Fixpoint unique {A : Type} (eqb : A -> A -> bool) (l : list A) : list A :=
  match l with
  | [] => []
  | x :: t => x :: filter (fun y => negb (eqb x y)) (unique eqb t)
  end.

(** [Series.nunique(dropna=False)]. *)
Definition nunique (s : list (option Q)) : nat :=
  List.length (unique cell_eqb s).

Definition count_key (k : string) (keys : list string) : nat :=
  List.length (filter (String.eqb k) keys).

(** [DataFrame.duplicated(col, keep=False)]: marks every row whose key
    occurs more than once. *)
Definition duplicated (keys : list string) : list bool :=
  map (fun k => (2 <=? count_key k keys)%nat) keys.

(** Boolean-mask selection [df[mask]]. *)
Fixpoint select {A : Type} (mask : list bool) (l : list A) : list A :=
  match mask, l with
  | b :: m, x :: t => if b then x :: select m t else select m t
  | _, _ => []
  end.

Fixpoint insert_key (k : string) (l : list string) : list string :=
  match l with
  | [] => [k]
  | h :: t => if String.leb k h then k :: l else h :: insert_key k t
  end.

(** Group keys come out of [groupby] in ascending order. *)
Definition sort_keys (l : list string) : list string :=
  fold_right insert_key [] l.

(** First label of the best non-null value; [better v b] says that [v]
    strictly beats the best value [b] seen so far. *)
Fixpoint argbest (better : Q -> Q -> bool) (s : list (nat * option Q))
         (best : option (nat * Q)) : option (nat * Q) :=
  match s with
  | [] => best
  | (_, None) :: t => argbest better t best
  | (i, Some v) :: t =>
      match best with
      | None => argbest better t (Some (i, v))
      | Some (_, b) =>
          if better v b then argbest better t (Some (i, v))
          else argbest better t best
      end
  end.

Definition all_na : exn := ValueError "Encountered all NA values".

(** [Series.idxmax()] with the default [skipna=True]: nulls are passed
    over; a series without any number has no maximum and the call (or the
    [.loc] that follows it, in older pandas) raises. *)
Definition idxmax (s : list (nat * option Q)) : result nat :=
  match argbest (fun v b => negb (Qle_bool v b)) s None with
  | Some (i, _) => OK i
  | None => Raise all_na
  end.

Definition idxmin (s : list (nat * option Q)) : result nat :=
  match argbest (fun v b => negb (Qle_bool b v)) s None with
  | Some (i, _) => OK i
  | None => Raise all_na
  end.

Fixpoint dropna {A : Type} (s : list (option A)) : list A :=
  match s with
  | [] => []
  | Some v :: t => v :: dropna t
  | None :: t => dropna t
  end.

Definition qsum (l : list Q) : Q := fold_right Qplus 0%Q l.

(** [Series.mean()] with the default [skipna=True]. *)
Definition mean (s : list (option Q)) : option Q :=
  match dropna s with
  | [] => None
  | v :: vs => Some (qsum (v :: vs) / inject_Z (Z.of_nat (List.length (v :: vs))))%Q
  end.

(** [Series.sum(skipna=True)]. *)
Definition sum_skipna (s : list (option Q)) : Q := qsum (dropna s).

(** [pd.concat(frames, ignore_index=True)] refuses an empty list. *)
Definition concat {A : Type} (frames : list (list A)) : result (list A) :=
  match frames with
  | [] => Raise (ValueError "No objects to concatenate")
  | _ => OK (List.concat frames)
  end.

(** *** Frames with named columns

    A column is an [object] column of text (NaN is [None]) or a [float64]
    column; a frame is the list of its labelled columns, left to right. *)

Inductive Series : Type :=
| Text (l : list (option string))
| Num (l : list (option Q)).

Definition DataFrame : Type := list (string * Series).

Definition labels (df : DataFrame) : list string := map fst df.

Definition has_label (l : string) (ls : list string) : bool :=
  existsb (String.eqb l) ls.

(** [df[label]]. *)
Fixpoint getitem (df : DataFrame) (label : string) : result Series :=
  match df with
  | [] => Raise (KeyError label)
  | (l, s) :: t => if String.eqb l label then OK s else getitem t label
  end.

(** [df[label] = s]: replaces the column in place, or appends it. *)
Fixpoint setitem (df : DataFrame) (label : string) (s : Series) : DataFrame :=
  match df with
  | [] => [(label, s)]
  | (l, c) :: t =>
      if String.eqb l label then (l, s) :: t else (l, c) :: setitem t label s
  end.

(** [df[[c1; c2; ...]]]. *)
Definition getitems (df : DataFrame) (cols : list string) : result DataFrame :=
  for_each (fun c => s <- getitem df c ;; OK (c, s)) cols.

Definition is_none {A : Type} (x : option A) : bool :=
  match x with
  | None => true
  | Some _ => false
  end.

Definition isna (s : Series) : list bool :=
  match s with
  | Text l => map is_none l
  | Num l => map is_none l
  end.

Definition size (s : Series) : nat :=
  match s with
  | Text l => List.length l
  | Num l => List.length l
  end.

Definition select_series (mask : list bool) (s : Series) : Series :=
  match s with
  | Text l => Text (select mask l)
  | Num l => Num (select mask l)
  end.

(** [df[mask]] on a frame. *)
Definition filter_rows (mask : list bool) (df : DataFrame) : DataFrame :=
  map (fun c => (fst c, select_series mask (snd c))) df.

Fixpoint map2 {A B C : Type} (f : A -> B -> C) (l : list A) (m : list B) : list C :=
  match l, m with
  | x :: t, y :: u => f x y :: map2 f t u
  | _, _ => []
  end.

(** [Series.dropna()] and [Series.unique()] keep the column's type. *)
Definition dropna_series (s : Series) : Series :=
  match s with
  | Text l => Text (map Some (dropna l))
  | Num l => Num (map Some (dropna l))
  end.

Definition unique_series (s : Series) : Series :=
  match s with
  | Text l => Text (unique text_eqb l)
  | Num l => Num (unique cell_eqb l)
  end.

(** Marks the first occurrence of every value. *)
Fixpoint first_seen {A : Type} (eqb : A -> A -> bool) (seen l : list A) : list bool :=
  match l with
  | [] => []
  | x :: t => negb (existsb (eqb x) seen) :: first_seen eqb (x :: seen) t
  end.

Definition keep_first (s : Series) : list bool :=
  match s with
  | Text l => first_seen text_eqb [] l
  | Num l => first_seen cell_eqb [] l
  end.

(** [df.drop_duplicates(label)], keeping first occurrences. *)
Definition drop_duplicates (df : DataFrame) (label : string) : result DataFrame :=
  k <- getitem df label ;;
  OK (filter_rows (keep_first k) df).

Fixpoint position {A : Type} (p : A -> bool) (l : list A) : option nat :=
  match l with
  | [] => None
  | x :: t => if p x then Some 0 else option_map S (position p t)
  end.

Definition is_unique (s : Series) : bool :=
  forallb (fun b => b) (keep_first s).

(** For every left key, the position of the right row with that key. *)
Definition indexer (lk rk : Series) : result (list (option nat)) :=
  match lk, rk with
  | Text l, Text r => OK (map (fun k => position (text_eqb k) r) l)
  | Num l, Num r => OK (map (fun k => position (cell_eqb k) r) l)
  | _, _ => Raise (ValueError "You are trying to merge on object and float64 columns")
  end.

Definition take_from {A : Type} (l : list (option A)) (j : option nat) : option A :=
  match j with
  | Some j => nth j l None
  | None => None
  end.

Definition take (ix : list (option nat)) (s : Series) : Series :=
  match s with
  | Text l => Text (map (take_from l) ix)
  | Num l => Num (map (take_from l) ix)
  end.

(** A column present on both sides, other than the join key, gets the
    suffix of its side. *)
Definition suffixed (overlap : list string) (suffix label : string) : string :=
  if has_label label overlap then String.append label suffix else label.

(** [left.merge(right, on=on, how="left", validate="m:1", suffixes=...)]. *)
Definition merge (left right : DataFrame) (on : string) (suffixes : string * string)
  : result DataFrame :=
  lk <- getitem left on ;;
  rk <- getitem right on ;;
  if negb (is_unique rk) then Raise MergeError
  else
    ix <- indexer lk rk ;;
    let overlap :=
      filter (fun l => negb (String.eqb l on) && has_label l (labels right)) (labels left) in
    OK (map (fun c => (suffixed overlap (fst suffixes) (fst c), snd c)) left
        ++ map (fun c => (suffixed overlap (snd suffixes) (fst c), take ix (snd c)))
               (filter (fun c => negb (String.eqb (fst c) on)) right)).

(** Arithmetic needs numbers: a text column that holds a string raises. *)
Definition numeric (s : Series) : result (list (option Q)) :=
  match s with
  | Num l => OK l
  | Text l => if forallb is_none l then OK (map (fun _ => None) l) else Raise TypeError
  end.

(** [s.fillna(v).astype(float)]; text that [float] would have to parse is
    outside the model. *)
Definition fillna_float (v : Q) (s : Series) : result (list (option Q)) :=
  match s with
  | Num l => OK (map (fun x => match x with Some q => Some q | None => Some v end) l)
  | Text l =>
      if forallb is_none l then OK (map (fun _ => Some v) l)
      else Raise (ValueError "could not convert string to float")
  end.

Definition lift2 (f : Q -> Q -> Q) (a b : option Q) : option Q :=
  match a, b with
  | Some x, Some y => Some (f x y)
  | _, _ => None
  end.

Definition mul (a b : list (option Q)) : list (option Q) := map2 (lift2 Qmult) a b.
Definition sub (a b : list (option Q)) : list (option Q) := map2 (lift2 Qminus) a b.

(** [1 - s]. *)
Definition rsub1 (s : list (option Q)) : list (option Q) :=
  map (option_map (fun d => 1 - d)%Q) s.

(** [s.replace({0: pd.NA})]. *)
Definition replace_zero_na (s : list (option Q)) : list (option Q) :=
  map (fun x => match x with
                | Some q => if Qeq_bool q 0 then None else Some q
                | None => None
                end) s.

(** Element-wise quotient; every divisor that reaches it here is null or
    non-zero, a zero divisor (infinity or NaN in floating point) is given
    no number. *)
Definition div_cell (a b : option Q) : option Q :=
  match a, b with
  | Some x, Some y => if Qeq_bool y 0 then None else Some (x / y)%Q
  | _, _ => None
  end.

Definition div (a b : list (option Q)) : list (option Q) := map2 div_cell a b.

End Pandas.

(** ** Catalogue rows *)

Record fila : Type := mk_fila {
  producto : option string;
  precio_compra : option Q;
  precio_venta : option Q
}.

(** A catalogue row inside [deduplicate_catalog]: its index label and the
    [_key] column added by the function. *)
Record base_row : Type := mk_base {
  index : nat;
  row : fila;
  _key : string
}.

(** A line of the order. *)
Record linea : Type := mk_linea {
  producto_pedido : option string;
  cantidad : option Q;
  descuento : option Q
}.

(** The one-row summary frame. *)
Record Resumen : Type := mk_resumen {
  ingreso_total : Q;
  costo_total : Q;
  utilidad_total_balance_neto : Q;
  margen_ponderado : Q
}.

(** What a run shows: the products of the warning, the detail table and the
    summary. *)
Record salida : Type := mk_salida {
  missing : Pandas.Series;
  detalle : Pandas.DataFrame;
  resumen : Resumen
}.

Definition detalle_cols : list string :=
  ["producto"; "cantidad"; "descuento_%"; "precio venta"; "precio_venta_aplicado";
   "precio compra"; "ingreso_linea"; "costo_linea"; "utilidad_linea"; "margen_linea"].

Fixpoint enumerate_from {A : Type} (n : nat) (l : list A) : list (nat * A) :=
  match l with
  | [] => []
  | x :: t => (n, x) :: enumerate_from (S n) t
  end.

(** ** Text normalisation, shared character classes *)

Module Text.

(** [str.isspace] on one character, which is also what [\s] matches. *)
Definition is_space (c : ascii) : bool :=
  let n := nat_of_ascii c in
  (((9 <=? n) && (n <=? 13)) || ((28 <=? n) && (n <=? 32)))%nat.

Definition upper_char (c : ascii) : ascii :=
  let n := nat_of_ascii c in
  if ((97 <=? n) && (n <=? 122))%nat then ascii_of_nat (n - 32) else c.

Fixpoint lstrip (s : string) : string :=
  match s with
  | EmptyString => EmptyString
  | String c t => if is_space c then lstrip t else s
  end.

Fixpoint rstrip (s : string) : string :=
  match s with
  | EmptyString => EmptyString
  | String c t =>
      match rstrip t with
      | EmptyString => if is_space c then EmptyString else String c EmptyString
      | r => String c r
      end
  end.

Definition strip (s : string) : string := rstrip (lstrip s).

(** [re.sub(r"\s+", " ", s)]: [in_run] tells that the previous character
    was white space, already replaced. *)
Fixpoint sub_spaces (in_run : bool) (s : string) : string :=
  match s with
  | EmptyString => EmptyString
  | String c t =>
      if is_space c
      then (if in_run then sub_spaces true t else String " " (sub_spaces true t))
      else String c (sub_spaces false t)
  end.

Fixpoint upper (s : string) : string :=
  match s with
  | EmptyString => EmptyString
  | String c t => String (upper_char c) (upper t)
  end.

End Text.

(** ** Operations on the rows of a catalogue frame *)

Section RowFrames.
Import Pandas.

(** [g.iloc[[0]]]. *)
Definition iloc0 (g : list base_row) : result (list fila) :=
  match g with
  | [] => Raise IndexError
  | r :: _ => OK [row r]
  end.

(** [g.loc[[idx]]]: the rows of [g] that carry the label [idx]. *)
Definition loc (idx : nat) (g : list base_row) : list fila :=
  map row (filter (fun r => (index r =? idx)%nat) g).

(** [g[column]] as plain values, and with the index labels. *)
Definition col (f : fila -> option Q) (g : list base_row) : list (option Q) :=
  map (fun r => f (row r)) g.

Definition labelled (f : fila -> option Q) (g : list base_row) : list (nat * option Q) :=
  map (fun r => (index r, f (row r))) g.

(** [dups.groupby("_key")]: one group per distinct key, keys ascending,
    rows of a group in frame order. *)
Definition groupby (dups : list base_row) : list (list base_row) :=
  map (fun k => filter (fun r => String.eqb (_key r) k) dups)
      (sort_keys (unique String.eqb (map _key dups))).

(** The frame has no row. *)
Definition empty {A : Type} (df : list A) : bool :=
  match df with
  | [] => true
  | _ => false
  end.

Definition nrows (df : DataFrame) : nat :=
  match df with
  | [] => 0
  | (_, s) :: _ => size s
  end.

End RowFrames.

(** ** The metrics block

    Lines 96 to 108 of [calcular] and lines 105 to 117 of the sibling's
    [main] are the same statements on the merged frame [df]; they are
    embedded once.  The result is the frame with its new columns and the four
    numbers of the summary. *)

Section Metricas.
Import Pandas.

Definition metricas (df : DataFrame) : result (DataFrame * Resumen) :=
  d <- getitem df "descuento_%" ;;
  d <- fillna_float 0 d ;;
  let df := setitem df "descuento_%" (Num d) in
  c <- getitem df "cantidad" ;;
  c <- fillna_float 0 c ;;
  let df := setitem df "cantidad" (Num c) in
  pv <- getitem df "precio venta" ;; pv <- numeric pv ;;
  d <- getitem df "descuento_%" ;; d <- numeric d ;;
  let df := setitem df "precio_venta_aplicado" (Num (mul pv (rsub1 d))) in
  c <- getitem df "cantidad" ;; c <- numeric c ;;
  pva <- getitem df "precio_venta_aplicado" ;; pva <- numeric pva ;;
  let df := setitem df "ingreso_linea" (Num (mul c pva)) in
  c <- getitem df "cantidad" ;; c <- numeric c ;;
  pc <- getitem df "precio compra" ;; pc <- numeric pc ;;
  let df := setitem df "costo_linea" (Num (mul c pc)) in
  ing <- getitem df "ingreso_linea" ;; ing <- numeric ing ;;
  cos <- getitem df "costo_linea" ;; cos <- numeric cos ;;
  let df := setitem df "utilidad_linea" (Num (sub ing cos)) in
  uti <- getitem df "utilidad_linea" ;; uti <- numeric uti ;;
  ing <- getitem df "ingreso_linea" ;; ing <- numeric ing ;;
  let df := setitem df "margen_linea" (Num (div uti (replace_zero_na ing))) in
  ing <- getitem df "ingreso_linea" ;; ing <- numeric ing ;;
  let total_ingreso := sum_skipna ing in
  cos <- getitem df "costo_linea" ;; cos <- numeric cos ;;
  let total_costo := sum_skipna cos in
  uti <- getitem df "utilidad_linea" ;; uti <- numeric uti ;;
  let total_util := sum_skipna uti in
  let margen_pond :=
    if Qeq_bool total_ingreso 0 then 0%Q else (total_util / total_ingreso)%Q in
  OK (df, {| ingreso_total := total_ingreso;
             costo_total := total_costo;
             utilidad_total_balance_neto := total_util;
             margen_ponderado := margen_pond |}).

End Metricas.

(** ** [src/calc_pedido.py] *)

Module CalcPedido.
Import Pandas.

Definition norm_text (s : option string) : string :=
  match s with
  | None => ""
  | Some s =>
      let s := Text.strip s in
      let s := Text.sub_spaces false s in
      Text.upper s
  end.

Definition unknown_policy (policy : string) : exn :=
  ValueError (String.append "Política de deduplicación desconocida: " policy).

(** The body of the loop over the groups of duplicated keys. *)
Definition resolve_group (policy : string) (g : list base_row) : result (list fila) :=
  if (nunique (col precio_compra g) =? 1)%nat && (nunique (col precio_venta g) =? 1)%nat
  then iloc0 g
  else if String.eqb policy "first" then iloc0 g
  else if String.eqb policy "max_venta" then
    idx <- idxmax (labelled precio_venta g) ;;
    OK (loc idx g)
  else if String.eqb policy "min_costo" then
    idx <- idxmin (labelled precio_compra g) ;;
    OK (loc idx g)
  else if String.eqb policy "avg" then
    match g with
    | [] => Raise IndexError
    | r :: _ =>
        OK [ {| producto := producto (row r);
                precio_compra := mean (col precio_compra g);
                precio_venta := mean (col precio_venta g) |} ]
    end
  else Raise (unknown_policy policy).

Definition with_key (df : list (nat * fila)) : list base_row :=
  map (fun ir => {| index := fst ir; row := snd ir; _key := norm_text (producto (snd ir)) |}) df.

Definition deduplicate_catalog (df_cat : list fila) (policy : string) : result (list fila) :=
  let base := with_key (enumerate_from 0 df_cat) in
  let dup_mask := duplicated (map _key base) in
  let dups := select dup_mask base in
  let uniques := select (map negb dup_mask) base in
  if empty dups then OK (map row uniques)
  else
    agg_rows <- for_each (resolve_group policy) (groupby dups) ;;
    agg <- concat agg_rows ;;
    OK (map row uniques ++ agg).

(** The catalogue frame after [df["producto_norm"] = df["producto"].apply(norm_text)]. *)
Definition catalogo_norm (rows : list fila) : DataFrame :=
  [ ("producto", Text (map producto rows));
    ("precio compra", Num (map precio_compra rows));
    ("precio venta", Num (map precio_venta rows));
    ("producto_norm", Text (map (fun r => Some (norm_text (producto r))) rows)) ].

(** The order frame with its [producto_norm] column. *)
Definition pedido_norm (lineas : list linea) : DataFrame :=
  [ ("producto", Text (map producto_pedido lineas));
    ("cantidad", Num (map cantidad lineas));
    ("descuento_%", Num (map descuento lineas));
    ("producto_norm", Text (map (fun l => Some (norm_text (producto_pedido l))) lineas)) ].

Definition calcular (df_cat : list fila) (df_ped : list linea) (dedup_policy : string)
  : result salida :=
  df_cat_clean <- deduplicate_catalog df_cat dedup_policy ;;
  let df_cat_clean := catalogo_norm df_cat_clean in
  let df_ped := pedido_norm df_ped in
  (* Merge many-to-one *)
  right_unique <- drop_duplicates df_cat_clean "producto_norm" ;;
  df <- merge df_ped right_unique "producto_norm" ("_x", "_y") ;;
  (* Advertir faltantes *)
  pv <- getitem df "precio venta" ;;
  pc <- getitem df "precio compra" ;;
  prod <- getitem (filter_rows (map2 orb (isna pv) (isna pc)) df) "producto" ;;
  let missing := unique_series (dropna_series prod) in
  (* Calculos *)
  m <- metricas df ;;
  let df := fst m in
  let resumen := snd m in
  detalle <- getitems df detalle_cols ;;
  OK {| missing := missing; detalle := detalle; resumen := resumen |}.

End CalcPedido.


(** ** [src/downloads/calc_pedido.py] *)

Module Downloads.
Import Pandas.

Definition norm_text (s : option string) : string :=
  match s with
  | None => ""
  | Some s =>
      let s := s in
      let s := Text.strip s in
      let s := Text.sub_spaces false s in
      Text.upper s
  end.

Definition unknown_policy (policy : string) : exn :=
  ValueError (String.append "Política de deduplicación desconocida: " policy).

Definition resolve_group (policy : string) (g : list base_row) : result (list fila) :=
  if (nunique (col precio_compra g) =? 1)%nat && (nunique (col precio_venta g) =? 1)%nat
  then iloc0 g
  else if String.eqb policy "first" then iloc0 g
  else if String.eqb policy "max_venta" then
    idx <- idxmax (labelled precio_venta g) ;;
    OK (loc idx g)
  else if String.eqb policy "min_costo" then
    idx <- idxmin (labelled precio_compra g) ;;
    OK (loc idx g)
  else if String.eqb policy "avg" then
    match g with
    | [] => Raise IndexError
    | r :: _ =>
        OK [ {| producto := producto (row r);
                precio_compra := mean (col precio_compra g);
                precio_venta := mean (col precio_venta g) |} ]
    end
  else Raise (unknown_policy policy).

Definition with_key (df : list (nat * fila)) : list base_row :=
  map (fun ir => {| index := fst ir; row := snd ir; _key := norm_text (producto (snd ir)) |}) df.

Definition deduplicate_catalog (df_cat : list fila) (policy : string) : result (list fila) :=
  let base := with_key (enumerate_from 0 df_cat) in
  let dup_mask := duplicated (map _key base) in
  let dups := select dup_mask base in
  let uniques := select (map negb dup_mask) base in
  if empty dups then
    let res := map row uniques in
    OK res
  else
    agg_rows <- for_each (resolve_group policy) (groupby dups) ;;
    agg <- concat agg_rows ;;
    let result := map row uniques ++ agg in
    OK result.

Definition catalogo_norm (rows : list fila) : DataFrame :=
  [ ("producto", Text (map producto rows));
    ("precio compra", Num (map precio_compra rows));
    ("precio venta", Num (map precio_venta rows));
    ("producto_norm", Text (map (fun r => Some (norm_text (producto r))) rows)) ].

Definition pedido_norm (lineas : list linea) : DataFrame :=
  [ ("producto", Text (map producto_pedido lineas));
    ("cantidad", Num (map cantidad lineas));
    ("descuento_%", Num (map descuento lineas));
    ("producto_norm", Text (map (fun l => Some (norm_text (producto_pedido l))) lineas)) ].

(** [for c in cols: if c not in df.columns: df[c] = pd.NA]. *)
Definition fill_missing_cols (cols : list string) (df : DataFrame) : DataFrame :=
  fold_left (fun df c =>
               if has_label c (labels df) then df
               else setitem df c (Text (repeat None (nrows df))))
            cols df.

(** [main] prints; its result here is what it prints. *)
Definition main (df_cat : list fila) (df_ped : list linea) (dedup_policy : string)
  : result salida :=
  (* 2) *)
  let df_ped := pedido_norm df_ped in
  (* 3) *)
  df_cat_clean <- deduplicate_catalog df_cat dedup_policy ;;
  let df_cat_clean := catalogo_norm df_cat_clean in
  (* 4) *)
  right_unique <- drop_duplicates df_cat_clean "producto_norm" ;;
  df <- merge df_ped right_unique "producto_norm" ("", "_cat") ;;
  (* 5) *)
  pv <- getitem df "precio venta" ;;
  pc <- getitem df "precio compra" ;;
  prod <- getitem (filter_rows (map2 orb (isna pv) (isna pc)) df) "producto" ;;
  let missing := unique_series prod in
  (* 6) *)
  m <- metricas df ;;
  let df := fst m in
  let resumen := snd m in
  (* 7) *)
  let df := fill_missing_cols detalle_cols df in
  detalle <- getitems df detalle_cols ;;
  OK {| missing := missing; detalle := detalle; resumen := resumen |}.

End Downloads.


(** ** Vocabulary of the statements *)

(** The canonical key of a catalogue row and of an order line. *)
Definition clave (r : fila) : string := CalcPedido.norm_text (producto r).

Definition clave_linea (l : linea) : string := CalcPedido.norm_text (producto_pedido l).

(** The rows of a catalogue that share the key [k], in catalogue order. *)
Definition grupo (k : string) (cat : list fila) : list fila :=
  filter (fun r => String.eqb (clave r) k) cat.

(** The frame [base] of [deduplicate_catalog] and the group of key [k] that
    its loop sees. *)
Definition base (cat : list fila) : list base_row :=
  CalcPedido.with_key (enumerate_from 0 cat).

Definition grupo_base (k : string) (cat : list fila) : list base_row :=
  filter (fun r => String.eqb (_key r) k) (base cat).

(** Two cells hold the same value, a null being the same as a null. *)
Definition igual (a b : option Q) : Prop := Pandas.cell_eqb a b = true.

(** Every row of the group has the purchase price and the sale price of every
    other one. *)
Definition precios_iguales (g : list fila) : Prop :=
  forall a b, In a g -> In b g ->
    igual (precio_compra a) (precio_compra b) /\ igual (precio_venta a) (precio_venta b).

(** The rows whose key occurs once pass through unchanged. *)
Definition unicos (cat : list fila) : list fila :=
  filter (fun r => negb (2 <=? List.length (grupo (clave r) cat))%nat) cat.

(** The keys that occur more than once, in the order of the loop. *)
Definition claves_dup (cat : list fila) : list string :=
  Pandas.sort_keys
    (Pandas.unique String.eqb
       (map clave (filter (fun r => (2 <=? List.length (grupo (clave r) cat))%nat) cat))).

(** A row of [base] whose key occurs more than once. *)
Definition multiple (cat : list fila) (r : base_row) : bool :=
  (2 <=? List.length (grupo (_key r) cat))%nat.

(** The test that opens the loop body. *)
Definition sin_diferencias (g : list base_row) : bool :=
  (Pandas.nunique (col precio_compra g) =? 1)%nat
  && (Pandas.nunique (col precio_venta g) =? 1)%nat.

(** Every row of the group has the prices of the first one. *)
Definition mismos_precios (g : list fila) : bool :=
  match g with
  | [] => true
  | r :: t =>
      forallb (fun x => Pandas.cell_eqb (precio_compra r) (precio_compra x)
                        && Pandas.cell_eqb (precio_venta r) (precio_venta x)) t
  end.

(** Every group of the catalogue has one purchase price and one sale price. *)
Definition sin_conflictos (cat : list fila) : bool :=
  forallb (fun k => mismos_precios (grupo k cat)) (map clave cat).


(** The policy is one of the four that the loop knows. *)
Definition conocida (policy : string) : bool :=
  String.eqb policy "first" || String.eqb policy "max_venta"
  || String.eqb policy "min_costo" || String.eqb policy "avg".

Definition mayor (v b : Q) : bool := negb (Qle_bool v b).
Definition menor (v b : Q) : bool := negb (Qle_bool b v).

(** The shape of a winning position of [argbest]: the series splits around
    it, the winner beats every earlier number, no later number beats it. *)
Definition gana (better : Q -> Q -> bool) (s : list (nat * option Q)) (i : nat) (v : Q) : Prop :=
  exists pre post,
    s = pre ++ (i, Some v) :: post /\
    (forall j x, In (j, Some x) pre -> better v x = true) /\
    (forall j x, In (j, Some x) post -> better x v = false).



(** Arithmetic mean of a list of numbers. *)
Definition media (l : list Q) : Q :=
  (Pandas.qsum l / inject_Z (Z.of_nat (List.length l)))%Q.

(** ** Vocabulary of the enrichment

    The per-line steps of the enrichment, written row by row as the
    specification words them (look up the key, default the discount and the
    quantity, derive the money columns), to be compared with the column-wise
    program. *)

(** The row of the resolved catalogue under the key [k], if any. *)
Definition buscar (rc : list fila) (k : string) : option fila :=
  find (fun r => String.eqb (clave r) k) rc.

Definition compra_de (rc : list fila) (l : linea) : option Q :=
  match buscar rc (clave_linea l) with
  | Some r => precio_compra r
  | None => None
  end.

Definition venta_de (rc : list fila) (l : linea) : option Q :=
  match buscar rc (clave_linea l) with
  | Some r => precio_venta r
  | None => None
  end.

(** An absent number counts as zero. *)
Definition o_cero (x : option Q) : Q :=
  match x with
  | Some q => q
  | None => 0%Q
  end.

Record enriquecida : Type := mk_enriquecida {
  e_producto : option string;
  e_cantidad : Q;
  e_descuento : Q;
  e_venta : option Q;
  e_aplicado : option Q;
  e_compra : option Q;
  e_ingreso : option Q;
  e_costo : option Q;
  e_utilidad : option Q;
  e_margen : option Q
}.

Definition enriquecer (rc : list fila) (l : linea) : enriquecida :=
  let q := o_cero (cantidad l) in
  let d := o_cero (descuento l) in
  let venta := venta_de rc l in
  let compra := compra_de rc l in
  let aplicado := option_map (fun p => p * (1 - d))%Q venta in
  let ingreso := option_map (fun a => q * a)%Q aplicado in
  let costo := option_map (fun c => q * c)%Q compra in
  let utilidad :=
    match ingreso, costo with
    | Some i, Some c => Some (i - c)%Q
    | _, _ => None
    end in
  let margen :=
    match utilidad, ingreso with
    | Some u, Some i => if Qeq_bool i 0 then None else Some (u / i)%Q
    | _, _ => None
    end in
  {| e_producto := producto_pedido l;
     e_cantidad := q;
     e_descuento := d;
     e_venta := venta;
     e_aplicado := aplicado;
     e_compra := compra;
     e_ingreso := ingreso;
     e_costo := costo;
     e_utilidad := utilidad;
     e_margen := margen |}.

(** The detail table of a list of enriched lines, columns in the order of
    [detalle_cols]. *)
Definition tabla (es : list enriquecida) : Pandas.DataFrame :=
  [ ("producto", Pandas.Text (map e_producto es));
    ("cantidad", Pandas.Num (map (fun e => Some (e_cantidad e)) es));
    ("descuento_%", Pandas.Num (map (fun e => Some (e_descuento e)) es));
    ("precio venta", Pandas.Num (map e_venta es));
    ("precio_venta_aplicado", Pandas.Num (map e_aplicado es));
    ("precio compra", Pandas.Num (map e_compra es));
    ("ingreso_linea", Pandas.Num (map e_ingreso es));
    ("costo_linea", Pandas.Num (map e_costo es));
    ("utilidad_linea", Pandas.Num (map e_utilidad es));
    ("margen_linea", Pandas.Num (map e_margen es)) ].

(** The summary of a list of enriched lines: nulls add nothing. *)
Definition resumir (es : list enriquecida) : Resumen :=
  let total_ingreso := Pandas.sum_skipna (map e_ingreso es) in
  let total_costo := Pandas.sum_skipna (map e_costo es) in
  let total_util := Pandas.sum_skipna (map e_utilidad es) in
  {| ingreso_total := total_ingreso;
     costo_total := total_costo;
     utilidad_total_balance_neto := total_util;
     margen_ponderado :=
       if Qeq_bool total_ingreso 0 then 0%Q else (total_util / total_ingreso)%Q |}.

(** A line of the merged frame without a sale price or without a purchase
    price. *)
Definition sin_precio (rc : list fila) (l : linea) : bool :=
  Pandas.is_none (venta_de rc l) || Pandas.is_none (compra_de rc l).

(** The product names of those lines, each once, in order of appearance. *)
Definition faltantes (rc : list fila) (ped : list linea) : list (option string) :=
  Pandas.unique Pandas.text_eqb (map producto_pedido (filter (sin_precio rc) ped)).

(** The number in row [i] of the column [label]: [None] when there is no
    such numeric cell, [Some None] when the cell is null. *)
Definition celda (df : Pandas.DataFrame) (label : string) (i : nat) : option (option Q) :=
  match Pandas.getitem df label with
  | OK (Pandas.Num l) => nth_error l i
  | _ => None
  end.

(** The output of the column-wise program in terms of its input columns. *)
Definition fill0 (s : list (option Q)) : list (option Q) :=
  map (fun x => match x with Some q => Some q | None => Some 0%Q end) s.

Definition salida_columnas (P : Pandas.Series) (c d pc pv : list (option Q)) : salida :=
  let c := fill0 c in
  let d := fill0 d in
  let pva := Pandas.mul pv (Pandas.rsub1 d) in
  let ing := Pandas.mul c pva in
  let cos := Pandas.mul c pc in
  let uti := Pandas.sub ing cos in
  let total_ingreso := Pandas.sum_skipna ing in
  let total_util := Pandas.sum_skipna uti in
  {| missing :=
       Pandas.unique_series
         (Pandas.select_series (Pandas.map2 orb (map Pandas.is_none pv) (map Pandas.is_none pc)) P);
     detalle :=
       [ ("producto", P);
         ("cantidad", Pandas.Num c);
         ("descuento_%", Pandas.Num d);
         ("precio venta", Pandas.Num pv);
         ("precio_venta_aplicado", Pandas.Num pva);
         ("precio compra", Pandas.Num pc);
         ("ingreso_linea", Pandas.Num ing);
         ("costo_linea", Pandas.Num cos);
         ("utilidad_linea", Pandas.Num uti);
         ("margen_linea", Pandas.Num (Pandas.div uti (Pandas.replace_zero_na ing))) ];
     resumen :=
       {| ingreso_total := total_ingreso;
          costo_total := Pandas.sum_skipna cos;
          utilidad_total_balance_neto := total_util;
          margen_ponderado :=
            if Qeq_bool total_ingreso 0 then 0%Q else (total_util / total_ingreso)%Q |} |}.

(** Readings of a run, for the worked examples: the warning list, a number
    of the detail table and a total, in lowest terms. *)
Definition faltan (r : result salida) : option Pandas.Series :=
  match r with
  | OK o => Some (missing o)
  | Raise _ => None
  end.

Definition celda_de (r : result salida) (label : string) (i : nat) : option (option Q) :=
  match r with
  | OK o => option_map (option_map Qred) (celda (detalle o) label i)
  | Raise _ => None
  end.

Definition total_de (f : Resumen -> Q) (r : result salida) : option Q :=
  match r with
  | OK o => Some (Qred (f (resumen o)))
  | Raise _ => None
  end.

(** ** Inputs of the worked examples *)

Definition pide (nombre : option string) (cant desc : option Q) : linea :=
  {| producto_pedido := nombre; cantidad := cant; descuento := desc |}.

Definition pide_dos : linea := pide (Some "X") (Some 2%Q) (Some (1 # 10)%Q).
Definition pide_espacios : linea := pide (Some "  x  ") (Some 1%Q) None.
Definition pide_regalo : linea := pide (Some "X") (Some 2%Q) (Some 1%Q).
Definition pide_nada : linea := pide (Some "X") (Some 0%Q) None.
Definition pide_z : linea := pide (Some "zz") None None.
Definition pide_sin_nombre : linea := pide None (Some 1%Q) None.

Definition fila_de (nombre : string) (compra venta : option Q) : fila :=
  {| producto := Some nombre; precio_compra := compra; precio_venta := venta |}.

Definition barata : fila := fila_de "X" (Some 5%Q) (Some 10%Q).
Definition cara : fila := fila_de "X" (Some 7%Q) (Some 15%Q).
Definition gemela_a : fila := fila_de "X" (Some 10%Q) (Some 20%Q).
Definition gemela_b : fila := fila_de " x " (Some 10%Q) (Some 20%Q).
Definition sin_venta : fila := fila_de "X" (Some 7%Q) None.
Definition otra : fila := fila_de "Y" (Some 1%Q) (Some 2%Q).

(** ** Shapes of text

    Predicates on strings used to describe the keys that [norm_text]
    produces. *)

(** Only white space. *)
Fixpoint blanco (s : string) : bool :=
  match s with
  | EmptyString => true
  | String c t => Text.is_space c && blanco t
  end.

(** No character that [upper] would change. *)
Fixpoint mayusculas (s : string) : bool :=
  match s with
  | EmptyString => true
  | String c t => Ascii.eqb (Text.upper_char c) c && mayusculas t
  end.

(** Every white character is a space and is followed by a character that is
    not white: no run of white space, none at the end. *)
Fixpoint espacios_simples (s : string) : bool :=
  match s with
  | EmptyString => true
  | String c t =>
      (if Text.is_space c
       then Ascii.eqb c " "
            && match t with
               | EmptyString => false
               | String c' _ => negb (Text.is_space c')
               end
       else true)
      && espacios_simples t
  end.

Definition sin_blanco_inicial (s : string) : bool :=
  match s with
  | EmptyString => true
  | String c _ => negb (Text.is_space c)
  end.

(** A canonical key: no white space at either end, single spaces between
    words, no lower-case letter. *)
Definition limpio (s : string) : bool :=
  sin_blanco_inicial s && espacios_simples s && mayusculas s.

(** The keys are in ascending order. *)
Definition ascendente (ks : list string) : Prop :=
  Sorted (fun a b => String.leb a b = true) ks.

(** ** The column checks of [calcular]

    Lines 65 to 68 and 72 to 75 of [src/calc_pedido.py]: the headers of each
    table are stripped and put in lower case, then every required column is
    looked for, in a fixed order, and the first one that is missing is named
    in a [ValueError].  The catalogue is checked before the order is read. *)

Module Columnas.

Definition lower_char (c : ascii) : ascii :=
  let n := nat_of_ascii c in
  if ((65 <=? n) && (n <=? 90))%nat then ascii_of_nat (n + 32) else c.

Fixpoint lower (s : string) : string :=
  match s with
  | EmptyString => EmptyString
  | String c t => String (lower_char c) (lower t)
  end.

(** [[c.strip().lower() for c in df.columns]]. *)
Definition normalizar (columns : list string) : list string :=
  map (fun c => lower (Text.strip c)) columns.

(** [for col in required: if col not in df.columns: raise ValueError(...)]. *)
Fixpoint exigir (mensaje : string) (required columns : list string) : result unit :=
  match required with
  | [] => OK tt
  | col :: rest =>
      if existsb (String.eqb col) columns then exigir mensaje rest columns
      else Raise (ValueError (String.append mensaje col))
  end.

Definition catalogo_requeridas : list string :=
  ["producto"; "precio compra"; "precio venta"].

Definition pedido_requeridas : list string :=
  ["producto"; "cantidad"; "descuento_%"].

Definition falta_catalogo : string := "Columna faltante en catálogo: ".
Definition falta_pedido : string := "Columna faltante en pedido: ".

Definition comprobar (cat_columns ped_columns : list string) : result unit :=
  _ <- exigir falta_catalogo catalogo_requeridas (normalizar cat_columns) ;;
  exigir falta_pedido pedido_requeridas (normalizar ped_columns).

End Columnas.

(** [c] is the first name of [required] that [columns] does not have. *)
Definition primera_faltante (required columns : list string) (c : string) : Prop :=
  exists antes despues,
    required = antes ++ c :: despues
    /\ (forall a, In a antes -> In a columns)
    /\ ~ In c columns.

(** ** The resolver on raw price cells

    A price cell that comes out of the spreadsheet is a number, a null or a
    text.  [deduplicate_catalog] is embedded once more on such cells, with
    the [astype(float)] of lines 44, 47, 51 and 52: a number and a null go
    through, a text goes through Python's [float], which is a parameter
    here: [float s] is [None] when Python raises [ValueError] on [s],
    [Some None] when it reads a NaN and [Some (Some q)] when it reads the
    number [q] (texts read as an infinity are outside the model).  On a
    catalogue without any text price this is [CalcPedido.deduplicate_catalog]
    on numbers and nulls.  The sibling file has the same function, with the
    same conversions. *)

Inductive precio : Type :=
| Numero (q : Q)
| Nulo
| Texto (s : string).

Record fila_cruda : Type := mk_fila_cruda {
  producto_c : option string;
  compra_c : precio;
  venta_c : precio
}.

(** A raw row inside [deduplicate_catalog], with its index label and its
    [_key]. *)
Record base_cruda : Type := mk_base_cruda {
  index_c : nat;
  row_c : fila_cruda;
  key_c : string
}.

Module Crudo.

(** Equality of two cells of an [object] column: a null is a null, a text is
    never a number. *)
Definition precio_eqb (a b : precio) : bool :=
  match a, b with
  | Numero x, Numero y => Qeq_bool x y
  | Nulo, Nulo => true
  | Texto s, Texto t => String.eqb s t
  | _, _ => false
  end.

(** [Series.nunique(dropna=False)]. *)
Definition nunique (s : list precio) : nat :=
  List.length (Pandas.unique precio_eqb s).

Definition de_numero (x : option Q) : precio :=
  match x with
  | Some q => Numero q
  | None => Nulo
  end.

(** The [ValueError] of Python's [float] on a text that is not a number; the
    message ends with the text between quotes, as its [repr] is for a text
    without quote or escape. *)
Definition no_convertible (s : string) : exn :=
  ValueError (String.append "could not convert string to float: '" (String.append s "'")).

Definition iloc0 (g : list base_cruda) : result (list fila_cruda) :=
  match g with
  | [] => Raise IndexError
  | r :: _ => OK [row_c r]
  end.

Definition loc (idx : nat) (g : list base_cruda) : list fila_cruda :=
  map row_c (filter (fun r => (index_c r =? idx)%nat) g).

Definition col (f : fila_cruda -> precio) (g : list base_cruda) : list precio :=
  map (fun r => f (row_c r)) g.

Definition groupby (dups : list base_cruda) : list (list base_cruda) :=
  map (fun k => filter (fun r => String.eqb (key_c r) k) dups)
      (Pandas.sort_keys (Pandas.unique String.eqb (map key_c dups))).

Definition with_key (df : list (nat * fila_cruda)) : list base_cruda :=
  map (fun ir => {| index_c := fst ir; row_c := snd ir;
                    key_c := CalcPedido.norm_text (producto_c (snd ir)) |}) df.

Section Float.

Variable float : string -> option (option Q).

(** One cell through [astype(float)]. *)
Definition a_float (c : precio) : result (option Q) :=
  match c with
  | Numero q => OK (Some q)
  | Nulo => OK None
  | Texto s =>
      match float s with
      | Some v => OK v
      | None => Raise (no_convertible s)
      end
  end.

(** [Series.astype(float)]: the cells in order, the first text that is not
    a number raises. *)
Definition astype_float (s : list precio) : result (list (option Q)) :=
  for_each a_float s.

(** The body of the loop over the groups of duplicated keys. *)
Definition resolve_group (policy : string) (g : list base_cruda) : result (list fila_cruda) :=
  if (nunique (col compra_c g) =? 1)%nat && (nunique (col venta_c g) =? 1)%nat
  then iloc0 g
  else if String.eqb policy "first" then iloc0 g
  else if String.eqb policy "max_venta" then
    v <- astype_float (col venta_c g) ;;
    idx <- Pandas.idxmax (combine (map index_c g) v) ;;
    OK (loc idx g)
  else if String.eqb policy "min_costo" then
    v <- astype_float (col compra_c g) ;;
    idx <- Pandas.idxmin (combine (map index_c g) v) ;;
    OK (loc idx g)
  else if String.eqb policy "avg" then
    match g with
    | [] => Raise IndexError
    | r :: _ =>
        pc <- astype_float (col compra_c g) ;;
        pv <- astype_float (col venta_c g) ;;
        OK [ {| producto_c := producto_c (row_c r);
                compra_c := de_numero (Pandas.mean pc);
                venta_c := de_numero (Pandas.mean pv) |} ]
    end
  else Raise (CalcPedido.unknown_policy policy).

Definition deduplicate_catalog (df_cat : list fila_cruda) (policy : string)
  : result (list fila_cruda) :=
  let base := with_key (enumerate_from 0 df_cat) in
  let dup_mask := Pandas.duplicated (map key_c base) in
  let dups := Pandas.select dup_mask base in
  let uniques := Pandas.select (map negb dup_mask) base in
  if empty dups then OK (map row_c uniques)
  else
    agg_rows <- for_each (resolve_group policy) (groupby dups) ;;
    agg <- Pandas.concat agg_rows ;;
    OK (map row_c uniques ++ agg).

End Float.

End Crudo.

(** *** Vocabulary for raw catalogues *)

Definition clave_c (r : fila_cruda) : string := CalcPedido.norm_text (producto_c r).

Definition grupo_c (k : string) (cat : list fila_cruda) : list fila_cruda :=
  filter (fun r => String.eqb (clave_c r) k) cat.

Definition base_c (cat : list fila_cruda) : list base_cruda :=
  Crudo.with_key (enumerate_from 0 cat).

(** The group of key [k] that the loop sees. *)
Definition grupo_base_c (k : string) (cat : list fila_cruda) : list base_cruda :=
  filter (fun r => String.eqb (key_c r) k) (base_c cat).

Definition multiple_c (cat : list fila_cruda) (r : base_cruda) : bool :=
  (2 <=? List.length (grupo_c (key_c r) cat))%nat.

Definition claves_dup_c (cat : list fila_cruda) : list string :=
  Pandas.sort_keys
    (Pandas.unique String.eqb
       (map clave_c (filter (fun r => (2 <=? List.length (grupo_c (clave_c r) cat))%nat) cat))).

Definition unicos_c (cat : list fila_cruda) : list fila_cruda :=
  filter (fun r => negb (2 <=? List.length (grupo_c (clave_c r) cat))%nat) cat.

(** Every row of the group has the two price cells of the first one. *)
Definition mismos_precios_c (g : list fila_cruda) : bool :=
  match g with
  | [] => true
  | r :: t =>
      forallb (fun x => Crudo.precio_eqb (compra_c r) (compra_c x)
                        && Crudo.precio_eqb (venta_c r) (venta_c x)) t
  end.

Definition sin_diferencias_c (g : list base_cruda) : bool :=
  (Crudo.nunique (Crudo.col compra_c g) =? 1)%nat
  && (Crudo.nunique (Crudo.col venta_c g) =? 1)%nat.

(** The cell is a text that [float] does not read: the non-numeric price. *)
Definition no_numero (float : string -> option (option Q)) (c : precio) : bool :=
  match c with
  | Texto s => Pandas.is_none (float s)
  | _ => false
  end.

(** The number that [astype(float)] makes of a cell, a null for a null. *)
Definition valor (float : string -> option (option Q)) (c : precio) : option Q :=
  match c with
  | Numero q => Some q
  | Nulo => None
  | Texto s =>
      match float s with
      | Some v => v
      | None => None
      end
  end.

(** The sale price and the purchase price of a raw row after
    [astype(float)]. *)
Definition venta_num (float : string -> option (option Q)) (r : fila_cruda) : option Q :=
  valor float (venta_c r).

Definition compra_num (float : string -> option (option Q)) (r : fila_cruda) : option Q :=
  valor float (compra_c r).

(** [t] is the first text of the column that [float] does not read. *)
Definition primer_no_numero (float : string -> option (option Q))
           (s : list precio) (t : string) : Prop :=
  exists pre post,
    s = pre ++ Texto t :: post
    /\ forallb (fun c => negb (no_numero float c)) pre = true
    /\ float t = None.

(** First row with the greatest, or the least, number of a column of raw
    rows, the rows without a number being passed over. *)
Definition primero_max_c (f : fila_cruda -> option Q) (g : list fila_cruda) (r : fila_cruda)
  : Prop :=
  exists pre post v,
    g = pre ++ r :: post /\ f r = Some v /\
    (forall x y, In x pre -> f x = Some y -> (y < v)%Q) /\
    (forall x y, In x post -> f x = Some y -> (y <= v)%Q).

Definition primero_min_c (f : fila_cruda -> option Q) (g : list fila_cruda) (r : fila_cruda)
  : Prop :=
  exists pre post v,
    g = pre ++ r :: post /\ f r = Some v /\
    (forall x y, In x pre -> f x = Some y -> (v < y)%Q) /\
    (forall x y, In x post -> f x = Some y -> (v <= y)%Q).

(** The mean of the numbers of a column, a null when it has none. *)
Definition media_sin_nulos (s : list (option Q)) : precio :=
  match Pandas.dropna s with
  | [] => Nulo
  | vs => Numero (media vs)
  end.

(** The policy fails on the group: an unknown policy; for a known one, a
    price that it converts is a text that is not a number, or the column
    that max_venta or min_costo compares has no number at all. *)
Definition falla (float : string -> option (option Q)) (policy : string)
           (g : list fila_cruda) : bool :=
  if negb (conocida policy) then true
  else if String.eqb policy "first" then false
  else if String.eqb policy "max_venta" then
    existsb (no_numero float) (map venta_c g)
    || forallb (fun c => Pandas.is_none (valor float c)) (map venta_c g)
  else if String.eqb policy "min_costo" then
    existsb (no_numero float) (map compra_c g)
    || forallb (fun c => Pandas.is_none (valor float c)) (map compra_c g)
  else existsb (no_numero float) (map compra_c g)
       || existsb (no_numero float) (map venta_c g).

(** A raw row of numbers and nulls. *)
Definition cruda (r : fila) : fila_cruda :=
  {| producto_c := producto r;
     compra_c := Crudo.de_numero (precio_compra r);
     venta_c := Crudo.de_numero (precio_venta r) |}.

(** Python's [float] on texts that are not numbers, as those of the
    examples below are. *)
Definition sin_numeros : string -> option (option Q) := fun _ => None.

Definition cruda_de (nombre : string) (compra venta : precio) : fila_cruda :=
  {| producto_c := Some nombre; compra_c := compra; venta_c := venta |}.

(** The frames of numbers and nulls among the raw ones. *)
Definition base_de (r : base_row) : base_cruda :=
  {| index_c := index r; row_c := cruda (row r); key_c := _key r |}.


(** Raw rows of the examples: those of the typed examples, and two rows
    whose price is a text that is not a number. *)
Definition barata_c : fila_cruda := cruda barata.
Definition venta_texto : fila_cruda := cruda_de "X" (Numero 7) (Texto "consultar").

(** Made of 7-bit characters only: the texts on which the white space and
    the letter cases of Python are those of [Text] and of [Columnas]. *)
Definition siete_bits_char (c : ascii) : bool := (nat_of_ascii c <? 128)%nat.

Fixpoint siete_bits (s : string) : bool :=
  match s with
  | EmptyString => true
  | String c t => siete_bits_char c && siete_bits t
  end.

Definition nombre_siete_bits (x : option string) : bool :=
  match x with
  | None => true
  | Some s => siete_bits s
  end.

(** ** Lists, masks and keys *)

Section ListFacts.
Import Pandas.

Lemma select_map {A : Type} (f : A -> bool) (l : list A) :
  select (map f l) l = filter f l.
Proof.
  induction l as [|x t IH]; simpl; [reflexivity|].
  rewrite IH. reflexivity.
Qed.

Lemma filter_filter {A : Type} (f g : A -> bool) (l : list A) :
  filter f (filter g l) = filter (fun x => g x && f x) l.
Proof.
  induction l as [|x t IH]; simpl; [reflexivity|].
  destruct (g x); simpl; [destruct (f x)|]; rewrite IH; reflexivity.
Qed.

Lemma filter_none {A : Type} (f : A -> bool) (l : list A) :
  (forall x, In x l -> f x = false) -> filter f l = [].
Proof.
  induction l as [|x t IH]; simpl; intros H; [reflexivity|].
  rewrite (H x (or_introl eq_refl)). apply IH. intros y Hy. apply H. now right.
Qed.

Lemma filter_all {A : Type} (f : A -> bool) (l : list A) :
  (forall x, In x l -> f x = true) -> filter f l = l.
Proof.
  induction l as [|x t IH]; simpl; intros H; [reflexivity|].
  rewrite (H x (or_introl eq_refl)). f_equal. apply IH. intros y Hy. apply H. now right.
Qed.

Lemma filter_length_le {A : Type} (f : A -> bool) (l : list A) :
  List.length (filter f l) <= List.length l.
Proof.
  induction l as [|x t IH]; simpl; [lia|]. destruct (f x); simpl; lia.
Qed.

Lemma count_key_filter (p : string -> bool) (k : string) (l : list string) :
  count_key k (filter p l) <= count_key k l.
Proof.
  unfold count_key. rewrite filter_filter.
  induction l as [|x t IH]; simpl; [lia|].
  destruct (p x); simpl; destruct (String.eqb k x); simpl; lia.
Qed.

Lemma count_key_in (k : string) (l : list string) :
  In k l <-> 1 <= count_key k l.
Proof.
  unfold count_key. induction l as [|x t IH]; simpl.
  - split; [tauto | lia].
  - destruct (String.eqb_spec k x) as [->|Hne]; simpl.
    + split; [lia | auto].
    + rewrite <- IH. split; [intros [H|H]; [congruence | exact H] | auto].
Qed.

Lemma count_le_one_nodup (l : list string) :
  (forall k, In k l -> count_key k l <= 1) -> NoDup l.
Proof.
  induction l as [|a t IH]; intros H; constructor.
  - intros Hin. apply count_key_in in Hin.
    specialize (H a (or_introl eq_refl)). unfold count_key in *. simpl in H.
    rewrite String.eqb_refl in H. simpl in H. lia.
  - apply IH. intros k Hk. specialize (H k (or_intror Hk)).
    unfold count_key in *. simpl in H. destruct (String.eqb k a); simpl in H; lia.
Qed.

(** The keys that occur once are pairwise different. *)
Lemma singles_nodup (l : list string) :
  NoDup (filter (fun k => negb (2 <=? count_key k l)%nat) l).
Proof.
  apply count_le_one_nodup. intros k Hk.
  apply filter_In in Hk. destruct Hk as [_ Hk].
  apply negb_true_iff, Nat.leb_gt in Hk.
  pose proof (count_key_filter (fun k => negb (2 <=? count_key k l)%nat) k l). lia.
Qed.

Lemma unique_In {A : Type} (eqb : A -> A -> bool) (l : list A) (x : A) :
  In x (unique eqb l) -> In x l.
Proof.
  revert x. induction l as [|a t IH]; simpl; intros x H; [exact H|].
  destruct H as [H|H]; [now left|].
  apply filter_In in H. right. apply IH. tauto.
Qed.

Lemma unique_string_In (l : list string) (x : string) :
  In x (unique String.eqb l) <-> In x l.
Proof.
  split; [apply unique_In|].
  induction l as [|a t IH]; simpl; [tauto|].
  intros [H|H]; [now left|].
  destruct (String.eqb_spec a x) as [Heq|Hne]; [now left|].
  right. apply filter_In. split; [now apply IH|].
  apply negb_true_iff. now apply String.eqb_neq.
Qed.

Lemma unique_string_nodup (l : list string) : NoDup (unique String.eqb l).
Proof.
  induction l as [|a t IH]; simpl; constructor.
  - intros H. apply filter_In in H. destruct H as [_ H].
    rewrite String.eqb_refl in H. discriminate.
  - now apply NoDup_filter.
Qed.

Lemma insert_key_perm (k : string) (l : list string) :
  Permutation (insert_key k l) (k :: l).
Proof.
  induction l as [|h t IH]; simpl; [apply Permutation_refl|].
  destruct (String.leb k h); [apply Permutation_refl|].
  eapply perm_trans; [apply perm_skip, IH | apply perm_swap].
Qed.

Lemma sort_keys_perm (l : list string) : Permutation (sort_keys l) l.
Proof.
  induction l as [|h t IH]; simpl; [constructor|].
  eapply perm_trans; [apply insert_key_perm | now apply perm_skip].
Qed.

(** A value is the only element with its image when images are distinct. *)
Lemma filter_image_single {A : Type} (f : A -> string) (l : list A) (x : A) :
  NoDup (map f l) -> In x l ->
  filter (fun y => String.eqb (f y) (f x)) l = [x].
Proof.
  induction l as [|a t IH]; simpl; intros Hnd Hin; [contradiction|].
  inversion Hnd as [|? ? Hna Hnt]; subst.
  destruct Hin as [->|Hin].
  - rewrite String.eqb_refl. f_equal. apply filter_none.
    intros y Hy. apply String.eqb_neq. intros Heq. apply Hna.
    rewrite <- Heq. now apply in_map.
  - destruct (String.eqb_spec (f a) (f x)) as [Heq|Hne].
    + exfalso. apply Hna. rewrite Heq. now apply in_map.
    + now apply IH.
Qed.

Lemma filter_label_single (g : list base_row) (r : base_row) :
  NoDup (map index g) -> In r g ->
  filter (fun y => (index y =? index r)%nat) g = [r].
Proof.
  induction g as [|a t IH]; simpl; intros Hnd Hin; [contradiction|].
  inversion Hnd as [|? ? Hna Hnt]; subst.
  destruct Hin as [->|Hin].
  - rewrite Nat.eqb_refl. f_equal. apply filter_none.
    intros y Hy. apply Nat.eqb_neq. intros Heq. apply Hna.
    rewrite <- Heq. now apply in_map.
  - destruct (Nat.eqb_spec (index a) (index r)) as [Heq|Hne].
    + exfalso. apply Hna. rewrite Heq. now apply in_map.
    + now apply IH.
Qed.

End ListFacts.

(** ** Null-safe equality and [nunique] *)

Section CellFacts.
Import Pandas.

Lemma cell_eqb_refl (a : option Q) : cell_eqb a a = true.
Proof.
  destruct a as [x|]; simpl; [|reflexivity].
  apply Qeq_bool_iff. reflexivity.
Qed.

Lemma cell_eqb_sym (a b : option Q) : cell_eqb a b = true -> cell_eqb b a = true.
Proof.
  destruct a as [x|], b as [y|]; simpl; try discriminate; try reflexivity.
  rewrite !Qeq_bool_iff. intros H. symmetry. exact H.
Qed.

Lemma cell_eqb_trans (a b c : option Q) :
  cell_eqb a b = true -> cell_eqb b c = true -> cell_eqb a c = true.
Proof.
  destruct a as [x|], b as [y|], c as [z|]; simpl; try discriminate; try reflexivity.
  rewrite !Qeq_bool_iff. intros H1 H2. rewrite H1. exact H2.
Qed.

(** Every value of a series has a representative among its unique values. *)
Lemma unique_covers (l : list (option Q)) (y : option Q) :
  In y l -> exists y', In y' (unique cell_eqb l) /\ cell_eqb y' y = true.
Proof.
  induction l as [|a t IH]; simpl; intros H; [contradiction|].
  destruct H as [->|H].
  - exists y. split; [now left | apply cell_eqb_refl].
  - destruct (IH H) as [y' [Hin Heq]].
    destruct (cell_eqb a y') eqn:E.
    + exists a. split; [now left | eapply cell_eqb_trans; eauto].
    + exists y'. split; [|exact Heq].
      right. apply filter_In. split; [exact Hin | now rewrite E].
Qed.

(** [nunique(dropna=False) == 1] says that all the values of a non-empty
    series are the same. *)
Lemma nunique_one (x : option Q) (t : list (option Q)) :
  nunique (x :: t) = 1 <-> (forall y, In y t -> igual x y).
Proof.
  unfold nunique, igual. simpl. split.
  - intros H y Hy.
    destruct (unique_covers t y Hy) as [y' [Hin Heq]].
    destruct (cell_eqb x y') eqn:E; [eapply cell_eqb_trans; eauto|].
    exfalso.
    assert (Hf : In y' (filter (fun y0 => negb (cell_eqb x y0)) (unique cell_eqb t))).
    { apply filter_In. split; [exact Hin | now rewrite E]. }
    destruct (filter (fun y0 => negb (cell_eqb x y0)) (unique cell_eqb t));
      [contradiction | simpl in H; lia].
  - intros H. rewrite filter_none; [reflexivity|].
    intros y Hy. apply unique_In in Hy. rewrite (H y Hy). reflexivity.
Qed.

Lemma nunique_col_one (f : fila -> option Q) (r : base_row) (g : list base_row) :
  nunique (col f (r :: g)) = 1 <->
  (forall r', In r' g -> igual (f (row r)) (f (row r'))).
Proof.
  unfold col. simpl. rewrite nunique_one. split.
  - intros H r' Hr'. apply H. apply in_map_iff. now exists r'.
  - intros H y Hy. apply in_map_iff in Hy. destruct Hy as [r' [<- Hr']]. now apply H.
Qed.

End CellFacts.

(** ** [idxmax] and [idxmin] *)

Section ArgBest.
Import Pandas.

Variable better : Q -> Q -> bool.
Hypothesis better_trans : forall x y z, better x y = true -> better y z = true -> better x z = true.
Hypothesis better_weak : forall x y z, better x y = false -> better y z = false -> better x z = false.

Lemma argbest_none (s : list (nat * option Q)) :
  argbest better s None = None <-> (forall j c, In (j, c) s -> c = None).
Proof.
  assert (Hsome : forall s b, argbest better s (Some b) <> None).
  { clear. intros s. induction s as [|[j [v|]] t IH]; intros [i b]; simpl.
    - discriminate.
    - destruct (better v b); apply IH.
    - apply IH. }
  induction s as [|[j [v|]] t IH]; simpl.
  - split; [intros _ ? ? [] | reflexivity].
  - split.
    + intros H. exfalso. exact (Hsome _ _ H).
    + intros H. specialize (H j (Some v) (or_introl eq_refl)). discriminate.
  - rewrite IH. split.
    + intros H k c [Heq|Hin]; [congruence | eauto].
    + intros H k c Hin. apply (H k c). now right.
Qed.

(** Invariant of the scan: [seen] has been read and [(i, b)] wins on it. *)
Lemma argbest_some (s seen : list (nat * option Q)) (i : nat) (b : Q) (i' : nat) (v : Q) :
  gana better seen i b ->
  argbest better s (Some (i, b)) = Some (i', v) ->
  gana better (seen ++ s) i' v.
Proof.
  revert seen i b. induction s as [|[j [x|]] t IH]; intros seen i b Hg H; simpl in H.
  - injection H as -> ->. now rewrite app_nil_r.
  - replace (seen ++ (j, Some x) :: t) with ((seen ++ [(j, Some x)]) ++ t)
      by (rewrite <- app_assoc; reflexivity).
    destruct Hg as [pre [post [Hs [Hpre Hpost]]]].
    destruct (better x b) eqn:E.
    + apply (IH _ j x); [|exact H].
      exists seen, []. split; [reflexivity|]. split; [|intros ? ? []].
      intros k y Hin. subst seen. apply in_app_or in Hin.
      destruct Hin as [Hin|[Heq|Hin]].
      * eapply better_trans; [exact E | eauto].
      * injection Heq as _ <-. exact E.
      * destruct (better x y) eqn:E'; [reflexivity|].
        rewrite (better_weak _ _ _ E' (Hpost _ _ Hin)) in E. discriminate.
    + apply (IH _ i b); [|exact H].
      exists pre, (post ++ [(j, Some x)]). split.
      { subst seen. rewrite <- app_assoc. reflexivity. }
      split; [exact Hpre|].
      intros k y Hin. apply in_app_or in Hin.
      destruct Hin as [Hin|[Heq|[]]]; [eauto|].
      injection Heq as _ <-. exact E.
  - replace (seen ++ (j, None) :: t) with ((seen ++ [(j, None)]) ++ t)
      by (rewrite <- app_assoc; reflexivity).
    apply (IH _ i b); [|exact H].
    destruct Hg as [pre [post [Hs [Hpre Hpost]]]].
    exists pre, (post ++ [(j, None)]). split.
    { subst seen. rewrite <- app_assoc. reflexivity. }
    split; [exact Hpre|].
    intros k y Hin. apply in_app_or in Hin.
    destruct Hin as [Hin|[Heq|[]]]; [eauto | discriminate].
Qed.

Lemma argbest_gana (s : list (nat * option Q)) (i : nat) (v : Q) :
  argbest better s None = Some (i, v) -> gana better s i v.
Proof.
  assert (Hgen : forall seen, (forall j c, In (j, c) seen -> c = None) ->
                              argbest better s None = Some (i, v) ->
                              gana better (seen ++ s) i v).
  { induction s as [|[j [x|]] t IH]; intros seen Hseen H; simpl in H.
    - discriminate.
    - replace (seen ++ (j, Some x) :: t) with ((seen ++ [(j, Some x)]) ++ t)
        by (rewrite <- app_assoc; reflexivity).
      apply (argbest_some _ _ j x); [|exact H].
      exists seen, []. split; [reflexivity|]. split; [|intros ? ? []].
      intros k y Hin. apply Hseen in Hin. discriminate.
    - replace (seen ++ (j, None) :: t) with ((seen ++ [(j, None)]) ++ t)
        by (rewrite <- app_assoc; reflexivity).
      apply IH; [|exact H].
      intros k c Hin. apply in_app_or in Hin.
      destruct Hin as [Hin|[Heq|[]]]; [eauto | congruence]. }
  intros H. apply (Hgen [] (fun _ _ F => match F with end) H).
Qed.

End ArgBest.

(** ** The frames inside [deduplicate_catalog] *)

Section BaseFacts.
Import Pandas.

Lemma enumerate_snd {A : Type} (l : list A) (n : nat) :
  map snd (enumerate_from n l) = l.
Proof.
  revert n. induction l as [|x t IH]; intros n; simpl; [reflexivity|].
  now rewrite IH.
Qed.

Lemma enumerate_fst {A : Type} (l : list A) (n : nat) :
  map fst (enumerate_from n l) = seq n (List.length l).
Proof.
  revert n. induction l as [|x t IH]; intros n; simpl; [reflexivity|].
  now rewrite IH.
Qed.

Lemma base_rows (cat : list fila) : map row (base cat) = cat.
Proof.
  unfold base, CalcPedido.with_key. rewrite map_map. simpl.
  apply enumerate_snd.
Qed.

Lemma base_index_nodup (cat : list fila) : NoDup (map index (base cat)).
Proof.
  unfold base, CalcPedido.with_key. rewrite map_map. simpl.
  rewrite enumerate_fst. apply seq_NoDup.
Qed.

Lemma base_key (cat : list fila) (r : base_row) :
  In r (base cat) -> _key r = clave (row r).
Proof.
  unfold base, CalcPedido.with_key. intros H.
  apply in_map_iff in H. destruct H as [ir [<- _]]. reflexivity.
Qed.

Lemma base_keys (cat : list fila) : map _key (base cat) = map clave cat.
Proof.
  rewrite <- (base_rows cat) at 2. rewrite map_map.
  apply map_ext_in. intros r Hr. now apply (base_key cat).
Qed.

Lemma map_filter_comm {A B : Type} (f : A -> B) (q : A -> bool) (p : B -> bool) (l : list A) :
  (forall x, In x l -> q x = p (f x)) ->
  map f (filter q l) = filter p (map f l).
Proof.
  induction l as [|x t IH]; simpl; intros H; [reflexivity|].
  rewrite (H x (or_introl eq_refl)).
  destruct (p (f x)); simpl; rewrite IH; auto.
Qed.

Lemma nodup_map_filter {A B : Type} (f : A -> B) (q : A -> bool) (l : list A) :
  NoDup (map f l) -> NoDup (map f (filter q l)).
Proof.
  induction l as [|x t IH]; simpl; intros H; [constructor|].
  inversion H as [|? ? Hn Ht]; subst.
  destruct (q x); simpl; [constructor|]; auto.
  intros Hin. apply Hn. apply in_map_iff in Hin.
  destruct Hin as [y [Hy Hin]]. apply filter_In in Hin.
  apply in_map_iff. exists y. tauto.
Qed.

Lemma grupo_base_rows (k : string) (cat : list fila) :
  map row (grupo_base k cat) = grupo k cat.
Proof.
  unfold grupo_base, grupo. rewrite <- (base_rows cat) at 2.
  apply map_filter_comm. intros r Hr. now rewrite (base_key cat r Hr).
Qed.

Lemma grupo_base_nodup (k : string) (cat : list fila) :
  NoDup (map index (grupo_base k cat)).
Proof. apply nodup_map_filter, base_index_nodup. Qed.

Lemma grupo_base_key (k : string) (cat : list fila) (r : base_row) :
  In r (grupo_base k cat) -> clave (row r) = k.
Proof.
  unfold grupo_base. intros H. apply filter_In in H. destruct H as [Hin Hk].
  rewrite <- (base_key cat r Hin). now apply String.eqb_eq.
Qed.

Lemma grupo_base_length (k : string) (cat : list fila) :
  List.length (grupo_base k cat) = List.length (grupo k cat).
Proof. rewrite <- grupo_base_rows. now rewrite length_map. Qed.

Lemma count_key_grupo (k : string) (cat : list fila) :
  count_key k (map _key (base cat)) = List.length (grupo k cat).
Proof.
  rewrite base_keys. unfold count_key, grupo.
  induction cat as [|r t IH]; simpl; [reflexivity|].
  rewrite (String.eqb_sym k (clave r)).
  destruct (String.eqb (clave r) k); simpl; now rewrite IH.
Qed.

Lemma dups_filter (cat : list fila) :
  select (duplicated (map _key (base cat))) (base cat) = filter (multiple cat) (base cat).
Proof.
  unfold duplicated. rewrite map_map. rewrite select_map.
  apply filter_ext. intros r. unfold multiple. now rewrite count_key_grupo.
Qed.

Lemma uniques_filter (cat : list fila) :
  select (map negb (duplicated (map _key (base cat)))) (base cat)
  = filter (fun r => negb (multiple cat r)) (base cat).
Proof.
  unfold duplicated. rewrite !map_map. rewrite select_map.
  apply filter_ext. intros r. unfold multiple. now rewrite count_key_grupo.
Qed.

Lemma grupo_of_dups (k : string) (cat : list fila) :
  2 <= List.length (grupo k cat) ->
  filter (fun r => String.eqb (_key r) k) (filter (multiple cat) (base cat))
  = grupo_base k cat.
Proof.
  intros H. rewrite filter_filter. unfold grupo_base.
  apply filter_ext. intros r. unfold multiple.
  destruct (String.eqb_spec (_key r) k) as [->|Hne]; [|apply andb_false_r].
  rewrite andb_true_r. now apply Nat.leb_le.
Qed.

Lemma dups_claves (cat : list fila) :
  map _key (filter (multiple cat) (base cat))
  = map clave (filter (fun r => (2 <=? List.length (grupo (clave r) cat))%nat) cat).
Proof.
  transitivity (map clave (map row (filter (multiple cat) (base cat)))).
  - rewrite map_map. apply map_ext_in. intros r Hr.
    apply filter_In in Hr. now apply (base_key cat).
  - f_equal.
    rewrite (map_filter_comm row (multiple cat)
               (fun r => (2 <=? List.length (grupo (clave r) cat))%nat) (base cat)).
    + now rewrite base_rows.
    + intros r Hr. unfold multiple. now rewrite (base_key cat r Hr).
Qed.

Lemma claves_dup_spec (cat : list fila) (k : string) :
  In k (claves_dup cat) <-> 2 <= List.length (grupo k cat).
Proof.
  unfold claves_dup. rewrite <- dups_claves. split.
  - intros H. apply (Permutation_in _ (sort_keys_perm _)) in H.
    apply (proj1 (unique_string_In _ _)) in H. apply in_map_iff in H.
    destruct H as [r [<- Hr]]. apply filter_In in Hr.
    destruct Hr as [_ Hr]. now apply Nat.leb_le in Hr.
  - intros H.
    apply (Permutation_in _ (Permutation_sym (sort_keys_perm _))).
    apply unique_string_In.
    assert (Hin : In k (map _key (base cat))).
    { apply count_key_in. rewrite count_key_grupo. lia. }
    apply in_map_iff in Hin. destruct Hin as [r [<- Hr]].
    apply in_map. apply filter_In. split; [exact Hr|].
    now apply Nat.leb_le.
Qed.

Lemma claves_dup_nodup (cat : list fila) : NoDup (claves_dup cat).
Proof.
  unfold claves_dup.
  eapply Permutation_NoDup; [apply Permutation_sym, sort_keys_perm|].
  apply unique_string_nodup.
Qed.

Lemma groupby_dups (cat : list fila) :
  groupby (filter (multiple cat) (base cat))
  = map (fun k => grupo_base k cat) (claves_dup cat).
Proof.
  unfold groupby. rewrite dups_claves. fold (claves_dup cat).
  apply map_ext_in. intros k Hk. apply grupo_of_dups.
  now apply claves_dup_spec.
Qed.

Lemma dups_empty (cat : list fila) :
  filter (multiple cat) (base cat) = [] -> claves_dup cat = [].
Proof. unfold claves_dup. rewrite <- dups_claves. intros ->. reflexivity. Qed.

Lemma dups_nonempty (cat : list fila) :
  filter (multiple cat) (base cat) <> [] -> claves_dup cat <> [].
Proof.
  intros H Hk. destruct (filter (multiple cat) (base cat)) as [|r t] eqn:E; [congruence|].
  assert (Hin : In (_key r) (claves_dup cat)).
  { apply claves_dup_spec.
    assert (Hr : In r (filter (multiple cat) (base cat))) by (rewrite E; now left).
    apply filter_In in Hr. destruct Hr as [_ Hr]. now apply Nat.leb_le in Hr. }
  rewrite Hk in Hin. contradiction.
Qed.

Lemma unicos_rows (cat : list fila) :
  map row (filter (fun r => negb (multiple cat r)) (base cat)) = unicos cat.
Proof.
  unfold unicos.
  rewrite (map_filter_comm row _
             (fun r => negb (2 <=? List.length (grupo (clave r) cat))%nat) (base cat)).
  - now rewrite base_rows.
  - intros r Hr. unfold multiple. now rewrite (base_key cat r Hr).
Qed.

End BaseFacts.

(** ** The loop over the groups *)

Section LoopFacts.
Import Pandas.

Lemma for_each_OK {A B : Type} (f : A -> result B) (l : list A) (ys : list B) :
  for_each f l = OK ys <-> Forall2 (fun x y => f x = OK y) l ys.
Proof.
  revert ys. induction l as [|x t IH]; intros ys; simpl.
  - split; intros H; [injection H as <-; constructor | inversion H; reflexivity].
  - split.
    + intros H. destruct (f x) as [y|e] eqn:E; simpl in H; [|discriminate].
      destruct (for_each f t) as [ys'|e]; simpl in H; [|discriminate].
      injection H as <-. constructor; [exact E | now apply IH].
    + intros H. inversion H as [|? y ? ys' Hy Ht]; subst.
      rewrite Hy. simpl. apply IH in Ht. rewrite Ht. reflexivity.
Qed.

Lemma for_each_map {A B C : Type} (f : B -> result C) (g : A -> B) (l : list A) :
  for_each f (map g l) = for_each (fun x => f (g x)) l.
Proof.
  induction l as [|x t IH]; simpl; [reflexivity|]. now rewrite IH.
Qed.

(** When a body can fail in one way only, the loop fails that way as soon
    as one element does. *)
Lemma for_each_raise {A B : Type} (f : A -> result B) (l : list A) (e : exn) :
  (forall x, In x l -> f x = Raise e \/ exists y, f x = OK y) ->
  (exists x, In x l /\ f x = Raise e) ->
  for_each f l = Raise e.
Proof.
  induction l as [|x t IH]; simpl; intros Hall [x0 [Hin Hx0]]; [contradiction|].
  destruct (Hall x (or_introl eq_refl)) as [Hx|[y Hy]].
  - rewrite Hx. reflexivity.
  - rewrite Hy. simpl. rewrite IH; [reflexivity | auto |].
    destruct Hin as [->|Hin]; [congruence | eauto].
Qed.

Lemma for_each_total {A B : Type} (f : A -> result B) (l : list A) :
  (forall x, In x l -> exists y, f x = OK y) ->
  exists ys, for_each f l = OK ys.
Proof.
  induction l as [|x t IH]; simpl; intros H; [now exists []|].
  destruct (H x (or_introl eq_refl)) as [y Hy].
  destruct IH as [ys Hys]; [auto|].
  exists (y :: ys). rewrite Hy. simpl. rewrite Hys. reflexivity.
Qed.

(** [deduplicate_catalog], its frames named. *)
Lemma dedup_unfold (cat : list fila) (policy : string) :
  CalcPedido.deduplicate_catalog cat policy =
  if empty (filter (multiple cat) (base cat)) then OK (unicos cat)
  else
    agg_rows <- for_each (fun k => CalcPedido.resolve_group policy (grupo_base k cat))
                         (claves_dup cat) ;;
    agg <- concat agg_rows ;;
    OK (unicos cat ++ agg).
Proof.
  unfold CalcPedido.deduplicate_catalog. fold (base cat).
  rewrite dups_filter, uniques_filter, unicos_rows.
  rewrite groupby_dups, for_each_map. reflexivity.
Qed.

Lemma dedup_OK_inv (cat : list fila) (policy : string) (out : list fila) :
  CalcPedido.deduplicate_catalog cat policy = OK out ->
  exists agg,
    Forall2 (fun k rs => CalcPedido.resolve_group policy (grupo_base k cat) = OK rs)
            (claves_dup cat) agg
    /\ out = unicos cat ++ List.concat agg.
Proof.
  rewrite dedup_unfold.
  destruct (filter (multiple cat) (base cat)) as [|r t] eqn:E; simpl.
  - intros H. injection H as <-. exists []. rewrite (dups_empty cat E).
    split; [constructor | now rewrite app_nil_r].
  - destruct (for_each _ (claves_dup cat)) as [agg|e] eqn:Ef; simpl; [|discriminate].
    apply for_each_OK in Ef.
    destruct agg as [|a agg]; simpl; [discriminate|].
    intros H. injection H as <-. exists (a :: agg). split; [exact Ef | reflexivity].
Qed.

Lemma dedup_OK_intro (cat : list fila) (policy : string) (agg : list (list fila)) :
  Forall2 (fun k rs => CalcPedido.resolve_group policy (grupo_base k cat) = OK rs)
          (claves_dup cat) agg ->
  CalcPedido.deduplicate_catalog cat policy = OK (unicos cat ++ List.concat agg).
Proof.
  intros H. rewrite dedup_unfold.
  destruct (filter (multiple cat) (base cat)) as [|r t] eqn:E; simpl.
  - rewrite (dups_empty cat E) in H. inversion H. simpl. now rewrite app_nil_r.
  - assert (Hne : claves_dup cat <> []) by (apply dups_nonempty; rewrite E; discriminate).
    apply for_each_OK in H. rewrite H. simpl.
    destruct agg as [|a agg]; [|reflexivity].
    apply for_each_OK in H. inversion H. congruence.
Qed.

Lemma dedup_Raise (cat : list fila) (policy : string) (e : exn) :
  (forall k, In k (claves_dup cat) ->
     CalcPedido.resolve_group policy (grupo_base k cat) = Raise e
     \/ exists rs, CalcPedido.resolve_group policy (grupo_base k cat) = OK rs) ->
  (exists k, In k (claves_dup cat)
             /\ CalcPedido.resolve_group policy (grupo_base k cat) = Raise e) ->
  CalcPedido.deduplicate_catalog cat policy = Raise e.
Proof.
  intros Hall Hex. rewrite dedup_unfold.
  destruct (filter (multiple cat) (base cat)) as [|r t] eqn:E; simpl.
  - destruct Hex as [k [Hk _]]. rewrite (dups_empty cat E) in Hk. contradiction.
  - rewrite (for_each_raise _ _ e Hall Hex). reflexivity.
Qed.

End LoopFacts.

(** ** One group *)

Section GroupFacts.
Import Pandas.

Lemma mayor_lt (v b : Q) : mayor v b = true <-> (b < v)%Q.
Proof.
  unfold mayor. rewrite negb_true_iff. split.
  - intros H. apply Qnot_le_lt. intros Hle. apply Qle_bool_iff in Hle. congruence.
  - intros H. destruct (Qle_bool v b) eqn:E; [|reflexivity].
    apply Qle_bool_iff in E. exfalso. apply (Qlt_not_le _ _ H E).
Qed.

Lemma mayor_le (v b : Q) : mayor v b = false <-> (v <= b)%Q.
Proof.
  unfold mayor. rewrite negb_false_iff. apply Qle_bool_iff.
Qed.

Lemma menor_lt (v b : Q) : menor v b = true <-> (v < b)%Q.
Proof. apply (mayor_lt b v). Qed.

Lemma menor_le (v b : Q) : menor v b = false <-> (b <= v)%Q.
Proof. apply (mayor_le b v). Qed.

Lemma mayor_trans (x y z : Q) : mayor x y = true -> mayor y z = true -> mayor x z = true.
Proof. rewrite !mayor_lt. intros. lra. Qed.

Lemma mayor_weak (x y z : Q) : mayor x y = false -> mayor y z = false -> mayor x z = false.
Proof. rewrite !mayor_le. intros. lra. Qed.

Lemma menor_trans (x y z : Q) : menor x y = true -> menor y z = true -> menor x z = true.
Proof. rewrite !menor_lt. intros. lra. Qed.

Lemma menor_weak (x y z : Q) : menor x y = false -> menor y z = false -> menor x z = false.
Proof. rewrite !menor_le. intros. lra. Qed.

Lemma idxmax_OK (s : list (nat * option Q)) (i : nat) :
  idxmax s = OK i -> exists v, gana mayor s i v.
Proof.
  unfold idxmax. fold mayor.
  destruct (argbest mayor s None) as [[j v]|] eqn:E; [|discriminate].
  intros H. injection H as <-. exists v.
  exact (argbest_gana mayor mayor_trans mayor_weak s j v E).
Qed.

Lemma idxmin_OK (s : list (nat * option Q)) (i : nat) :
  idxmin s = OK i -> exists v, gana menor s i v.
Proof.
  unfold idxmin. fold menor.
  destruct (argbest menor s None) as [[j v]|] eqn:E; [|discriminate].
  intros H. injection H as <-. exists v.
  exact (argbest_gana menor menor_trans menor_weak s j v E).
Qed.

(** [idxmax] and [idxmin] fail exactly on a series without any number. *)
Lemma idxmax_Raise (s : list (nat * option Q)) :
  (forall j c, In (j, c) s -> c = None) <-> idxmax s = Raise all_na.
Proof.
  unfold idxmax. rewrite <- (argbest_none (fun v b => negb (Qle_bool v b)) s).
  destruct (argbest _ s None) as [[j v]|]; split; try discriminate; reflexivity.
Qed.

Lemma idxmin_Raise (s : list (nat * option Q)) :
  (forall j c, In (j, c) s -> c = None) <-> idxmin s = Raise all_na.
Proof.
  unfold idxmin. rewrite <- (argbest_none (fun v b => negb (Qle_bool b v)) s).
  destruct (argbest _ s None) as [[j v]|]; split; try discriminate; reflexivity.
Qed.

Lemma idxmax_cases (s : list (nat * option Q)) :
  (exists i, idxmax s = OK i) \/ idxmax s = Raise all_na.
Proof.
  unfold idxmax. destruct (argbest _ s None) as [[j v]|]; [left; now exists j | now right].
Qed.

Lemma idxmin_cases (s : list (nat * option Q)) :
  (exists i, idxmin s = OK i) \/ idxmin s = Raise all_na.
Proof.
  unfold idxmin. destruct (argbest _ s None) as [[j v]|]; [left; now exists j | now right].
Qed.

(** A winner of the labelled series is one row of the group, and [.loc]
    on its label returns that row alone. *)
Lemma gana_loc (better : Q -> Q -> bool) (f : fila -> option Q)
      (g : list base_row) (i : nat) (v : Q) :
  NoDup (map index g) ->
  gana better (labelled f g) i v ->
  exists pre r post,
    g = pre ++ r :: post /\ f (row r) = Some v /\ loc i g = [row r] /\
    (forall x y, In x pre -> f (row x) = Some y -> better v y = true) /\
    (forall x y, In x post -> f (row x) = Some y -> better y v = false).
Proof.
  intros Hnd [pre' [post' [Hs [Hpre Hpost]]]].
  unfold labelled in Hs. apply map_eq_app in Hs.
  destruct Hs as [pre [l2 [Hg [Hp Hl2]]]].
  apply map_eq_cons in Hl2. destruct Hl2 as [r [post [-> [Hr Hpo]]]].
  injection Hr as Hi Hv. subst i.
  exists pre, r, post. repeat split; auto.
  - unfold loc. rewrite filter_label_single; [reflexivity | exact Hnd |].
    subst g. apply in_or_app. right. now left.
  - intros x y Hx Hy. apply (Hpre (index x)). subst pre'.
    apply in_map_iff. exists x. split; [now rewrite Hy | exact Hx].
  - intros x y Hx Hy. apply (Hpost (index x)). subst post'.
    apply in_map_iff. exists x. split; [now rewrite Hy | exact Hx].
Qed.

Lemma sin_diferencias_spec (r : base_row) (t : list base_row) :
  sin_diferencias (r :: t) = true <-> precios_iguales (map row (r :: t)).
Proof.
  unfold sin_diferencias. rewrite andb_true_iff, !Nat.eqb_eq, !nunique_col_one.
  unfold precios_iguales, igual. split.
  - intros [Hc Hv] a b Ha Hb.
    assert (Hall : forall x, In x (map row (r :: t)) ->
              cell_eqb (precio_compra (row r)) (precio_compra x) = true /\
              cell_eqb (precio_venta (row r)) (precio_venta x) = true).
    { intros x Hx. simpl in Hx. destruct Hx as [<-|Hx].
      - split; apply cell_eqb_refl.
      - apply in_map_iff in Hx. destruct Hx as [x' [<- Hx']]. split; auto. }
    destruct (Hall a Ha) as [Hac Hav]. destruct (Hall b Hb) as [Hbc Hbv].
    split; (eapply cell_eqb_trans; [apply cell_eqb_sym|]; eassumption).
  - intros H. split; intros r' Hr'; apply (H (row r) (row r'));
      simpl; auto; right; now apply in_map.
Qed.

Lemma resolve_sin_diferencias (policy : string) (g : list base_row) :
  sin_diferencias g = true -> CalcPedido.resolve_group policy g = iloc0 g.
Proof.
  unfold CalcPedido.resolve_group, sin_diferencias. now intros ->.
Qed.

Lemma resolve_first (g : list base_row) :
  CalcPedido.resolve_group "first" g = iloc0 g.
Proof.
  unfold CalcPedido.resolve_group.
  destruct (_ && _); reflexivity.
Qed.

Lemma resolve_max_venta (g : list base_row) :
  sin_diferencias g = false ->
  CalcPedido.resolve_group "max_venta" g =
  (idx <- idxmax (labelled precio_venta g) ;; OK (loc idx g)).
Proof.
  unfold CalcPedido.resolve_group, sin_diferencias. now intros ->.
Qed.

Lemma resolve_min_costo (g : list base_row) :
  sin_diferencias g = false ->
  CalcPedido.resolve_group "min_costo" g =
  (idx <- idxmin (labelled precio_compra g) ;; OK (loc idx g)).
Proof.
  unfold CalcPedido.resolve_group, sin_diferencias. now intros ->.
Qed.


Lemma resolve_desconocida (policy : string) (g : list base_row) :
  conocida policy = false -> sin_diferencias g = false ->
  CalcPedido.resolve_group policy g = Raise (CalcPedido.unknown_policy policy).
Proof.
  unfold conocida. rewrite !orb_false_iff. intros [[[H1 H2] H3] H4].
  unfold CalcPedido.resolve_group, sin_diferencias.
  intros ->. simpl. now rewrite H1, H2, H3, H4.
Qed.

(** Whatever the policy, a group that resolves gives one row, and that row
    has the key of the group. *)
Lemma resolve_one_row (policy : string) (k : string) (cat : list fila) (rs : list fila) :
  grupo_base k cat <> [] ->
  CalcPedido.resolve_group policy (grupo_base k cat) = OK rs ->
  exists r, rs = [r] /\ clave r = k.
Proof.
  intros Hne H.
  pose proof (grupo_base_nodup k cat) as Hnd.
  pose proof (grupo_base_key k cat) as Hkey.
  destruct (grupo_base k cat) as [|r0 t] eqn:Eg; [congruence|].
  assert (Hiloc : forall rs', iloc0 (r0 :: t) = OK rs' -> exists r, rs' = [r] /\ clave r = k).
  { intros rs' E. injection E as <-. exists (row r0). split; [reflexivity|].
    apply Hkey. now left. }
  assert (Hloc : forall better f i v,
             gana better (labelled f (r0 :: t)) i v ->
             exists r, loc i (r0 :: t) = [r] /\ clave r = k).
  { intros better f i v Hg.
    destruct (gana_loc better f _ i v Hnd Hg) as [pre [r [post [Hsplit [_ [Hl _]]]]]].
    exists (row r). split; [exact Hl|]. apply Hkey. rewrite Hsplit.
    apply in_or_app. right. now left. }
  unfold CalcPedido.resolve_group in H.
  destruct (_ && _); [now apply Hiloc|].
  destruct (String.eqb policy "first"); [now apply Hiloc|].
  destruct (String.eqb policy "max_venta").
  { destruct (idxmax _) as [i|e] eqn:E; simpl in H; [|discriminate].
    injection H as <-. destruct (idxmax_OK _ _ E) as [v Hv]. eauto. }
  destruct (String.eqb policy "min_costo").
  { destruct (idxmin _) as [i|e] eqn:E; simpl in H; [|discriminate].
    injection H as <-. destruct (idxmin_OK _ _ E) as [v Hv]. eauto. }
  destruct (String.eqb policy "avg"); [|discriminate].
  injection H as <-. eexists. split; [reflexivity|].
  unfold clave. simpl. apply (Hkey r0). now left.
Qed.

End GroupFacts.

(** ** The resolved catalogue *)

Section CatalogFacts.
Import Pandas.

Lemma claves_dup_grupo (cat : list fila) (k : string) :
  In k (claves_dup cat) -> grupo_base k cat <> [].
Proof.
  intros H E. apply claves_dup_spec in H.
  rewrite <- grupo_base_length, E in H. simpl in H. lia.
Qed.

Lemma agg_claves (policy : string) (cat : list fila) (ks : list string)
      (agg : list (list fila)) :
  (forall k, In k ks -> grupo_base k cat <> []) ->
  Forall2 (fun k rs => CalcPedido.resolve_group policy (grupo_base k cat) = OK rs) ks agg ->
  map clave (List.concat agg) = ks.
Proof.
  intros Hne H. induction H as [|k rs ks agg Hk _ IH]; simpl; [reflexivity|].
  destruct (resolve_one_row policy k cat rs (Hne k (or_introl eq_refl)) Hk) as [r [-> Hr]].
  simpl. rewrite Hr. f_equal. apply IH. intros k' Hk'. apply Hne. now right.
Qed.

Lemma unicos_claves (cat : list fila) :
  map clave (unicos cat)
  = filter (fun k => negb (2 <=? count_key k (map clave cat))%nat) (map clave cat).
Proof.
  unfold unicos. apply map_filter_comm.
  intros r _. now rewrite <- base_keys, count_key_grupo.
Qed.

Lemma dedup_claves (cat : list fila) (policy : string) (out : list fila) :
  CalcPedido.deduplicate_catalog cat policy = OK out ->
  map clave out = map clave (unicos cat) ++ claves_dup cat.
Proof.
  intros H. destruct (dedup_OK_inv cat policy out H) as [agg [Hagg ->]].
  rewrite map_app. f_equal.
  apply (agg_claves policy cat); [apply claves_dup_grupo | exact Hagg].
Qed.

(** Helper behind the uniqueness invariant. *)
Lemma dedup_claves_nodup (cat : list fila) (policy : string) (out : list fila) :
  CalcPedido.deduplicate_catalog cat policy = OK out ->
  NoDup (map clave out).
Proof.
  intros H. rewrite (dedup_claves cat policy out H).
  apply NoDup_app.
  - rewrite unicos_claves. apply singles_nodup.
  - apply claves_dup_nodup.
  - intros k Hu Hd. rewrite unicos_claves in Hu.
    apply filter_In in Hu. destruct Hu as [_ Hu].
    apply negb_true_iff, Nat.leb_gt in Hu.
    apply claves_dup_spec in Hd.
    rewrite <- base_keys, count_key_grupo in Hu. lia.
Qed.

(** The row that a group resolves to is the only row of the output under
    the key of the group. *)
Lemma dedup_grupo (cat : list fila) (policy : string) (out : list fila)
      (k : string) (r : fila) :
  CalcPedido.deduplicate_catalog cat policy = OK out ->
  2 <= List.length (grupo k cat) ->
  CalcPedido.resolve_group policy (grupo_base k cat) = OK [r] ->
  filter (fun y => String.eqb (clave y) k) out = [r].
Proof.
  intros H Hk Hr.
  pose proof (dedup_claves_nodup cat policy out H) as Hnd.
  destruct (dedup_OK_inv cat policy out H) as [agg [Hagg Hout]].
  apply claves_dup_spec in Hk.
  assert (Hin : In r (List.concat agg)).
  { clear Hout Hnd H. induction Hagg as [|k' rs ks agg' Hk' _ IH]; [contradiction|].
    simpl. apply in_or_app. destruct Hk as [->|Hk].
    - left. rewrite Hr in Hk'. injection Hk' as <-. now left.
    - right. now apply IH. }
  assert (Hclave : clave r = k).
  { destruct (resolve_one_row policy k cat [r] (claves_dup_grupo cat k Hk) Hr)
      as [r' [E Hr']]. injection E as ->. exact Hr'. }
  subst k. apply filter_image_single; [exact Hnd|].
  rewrite Hout. apply in_or_app. now right.
Qed.

(** A key that occurs once keeps its row. *)
Lemma dedup_unico (cat : list fila) (policy : string) (out : list fila) (r : fila) :
  CalcPedido.deduplicate_catalog cat policy = OK out ->
  grupo (clave r) cat = [r] ->
  filter (fun y => String.eqb (clave y) (clave r)) out = [r].
Proof.
  intros H Hg.
  pose proof (dedup_claves_nodup cat policy out H) as Hnd.
  destruct (dedup_OK_inv cat policy out H) as [agg [_ Hout]].
  apply filter_image_single; [exact Hnd|].
  rewrite Hout. apply in_or_app. left. unfold unicos.
  assert (Hin : In r (grupo (clave r) cat)) by (rewrite Hg; now left).
  apply filter_In in Hin. apply filter_In. split; [tauto|].
  rewrite Hg. reflexivity.
Qed.

End CatalogFacts.

(** ** The policies on one group of the catalogue *)

Section PolicyFacts.
Import Pandas.

Lemma mean_media (s : list (option Q)) :
  mean s = match dropna s with
           | [] => None
           | vs => Some (media vs)
           end.
Proof. unfold mean, media. destruct (dropna s); reflexivity. Qed.


Lemma grupo_base_cons (k : string) (cat : list fila) (r0 : fila) (rest : list fila) :
  grupo k cat = r0 :: rest ->
  exists rb t, grupo_base k cat = rb :: t /\ row rb = r0 /\ map row t = rest.
Proof.
  intros H. rewrite <- grupo_base_rows in H.
  destruct (grupo_base k cat) as [|rb t]; [discriminate|].
  injection H as H1 H2. now exists rb, t.
Qed.


Lemma resolve_iguales (policy k : string) (cat : list fila) (r0 : fila) (rest : list fila) :
  grupo k cat = r0 :: rest -> precios_iguales (r0 :: rest) ->
  CalcPedido.resolve_group policy (grupo_base k cat) = OK [r0].
Proof.
  intros Hg Heq. destruct (grupo_base_cons k cat r0 rest Hg) as [rb [t [E [Hr Ht]]]].
  rewrite resolve_sin_diferencias; rewrite E.
  - simpl. now rewrite Hr.
  - apply sin_diferencias_spec. simpl. now rewrite Hr, Ht.
Qed.

Lemma sin_diferencias_false (k : string) (cat : list fila) (r0 : fila) (rest : list fila) :
  grupo k cat = r0 :: rest -> ~ precios_iguales (r0 :: rest) ->
  sin_diferencias (grupo_base k cat) = false.
Proof.
  intros Hg Hne. destruct (grupo_base_cons k cat r0 rest Hg) as [rb [t [E [Hr Ht]]]].
  destruct (sin_diferencias (grupo_base k cat)) eqn:Es; [|reflexivity].
  exfalso. apply Hne. rewrite E in Es. apply sin_diferencias_spec in Es.
  simpl in Es. now rewrite Hr, Ht in Es.
Qed.


Lemma labelled_all_none (f : fila -> option Q) (k : string) (cat : list fila) :
  (forall r, In r (grupo k cat) -> f r = None) ->
  forall j c, In (j, c) (labelled f (grupo_base k cat)) -> c = None.
Proof.
  intros H j c Hin. unfold labelled in Hin. apply in_map_iff in Hin.
  destruct Hin as [rb [E Hrb]]. injection E as _ <-.
  apply H. rewrite <- grupo_base_rows. now apply in_map.
Qed.




Lemma resolve_max_all_na (k : string) (cat : list fila) :
  sin_diferencias (grupo_base k cat) = false ->
  (forall r, In r (grupo k cat) -> precio_venta r = None) ->
  CalcPedido.resolve_group "max_venta" (grupo_base k cat) = Raise all_na.
Proof.
  intros Hs H. rewrite (resolve_max_venta _ Hs).
  pose proof (proj1 (idxmax_Raise _) (labelled_all_none precio_venta k cat H)) as E.
  now rewrite E.
Qed.

Lemma resolve_min_all_na (k : string) (cat : list fila) :
  sin_diferencias (grupo_base k cat) = false ->
  (forall r, In r (grupo k cat) -> precio_compra r = None) ->
  CalcPedido.resolve_group "min_costo" (grupo_base k cat) = Raise all_na.
Proof.
  intros Hs H. rewrite (resolve_min_costo _ Hs).
  pose proof (proj1 (idxmin_Raise _) (labelled_all_none precio_compra k cat H)) as E.
  now rewrite E.
Qed.


End PolicyFacts.

(** ** Groups with and without a price conflict *)

Section ConflictFacts.
Import Pandas.

Lemma mismos_precios_spec (r : fila) (t : list fila) :
  mismos_precios (r :: t) = true <-> precios_iguales (r :: t).
Proof.
  unfold mismos_precios, precios_iguales, igual. rewrite forallb_forall. split.
  - intros H a b Ha Hb.
    assert (Hall : forall x, In x (r :: t) ->
              cell_eqb (precio_compra r) (precio_compra x) = true /\
              cell_eqb (precio_venta r) (precio_venta x) = true).
    { intros x [<-|Hx]; [split; apply cell_eqb_refl|].
      apply andb_true_iff. now apply H. }
    destruct (Hall a Ha) as [Hac Hav]. destruct (Hall b Hb) as [Hbc Hbv].
    split; (eapply cell_eqb_trans; [apply cell_eqb_sym|]; eassumption).
  - intros H x Hx. apply andb_true_iff. apply H; simpl; auto.
Qed.

Lemma resolve_mismos (policy k : string) (cat : list fila) (r0 : fila) (rest : list fila) :
  grupo k cat = r0 :: rest -> mismos_precios (r0 :: rest) = true ->
  CalcPedido.resolve_group policy (grupo_base k cat) = OK [r0].
Proof.
  intros Hg H. apply (resolve_iguales policy k cat r0 rest Hg).
  now apply mismos_precios_spec.
Qed.

Lemma conflicto_sin_diferencias (k : string) (cat : list fila) (r0 : fila) (rest : list fila) :
  grupo k cat = r0 :: rest -> mismos_precios (r0 :: rest) = false ->
  sin_diferencias (grupo_base k cat) = false.
Proof.
  intros Hg H. apply (sin_diferencias_false k cat r0 rest Hg).
  intros Hp. apply mismos_precios_spec in Hp. congruence.
Qed.

Lemma claves_dup_clave (cat : list fila) (k : string) :
  In k (claves_dup cat) -> In k (map clave cat).
Proof.
  intros H. apply claves_dup_spec in H.
  destruct (grupo k cat) as [|r t] eqn:E; [simpl in H; lia|].
  assert (Hr : In r (grupo k cat)) by (rewrite E; now left).
  apply filter_In in Hr. destruct Hr as [Hin Hk].
  apply String.eqb_eq in Hk. subst k. now apply in_map.
Qed.

Lemma grupo_no_vacio (cat : list fila) (k : string) :
  In k (claves_dup cat) -> exists r0 rest, grupo k cat = r0 :: rest.
Proof.
  intros H. apply claves_dup_spec in H.
  destruct (grupo k cat) as [|r t]; [simpl in H; lia | eauto].
Qed.

Lemma grupo_en_cat (k : string) (cat : list fila) (r : fila) :
  In r (grupo k cat) -> In r cat.
Proof. intros H. apply filter_In in H. tauto. Qed.

(** The loop ends normally when every group does. *)
Lemma dedup_total (cat : list fila) (policy : string) :
  (forall k, In k (claves_dup cat) ->
     exists rs, CalcPedido.resolve_group policy (grupo_base k cat) = OK rs) ->
  exists out, CalcPedido.deduplicate_catalog cat policy = OK out.
Proof.
  intros H. destruct (for_each_total _ _ H) as [agg Hagg].
  apply for_each_OK in Hagg. eexists. exact (dedup_OK_intro cat policy agg Hagg).
Qed.

Lemma sin_conflictos_grupo (cat : list fila) (k : string) :
  sin_conflictos cat = true -> In k (claves_dup cat) ->
  mismos_precios (grupo k cat) = true.
Proof.
  unfold sin_conflictos. rewrite forallb_forall. intros H Hk.
  apply H. now apply claves_dup_clave.
Qed.

Lemma conflicto_existe (cat : list fila) :
  sin_conflictos cat = false ->
  exists k, In k (claves_dup cat) /\ mismos_precios (grupo k cat) = false.
Proof.
  unfold sin_conflictos. intros H.
  assert (Hex : exists k, In k (map clave cat) /\ mismos_precios (grupo k cat) = false).
  { induction (map clave cat) as [|k t IH]; simpl in H; [discriminate|].
    destruct (mismos_precios (grupo k cat)) eqn:E.
    - destruct (IH H) as [k' [Hin Hk']]. exists k'. split; [now right | exact Hk'].
    - exists k. split; [now left | exact E]. }
  destruct Hex as [k [_ Hk]]. exists k. split; [|exact Hk].
  apply claves_dup_spec.
  destruct (grupo k cat) as [|r [|r' t]]; simpl in *; try discriminate. lia.
Qed.


Lemma existsb_numero (f : fila -> option Q) (g : list fila) :
  existsb (fun r => negb (is_none (f r))) g = true <->
  exists r, In r g /\ f r <> None.
Proof.
  rewrite existsb_exists. split; intros [r [Hin Hr]]; exists r; split; auto.
  - intros E. rewrite E in Hr. discriminate.
  - destruct (f r); [reflexivity | congruence].
Qed.

Lemma existsb_sin_numero (f : fila -> option Q) (g : list fila) :
  existsb (fun r => negb (is_none (f r))) g = false <->
  (forall r, In r g -> f r = None).
Proof.
  split.
  - intros H r Hr. destruct (f r) eqn:E; [|reflexivity].
    assert (Hex : existsb (fun r => negb (is_none (f r))) g = true).
    { apply existsb_exists. exists r. split; [exact Hr | now rewrite E]. }
    congruence.
  - intros H. destruct (existsb _ g) eqn:E; [|reflexivity].
    apply existsb_exists in E. destruct E as [r [Hr Hn]].
    rewrite (H r Hr) in Hn. discriminate.
Qed.





End ConflictFacts.

(** ** Properties of [deduplicate_catalog] *)

Section ResolverClaims.
  Import Pandas.

(** C1. A group of several rows under one key whose purchase prices are all
    the same and whose sale prices are all the same (a null being the same as
    a null) resolves to its first row, for every value of the policy, known
    or not: the loop body returns that row, it is the only row under that key
    of any catalogue that [deduplicate_catalog] returns, and when every group
    of the catalogue is of that kind the function does return, whatever the
    policy. *)
Theorem equality_skip_keeps_first
        (cat : list fila) (policy k : string) (r0 : fila) (rest : list fila) :
  grupo k cat = r0 :: rest ->
  1 <= List.length rest ->
  mismos_precios (r0 :: rest) = true ->
  CalcPedido.resolve_group policy (grupo_base k cat) = OK [r0]
  /\ (forall out, CalcPedido.deduplicate_catalog cat policy = OK out ->
        filter (fun y => String.eqb (clave y) k) out = [r0])
  /\ (sin_conflictos cat = true ->
        exists out, CalcPedido.deduplicate_catalog cat policy = OK out).
Proof.
  intros Hg Hlen Heq.
  pose proof (resolve_mismos policy k cat r0 rest Hg Heq) as Hr.
  split; [exact Hr|]. split.
  - intros out Hout. apply (dedup_grupo cat policy out k r0 Hout); [|exact Hr].
    rewrite Hg. simpl. lia.
  - intros Hall. apply dedup_total. intros k' Hk'.
    destruct (grupo_no_vacio cat k' Hk') as [r' [rest' Hg']].
    exists [r']. apply (resolve_mismos policy k' cat r' rest' Hg').
    rewrite <- Hg'. now apply sin_conflictos_grupo.
Qed.

Lemma equality_skip_keeps_first_witness :
  CalcPedido.resolve_group "bogus" (grupo_base "X" [gemela_a; otra; gemela_b]) = OK [gemela_a]
  /\ (forall out, CalcPedido.deduplicate_catalog [gemela_a; otra; gemela_b] "bogus" = OK out ->
        filter (fun y => String.eqb (clave y) "X") out = [gemela_a])
  /\ (sin_conflictos [gemela_a; otra; gemela_b] = true ->
        exists out, CalcPedido.deduplicate_catalog [gemela_a; otra; gemela_b] "bogus" = OK out).
Proof.
  apply (equality_skip_keeps_first [gemela_a; otra; gemela_b] "bogus" "X" gemela_a [gemela_b]).
  - reflexivity.
  - simpl. lia.
  - reflexivity.
Defined.

(** C3. Whenever [deduplicate_catalog] returns, for any catalogue and any
    policy, no two rows of the result have the same normalised key. *)
Theorem resolved_keys_are_unique (cat : list fila) (policy : string) (out : list fila) :
  CalcPedido.deduplicate_catalog cat policy = OK out ->
  NoDup (map clave out).
Proof. apply dedup_claves_nodup. Qed.

Lemma resolved_keys_are_unique_witness :
  CalcPedido.deduplicate_catalog [barata; otra; cara] "max_venta" = OK [otra; cara]
  /\ NoDup (map clave [otra; cara]).
Proof.
  split.
  - reflexivity.
  - apply (resolved_keys_are_unique [barata; otra; cara] "max_venta").
    reflexivity.
Defined.

(** C4, as the code has it.  The policy is looked at inside the loop, after
    the test for equal prices.  With a policy outside first, max_venta,
    min_costo and avg, [deduplicate_catalog] raises the [ValueError] of the
    unknown policy exactly when some group of several rows has a price
    conflict; otherwise it returns the rows of the single keys followed by the
    first row of every other group. *)
Theorem unknown_policy_needs_a_conflict (cat : list fila) (policy : string) :
  conocida policy = false ->
  (sin_conflictos cat = false ->
     CalcPedido.deduplicate_catalog cat policy = Raise (CalcPedido.unknown_policy policy))
  /\ (sin_conflictos cat = true ->
        CalcPedido.deduplicate_catalog cat policy
        = OK (unicos cat ++ flat_map (fun k => firstn 1 (grupo k cat)) (claves_dup cat))).
Proof.
  intros Hp. split.
  - intros Hc. apply dedup_Raise.
    + intros k Hk. destruct (grupo_no_vacio cat k Hk) as [r0 [rest Hg]].
      destruct (mismos_precios (r0 :: rest)) eqn:E.
      * right. exists [r0]. now apply (resolve_mismos policy k cat r0 rest).
      * left. apply (resolve_desconocida policy _ Hp).
        now apply (conflicto_sin_diferencias k cat r0 rest).
    + destruct (conflicto_existe cat Hc) as [k [Hk Hne]].
      exists k. split; [exact Hk|].
      destruct (grupo_no_vacio cat k Hk) as [r0 [rest Hg]].
      apply (resolve_desconocida policy _ Hp).
      apply (conflicto_sin_diferencias k cat r0 rest Hg). now rewrite <- Hg.
  - intros Hc.
    assert (Hgen : forall ks, (forall k, In k ks -> In k (claves_dup cat)) ->
              Forall2
                (fun k rs => CalcPedido.resolve_group policy (grupo_base k cat) = OK rs)
                ks (map (fun k => firstn 1 (grupo k cat)) ks)).
    { intros ks. induction ks as [|k ks IH]; intros Hin; simpl; constructor.
      - pose proof (Hin k (or_introl eq_refl)) as Hk.
        pose proof (sin_conflictos_grupo cat k Hc Hk) as Hm.
        destruct (grupo_no_vacio cat k Hk) as [r0 [rest Hg]].
        rewrite Hg in Hm. rewrite Hg. simpl.
        exact (resolve_mismos policy k cat r0 rest Hg Hm).
      - apply IH. intros k' Hk'. apply Hin. now right. }
    rewrite (dedup_OK_intro cat policy _ (Hgen (claves_dup cat) (fun _ H => H))).
    now rewrite flat_map_concat_map.
Qed.

Lemma unknown_policy_needs_a_conflict_witness :
  (sin_conflictos [barata; otra; cara] = false ->
     CalcPedido.deduplicate_catalog [barata; otra; cara] "bogus"
     = Raise (CalcPedido.unknown_policy "bogus"))
  /\ (sin_conflictos [barata; otra; cara] = true ->
        CalcPedido.deduplicate_catalog [barata; otra; cara] "bogus"
        = OK (unicos [barata; otra; cara]
              ++ flat_map (fun k => firstn 1 (grupo k [barata; otra; cara]))
                          (claves_dup [barata; otra; cara]))).
Proof.
  apply (unknown_policy_needs_a_conflict [barata; otra; cara] "bogus").
  reflexivity.
Defined.

(** C4 as stated fails: an unknown policy goes unnoticed when the catalogue
    has no group with a price conflict. *)
Lemma unknown_policy_unnoticed :
  CalcPedido.deduplicate_catalog [otra] "bogus" = OK [otra]
  /\ CalcPedido.deduplicate_catalog [gemela_a; otra; gemela_b] "bogus" = OK [otra; gemela_a].
Proof. split; reflexivity. Qed.



(** The example of C2, run through [deduplicate_catalog]. *)
Example conflict_example :
  CalcPedido.deduplicate_catalog [barata; cara] "max_venta" = OK [cara]
  /\ CalcPedido.deduplicate_catalog [barata; cara] "min_costo" = OK [barata]
  /\ exists r, CalcPedido.deduplicate_catalog [barata; cara] "avg" = OK [r]
               /\ producto r = Some "X"
               /\ igual (precio_compra r) (Some 6%Q)
               /\ igual (precio_venta r) (Some 12.5%Q).
Proof.
  split; [reflexivity|]. split; [reflexivity|].
  eexists. split; [reflexivity|]. repeat split; reflexivity.
Qed.

(** C9. The two files hold the same core: their [norm_text] agree on every
    input, and their [deduplicate_catalog] return the same rows or raise the
    same exception on every catalogue and every policy. *)
Theorem sibling_files_agree :
  (forall s, CalcPedido.norm_text s = Downloads.norm_text s)
  /\ (forall cat policy,
         CalcPedido.deduplicate_catalog cat policy = Downloads.deduplicate_catalog cat policy).
Proof. split; reflexivity. Qed.

End ResolverClaims.

(** ** The merge and the columns of the merged frame *)

Section MergeFacts.
Import Pandas.

Lemma dedup_same (cat : list fila) (policy : string) :
  Downloads.deduplicate_catalog cat policy = CalcPedido.deduplicate_catalog cat policy.
Proof. reflexivity. Qed.

Lemma map2_map {A B C D : Type} (f : B -> C -> D) (g : A -> B) (h : A -> C) (l : list A) :
  map2 f (map g l) (map h l) = map (fun x => f (g x) (h x)) l.
Proof.
  induction l as [|x t IH]; simpl; [reflexivity|]. now rewrite IH.
Qed.

Lemma select_filter {A B : Type} (f : A -> bool) (g : A -> B) (l : list A) :
  select (map f l) (map g l) = map g (filter f l).
Proof.
  induction l as [|x t IH]; simpl; [reflexivity|].
  destruct (f x); simpl; now rewrite IH.
Qed.

Lemma select_all {A B : Type} (g : A -> B) (l : list A) :
  select (map (fun _ => true) l) (map g l) = map g l.
Proof.
  rewrite (select_filter (fun _ => true) g l).
  now rewrite (filter_all (fun _ : A => true) l).
Qed.

Lemma existsb_text (k : string) (seen : list string) :
  existsb (text_eqb (Some k)) (map Some seen) = true <-> In k seen.
Proof.
  rewrite existsb_exists. split.
  - intros [x [Hin Hx]]. apply in_map_iff in Hin. destruct Hin as [k' [<- Hk']].
    simpl in Hx. apply String.eqb_eq in Hx. now subst.
  - intros H. exists (Some k). split; [now apply in_map|].
    simpl. apply String.eqb_refl.
Qed.

Lemma first_seen_nodup (keys seen : list string) :
  NoDup keys -> (forall k, In k keys -> ~ In k seen) ->
  first_seen text_eqb (map Some seen) (map Some keys) = map (fun _ => true) keys.
Proof.
  revert seen. induction keys as [|k t IH]; intros seen Hnd Hseen; simpl; [reflexivity|].
  inversion Hnd as [|? ? Hk Ht]; subst. f_equal.
  - apply negb_true_iff. destruct (existsb _ _) eqn:E; [|reflexivity].
    apply existsb_text in E. exfalso. apply (Hseen k); [now left | exact E].
  - apply (IH (k :: seen) Ht). intros k' Hk' [<-|Hin]; [contradiction|].
    apply (Hseen k'); [now right | exact Hin].
Qed.

Lemma keep_first_nodup (keys : list string) :
  NoDup keys -> keep_first (Text (map Some keys)) = map (fun _ => true) keys.
Proof.
  intros H. apply (first_seen_nodup keys [] H). intros k _ [].
Qed.

Lemma is_unique_nodup (keys : list string) :
  NoDup keys -> is_unique (Text (map Some keys)) = true.
Proof.
  intros H. unfold is_unique. rewrite (keep_first_nodup keys H).
  apply forallb_forall. intros b Hb. apply in_map_iff in Hb.
  now destruct Hb as [_ [<- _]].
Qed.

(** The right-hand value that the merge gives to a line is that of the
    catalogue row found under the key of the line. *)
Lemma take_buscar {A : Type} (f : fila -> option A) (rc : list fila) (k : string) :
  take_from (map f rc) (position (text_eqb (Some k)) (map (fun r => Some (clave r)) rc))
  = match buscar rc k with
    | Some r => f r
    | None => None
    end.
Proof.
  unfold buscar. induction rc as [|a t IH]; simpl; [reflexivity|].
  rewrite (String.eqb_sym k (clave a)).
  destruct (String.eqb (clave a) k); [reflexivity|].
  rewrite <- IH.
  destruct (position _ _); reflexivity.
Qed.

Lemma merge_frames (P C D RP RC RV : Series) (lk rk : list (option string)) (sl sr : string) :
  is_unique (Text rk) = true ->
  merge [("producto", P); ("cantidad", C); ("descuento_%", D); ("producto_norm", Text lk)]
        [("producto", RP); ("precio compra", RC); ("precio venta", RV);
         ("producto_norm", Text rk)]
        "producto_norm" (sl, sr)
  = OK [(String.append "producto" sl, P); ("cantidad", C); ("descuento_%", D);
        ("producto_norm", Text lk);
        (String.append "producto" sr, take (map (fun k => position (text_eqb k) rk) lk) RP);
        ("precio compra", take (map (fun k => position (text_eqb k) rk) lk) RC);
        ("precio venta", take (map (fun k => position (text_eqb k) rk) lk) RV)].
Proof.
  intros H. unfold merge. cbn [getitem String.eqb Ascii.eqb Bool.eqb bind].
  rewrite H. reflexivity.
Qed.

(** Dropping duplicated keys leaves a catalogue with distinct keys as it
    is. *)
Lemma drop_duplicates_nodup (rc : list fila) :
  NoDup (map clave rc) ->
  drop_duplicates (CalcPedido.catalogo_norm rc) "producto_norm"
  = OK (CalcPedido.catalogo_norm rc).
Proof.
  intros H. unfold drop_duplicates, CalcPedido.catalogo_norm. cbn [getitem String.eqb Ascii.eqb Bool.eqb bind].
  change (map (fun r : fila => Some (CalcPedido.norm_text (producto r))) rc)
    with (map (fun r : fila => Some (clave r)) rc).
  rewrite <- (map_map clave Some rc), (keep_first_nodup _ H), map_map.
  unfold filter_rows. cbn [map fst snd select_series].
  rewrite map_map, !select_all. reflexivity.
Qed.

(** The merged frame of the two programs, up to the suffixes. *)
Lemma merge_pedido (rc : list fila) (ped : list linea) (sl sr : string) :
  NoDup (map clave rc) ->
  merge (CalcPedido.pedido_norm ped) (CalcPedido.catalogo_norm rc) "producto_norm" (sl, sr)
  = OK [(String.append "producto" sl, Text (map producto_pedido ped));
        ("cantidad", Num (map cantidad ped));
        ("descuento_%", Num (map descuento ped));
        ("producto_norm", Text (map (fun l => Some (clave_linea l)) ped));
        (String.append "producto" sr,
         Text (map (fun l => match buscar rc (clave_linea l) with
                             | Some r => producto r
                             | None => None
                             end) ped));
        ("precio compra", Num (map (compra_de rc) ped));
        ("precio venta", Num (map (venta_de rc) ped))].
Proof.
  intros H. unfold CalcPedido.pedido_norm, CalcPedido.catalogo_norm.
  change (map (fun r : fila => Some (CalcPedido.norm_text (producto r))) rc)
    with (map (fun r : fila => Some (clave r)) rc).
  change (map (fun l : linea => Some (CalcPedido.norm_text (producto_pedido l))) ped)
    with (map (fun l : linea => Some (clave_linea l)) ped).
  rewrite merge_frames.
  - cbn [take]. rewrite !map_map.
    assert (Hf : forall (A : Type) (f : fila -> option A),
               map (fun x => take_from (map f rc)
                               (position (text_eqb (Some (clave_linea x)))
                                         (map (fun r => Some (clave r)) rc))) ped
               = map (fun l => match buscar rc (clave_linea l) with
                               | Some r => f r
                               | None => None
                               end) ped).
    { intros A f. apply map_ext. intros l. apply take_buscar. }
    rewrite !Hf. reflexivity.
  - rewrite <- (map_map clave Some rc). now apply is_unique_nodup.
Qed.

End MergeFacts.

(** ** The two programs on a resolved catalogue *)

Section EnrichFacts.
Import Pandas.

(** [calcular] never gets past its warning: the merge has renamed the two
    [producto] columns to [producto_x] and [producto_y]. *)
Lemma calcular_raises (cat : list fila) (ped : list linea) (policy : string) :
  CalcPedido.calcular cat ped policy =
  (rc <- CalcPedido.deduplicate_catalog cat policy ;; Raise (KeyError "producto")).
Proof.
  unfold CalcPedido.calcular.
  destruct (CalcPedido.deduplicate_catalog cat policy) as [rc|e] eqn:E; [|reflexivity].
  cbn [bind].
  pose proof (dedup_claves_nodup cat policy rc E) as Hnd.
  rewrite (drop_duplicates_nodup rc Hnd). cbn [bind].
  rewrite (merge_pedido rc ped "_x" "_y" Hnd). reflexivity.
Qed.

(** [main] of the sibling file, in terms of the columns of the merged
    frame. *)
Lemma main_columns (cat : list fila) (ped : list linea) (policy : string) (rc : list fila) :
  CalcPedido.deduplicate_catalog cat policy = OK rc ->
  Downloads.main cat ped policy
  = OK (salida_columnas (Text (map producto_pedido ped)) (map cantidad ped)
          (map descuento ped) (map (compra_de rc) ped) (map (venta_de rc) ped)).
Proof.
  intros E. unfold Downloads.main. rewrite dedup_same, E. cbn [bind].
  pose proof (dedup_claves_nodup cat policy rc E) as Hnd.
  change (Downloads.catalogo_norm rc) with (CalcPedido.catalogo_norm rc).
  change (Downloads.pedido_norm ped) with (CalcPedido.pedido_norm ped).
  rewrite (drop_duplicates_nodup rc Hnd). cbn [bind].
  rewrite (merge_pedido rc ped "" "_cat" Hnd).
  generalize (map (fun l : linea => Some (clave_linea l)) ped).
  generalize (map (fun l : linea => match buscar rc (clave_linea l) with
                                    | Some r => producto r
                                    | None => None
                                    end) ped).
  generalize (map (venta_de rc) ped). generalize (map (compra_de rc) ped).
  generalize (map descuento ped). generalize (map cantidad ped).
  generalize (map producto_pedido ped).
  intros P c d pc pv RP K. reflexivity.
Qed.

Lemma col_cantidad (ped : list linea) :
  fill0 (map cantidad ped) = map (fun l => Some (o_cero (cantidad l))) ped.
Proof.
  unfold fill0. rewrite map_map. apply map_ext. intros l. now destruct (cantidad l).
Qed.

Lemma col_descuento (ped : list linea) :
  fill0 (map descuento ped) = map (fun l => Some (o_cero (descuento l))) ped.
Proof.
  unfold fill0. rewrite map_map. apply map_ext. intros l. now destruct (descuento l).
Qed.

Lemma col_aplicado (rc : list fila) (ped : list linea) :
  mul (map (venta_de rc) ped) (rsub1 (fill0 (map descuento ped)))
  = map (fun l => e_aplicado (enriquecer rc l)) ped.
Proof.
  rewrite col_descuento. unfold mul, rsub1. rewrite map_map, map2_map.
  apply map_ext. intros l. simpl. now destruct (venta_de rc l).
Qed.

Lemma col_ingreso (rc : list fila) (ped : list linea) :
  mul (fill0 (map cantidad ped)) (map (fun l => e_aplicado (enriquecer rc l)) ped)
  = map (fun l => e_ingreso (enriquecer rc l)) ped.
Proof.
  rewrite col_cantidad. unfold mul. rewrite map2_map.
  apply map_ext. intros l. simpl. now destruct (venta_de rc l).
Qed.

Lemma col_costo (rc : list fila) (ped : list linea) :
  mul (fill0 (map cantidad ped)) (map (compra_de rc) ped)
  = map (fun l => e_costo (enriquecer rc l)) ped.
Proof.
  rewrite col_cantidad. unfold mul. rewrite map2_map.
  apply map_ext. intros l. simpl. now destruct (compra_de rc l).
Qed.

Lemma col_utilidad (rc : list fila) (ped : list linea) :
  sub (map (fun l => e_ingreso (enriquecer rc l)) ped)
      (map (fun l => e_costo (enriquecer rc l)) ped)
  = map (fun l => e_utilidad (enriquecer rc l)) ped.
Proof.
  unfold sub. rewrite map2_map. apply map_ext. intros l. simpl.
  destruct (venta_de rc l), (compra_de rc l); reflexivity.
Qed.

Lemma col_margen (rc : list fila) (ped : list linea) :
  div (map (fun l => e_utilidad (enriquecer rc l)) ped)
      (replace_zero_na (map (fun l => e_ingreso (enriquecer rc l)) ped))
  = map (fun l => e_margen (enriquecer rc l)) ped.
Proof.
  unfold div, replace_zero_na. rewrite map_map, map2_map.
  apply map_ext. intros l. simpl.
  destruct (venta_de rc l) as [v|], (compra_de rc l) as [c|]; simpl; try reflexivity.
  destruct (Qeq_bool _ 0) eqn:E; [reflexivity | now rewrite E].
Qed.

Lemma col_missing (rc : list fila) (ped : list linea) :
  unique_series
    (select_series (map2 orb (map is_none (map (venta_de rc) ped))
                             (map is_none (map (compra_de rc) ped)))
                   (Text (map producto_pedido ped)))
  = Text (faltantes rc ped).
Proof.
  unfold faltantes. cbn [select_series unique_series].
  rewrite !map_map, map2_map.
  change (fun x : linea => is_none (venta_de rc x) || is_none (compra_de rc x))
    with (sin_precio rc).
  now rewrite (select_filter (sin_precio rc) producto_pedido ped).
Qed.

(** The column-wise program computes, line by line, what the row-wise
    description says. *)
Lemma columnas_enriquecer (rc : list fila) (ped : list linea) :
  salida_columnas (Text (map producto_pedido ped)) (map cantidad ped)
                  (map descuento ped) (map (compra_de rc) ped) (map (venta_de rc) ped)
  = {| missing := Text (faltantes rc ped);
       detalle := tabla (map (enriquecer rc) ped);
       resumen := resumir (map (enriquecer rc) ped) |}.
Proof.
  unfold salida_columnas. cbv zeta.
  rewrite col_missing, col_aplicado, col_ingreso, col_costo, col_utilidad, col_margen.
  rewrite col_cantidad, col_descuento.
  unfold tabla, resumir. rewrite !map_map. reflexivity.
Qed.

(** [main] on a catalogue that resolves. *)
Lemma main_enriquecer (cat : list fila) (ped : list linea) (policy : string) (rc : list fila) :
  CalcPedido.deduplicate_catalog cat policy = OK rc ->
  Downloads.main cat ped policy
  = OK {| missing := Text (faltantes rc ped);
          detalle := tabla (map (enriquecer rc) ped);
          resumen := resumir (map (enriquecer rc) ped) |}.
Proof.
  intros E. rewrite (main_columns cat ped policy rc E). f_equal.
  apply columnas_enriquecer.
Qed.

(** [main] fails only where the resolver does. *)
Lemma main_raises (cat : list fila) (ped : list linea) (policy : string) (e : exn) :
  CalcPedido.deduplicate_catalog cat policy = Raise e ->
  Downloads.main cat ped policy = Raise e.
Proof.
  intros E. unfold Downloads.main. rewrite dedup_same, E. reflexivity.
Qed.

End EnrichFacts.

(** ** Cells, sums and the warning list *)

Section TableFacts.
Import Pandas.

Lemma celda_venta (es : list enriquecida) (i : nat) :
  celda (tabla es) "precio venta" i = option_map e_venta (nth_error es i).
Proof. unfold celda, tabla. cbn [getitem String.eqb Ascii.eqb Bool.eqb]. apply nth_error_map. Qed.

Lemma celda_compra (es : list enriquecida) (i : nat) :
  celda (tabla es) "precio compra" i = option_map e_compra (nth_error es i).
Proof. unfold celda, tabla. cbn [getitem String.eqb Ascii.eqb Bool.eqb]. apply nth_error_map. Qed.

Lemma celda_aplicado (es : list enriquecida) (i : nat) :
  celda (tabla es) "precio_venta_aplicado" i = option_map e_aplicado (nth_error es i).
Proof. unfold celda, tabla. cbn [getitem String.eqb Ascii.eqb Bool.eqb]. apply nth_error_map. Qed.

Lemma celda_ingreso (es : list enriquecida) (i : nat) :
  celda (tabla es) "ingreso_linea" i = option_map e_ingreso (nth_error es i).
Proof. unfold celda, tabla. cbn [getitem String.eqb Ascii.eqb Bool.eqb]. apply nth_error_map. Qed.

Lemma celda_costo (es : list enriquecida) (i : nat) :
  celda (tabla es) "costo_linea" i = option_map e_costo (nth_error es i).
Proof. unfold celda, tabla. cbn [getitem String.eqb Ascii.eqb Bool.eqb]. apply nth_error_map. Qed.

Lemma celda_utilidad (es : list enriquecida) (i : nat) :
  celda (tabla es) "utilidad_linea" i = option_map e_utilidad (nth_error es i).
Proof. unfold celda, tabla. cbn [getitem String.eqb Ascii.eqb Bool.eqb]. apply nth_error_map. Qed.

Lemma celda_margen (es : list enriquecida) (i : nat) :
  celda (tabla es) "margen_linea" i = option_map e_margen (nth_error es i).
Proof. unfold celda, tabla. cbn [getitem String.eqb Ascii.eqb Bool.eqb]. apply nth_error_map. Qed.

Lemma nth_enriquecer (rc : list fila) (ped : list linea) (i : nat) (l : linea) :
  nth_error ped i = Some l ->
  nth_error (map (enriquecer rc) ped) i = Some (enriquecer rc l).
Proof. intros H. now rewrite nth_error_map, H. Qed.

Lemma nth_middle_error {A : Type} (p1 p2 : list A) (x : A) :
  nth_error (p1 ++ x :: p2) (List.length p1) = Some x.
Proof. induction p1 as [|a t IH]; simpl; [reflexivity | exact IH]. Qed.

Lemma dropna_app {A : Type} (l m : list (option A)) :
  dropna (l ++ m) = dropna l ++ dropna m.
Proof.
  induction l as [|[x|] t IH]; simpl; [reflexivity | now rewrite IH | exact IH].
Qed.

Lemma qsum_app (l m : list Q) : (qsum (l ++ m) == qsum l + qsum m)%Q.
Proof.
  induction l as [|x t IH]; simpl; [ring | rewrite IH; ring].
Qed.

(** A null adds nothing to a total, a number adds itself. *)
Lemma sum_skipna_middle (l m : list (option Q)) (x : option Q) :
  (sum_skipna (l ++ x :: m) == sum_skipna (l ++ m) + o_cero x)%Q.
Proof.
  unfold sum_skipna. rewrite !dropna_app, !qsum_app.
  destruct x as [v|]; simpl; ring.
Qed.

Lemma text_eqb_eq (a b : option string) : text_eqb a b = true <-> a = b.
Proof.
  destruct a as [x|], b as [y|]; simpl; split; try discriminate; try reflexivity.
  - intros H. apply String.eqb_eq in H. now subst.
  - intros H. injection H as ->. apply String.eqb_refl.
Qed.

Lemma unique_text_In (l : list (option string)) (x : option string) :
  In x (unique text_eqb l) <-> In x l.
Proof.
  split; [apply unique_In|].
  induction l as [|a t IH]; simpl; [tauto|].
  intros [H|H]; [now left|].
  destruct (text_eqb a x) eqn:E; [left; now apply text_eqb_eq|].
  right. apply filter_In. split; [now apply IH | now rewrite E].
Qed.

Lemma unique_text_nodup (l : list (option string)) : NoDup (unique text_eqb l).
Proof.
  induction l as [|a t IH]; simpl; constructor.
  - intros H. apply filter_In in H. destruct H as [_ H].
    rewrite (proj2 (text_eqb_eq a a) eq_refl) in H. discriminate.
  - now apply NoDup_filter.
Qed.

Lemma faltantes_spec (rc : list fila) (ped : list linea) (name : option string) :
  In name (faltantes rc ped) <->
  exists l, In l ped /\ producto_pedido l = name
            /\ (venta_de rc l = None \/ compra_de rc l = None).
Proof.
  unfold faltantes. rewrite unique_text_In, in_map_iff. split.
  - intros [l [Hn Hl]]. apply filter_In in Hl. destruct Hl as [Hin Hs].
    exists l. repeat split; auto. unfold sin_precio in Hs.
    apply orb_true_iff in Hs.
    destruct Hs as [Hs|Hs]; [left | right];
      match type of Hs with is_none ?x = true => now destruct x end.
  - intros [l [Hin [Hn Hs]]]. exists l. split; [exact Hn|].
    apply filter_In. split; [exact Hin|]. unfold sin_precio.
    destruct Hs as [-> | ->]; [reflexivity | apply orb_true_r].
Qed.

Lemma sin_entrada (rc : list fila) (l : linea) :
  buscar rc (clave_linea l) = None ->
  venta_de rc l = None /\ compra_de rc l = None.
Proof. unfold venta_de, compra_de. now intros ->. Qed.

End TableFacts.

(** ** Properties of the enrichment *)

Section EnrichClaims.
  Import Pandas.

(** C5, as the code has it (in [main] of [src/downloads/calc_pedido.py],
    whose statements [calcular] repeats).  Once the catalogue is resolved the
    run does not abort.  A line whose key has no entry in the resolved
    catalogue gets null prices, so its applied sale price, revenue, cost,
    profit and margin are null, and its product name as written in the order
    is in the warning list.  The warning list holds, each once, the product
    names of the lines whose joined sale price or purchase price is null:
    the products without an entry, and also those whose entry has a null
    price. *)
Theorem unmatched_lines_are_reported
        (cat : list fila) (ped : list linea) (policy : string) (rc : list fila) :
  CalcPedido.deduplicate_catalog cat policy = OK rc ->
  exists out,
    Downloads.main cat ped policy = OK out
    /\ (forall i l,
          nth_error ped i = Some l -> buscar rc (clave_linea l) = None ->
          celda (detalle out) "precio venta" i = Some None
          /\ celda (detalle out) "precio compra" i = Some None
          /\ celda (detalle out) "precio_venta_aplicado" i = Some None
          /\ celda (detalle out) "ingreso_linea" i = Some None
          /\ celda (detalle out) "costo_linea" i = Some None
          /\ celda (detalle out) "utilidad_linea" i = Some None
          /\ celda (detalle out) "margen_linea" i = Some None
          /\ In (producto_pedido l) (faltantes rc ped))
    /\ missing out = Text (faltantes rc ped)
    /\ NoDup (faltantes rc ped)
    /\ (forall name,
          In name (faltantes rc ped) <->
          exists l, In l ped /\ producto_pedido l = name
                    /\ (venta_de rc l = None \/ compra_de rc l = None)).
Proof.
  intros E. eexists. split; [exact (main_enriquecer cat ped policy rc E)|].
  cbn [detalle missing]. split; [|split; [reflexivity|split]].
  - intros i l Hi Hb. destruct (sin_entrada rc l Hb) as [Hv Hc].
    rewrite celda_venta, celda_compra, celda_aplicado, celda_ingreso,
      celda_costo, celda_utilidad, celda_margen.
    rewrite (nth_enriquecer rc ped i l Hi). unfold enriquecer.
    cbn [option_map e_venta e_compra e_aplicado e_ingreso e_costo e_utilidad e_margen].
    rewrite Hv, Hc. repeat split; try reflexivity.
    apply faltantes_spec. exists l. repeat split; auto.
    eapply nth_error_In; eassumption.
  - apply unique_text_nodup.
  - apply faltantes_spec.
Qed.

Lemma unmatched_lines_are_reported_witness :
  CalcPedido.deduplicate_catalog [barata] "first" = OK [barata]
  /\ exists out,
      Downloads.main [barata] [pide_espacios; pide_z] "first" = OK out
      /\ (forall i l,
            nth_error [pide_espacios; pide_z] i = Some l ->
            buscar [barata] (clave_linea l) = None ->
            celda (detalle out) "precio venta" i = Some None
            /\ celda (detalle out) "precio compra" i = Some None
            /\ celda (detalle out) "precio_venta_aplicado" i = Some None
            /\ celda (detalle out) "ingreso_linea" i = Some None
            /\ celda (detalle out) "costo_linea" i = Some None
            /\ celda (detalle out) "utilidad_linea" i = Some None
            /\ celda (detalle out) "margen_linea" i = Some None
            /\ In (producto_pedido l) (faltantes [barata] [pide_espacios; pide_z]))
      /\ missing out = Text (faltantes [barata] [pide_espacios; pide_z])
      /\ NoDup (faltantes [barata] [pide_espacios; pide_z])
      /\ (forall name,
            In name (faltantes [barata] [pide_espacios; pide_z]) <->
            exists l, In l [pide_espacios; pide_z] /\ producto_pedido l = name
                      /\ (venta_de [barata] l = None \/ compra_de [barata] l = None)).
Proof.
  split.
  - reflexivity.
  - apply (unmatched_lines_are_reported [barata] [pide_espacios; pide_z] "first" [barata]).
    reflexivity.
Defined.

(** C5 as stated fails: the product X has an entry in the resolved
    catalogue, with a null sale price, and its line is in the warning list
    all the same. *)
Lemma found_product_is_reported :
  CalcPedido.deduplicate_catalog [sin_venta; otra] "first" = OK [sin_venta; otra]
  /\ buscar [sin_venta; otra] (clave_linea pide_espacios) = Some sin_venta
  /\ faltan (Downloads.main [sin_venta; otra] [pide_espacios] "first")
     = Some (Text [Some "  x  "]).
Proof. repeat split; reflexivity. Qed.

(** C6.  [calcular] of [src/calc_pedido.py] reaches none of the formulas: its
    merge renames the two [producto] columns to [producto_x] and
    [producto_y], and the look-up of [producto] for the warning raises
    [KeyError] on every input that the resolver accepts.  [main] of the
    sibling file, which passes [suffixes=("", "_cat")], computes for every
    line what the claim says, and on the scenario of the claim gives 9, 18,
    10, 8 and 4/9, with totals 18, 10, 8 and 4/9. *)
Theorem calcular_stops_before_the_formulas :
  (forall cat ped policy,
      CalcPedido.calcular cat ped policy =
      (rc <- CalcPedido.deduplicate_catalog cat policy ;; Raise (KeyError "producto")))
  /\ (forall cat ped policy,
         Downloads.main cat ped policy =
         (rc <- CalcPedido.deduplicate_catalog cat policy ;;
          OK {| missing := Text (faltantes rc ped);
                detalle := tabla (map (enriquecer rc) ped);
                resumen := resumir (map (enriquecer rc) ped) |}))
  /\ CalcPedido.calcular [barata] [pide_dos] "first" = Raise (KeyError "producto")
  /\ celda_de (Downloads.main [barata] [pide_dos] "first") "precio_venta_aplicado" 0
     = Some (Some 9%Q)
  /\ celda_de (Downloads.main [barata] [pide_dos] "first") "ingreso_linea" 0
     = Some (Some 18%Q)
  /\ celda_de (Downloads.main [barata] [pide_dos] "first") "costo_linea" 0
     = Some (Some 10%Q)
  /\ celda_de (Downloads.main [barata] [pide_dos] "first") "utilidad_linea" 0
     = Some (Some 8%Q)
  /\ celda_de (Downloads.main [barata] [pide_dos] "first") "margen_linea" 0
     = Some (Some (4 # 9)%Q)
  /\ total_de ingreso_total (Downloads.main [barata] [pide_dos] "first") = Some 18%Q
  /\ total_de costo_total (Downloads.main [barata] [pide_dos] "first") = Some 10%Q
  /\ total_de utilidad_total_balance_neto (Downloads.main [barata] [pide_dos] "first")
     = Some 8%Q
  /\ total_de margen_ponderado (Downloads.main [barata] [pide_dos] "first")
     = Some (4 # 9)%Q.
Proof.
  split; [exact calcular_raises|]. split.
  - intros cat ped policy.
    destruct (CalcPedido.deduplicate_catalog cat policy) as [rc|e] eqn:E.
    + exact (main_enriquecer cat ped policy rc E).
    + exact (main_raises cat ped policy e E).
  - repeat split; reflexivity.
Qed.

(** C7, as the code has it (in [main] of the sibling file).  Let a line stand
    anywhere in an order.  Its revenue, cost and profit enter the three
    totals as themselves, a null entering as zero.  So a line whose revenue is
    zero has a null margin and adds nothing to the total revenue; a line
    whose quantity is zero or absent adds nothing to any of the three totals.
    The weighted margin is zero when the total revenue is zero, and the total
    profit over the total revenue otherwise. *)
Theorem zero_lines_in_the_totals
        (cat : list fila) (policy : string) (rc : list fila)
        (p1 p2 : list linea) (l : linea) :
  CalcPedido.deduplicate_catalog cat policy = OK rc ->
  exists o1 o2,
    Downloads.main cat (p1 ++ l :: p2) policy = OK o1
    /\ Downloads.main cat (p1 ++ p2) policy = OK o2
    /\ (exists ing cos uti,
           celda (detalle o1) "ingreso_linea" (List.length p1) = Some ing
           /\ celda (detalle o1) "costo_linea" (List.length p1) = Some cos
           /\ celda (detalle o1) "utilidad_linea" (List.length p1) = Some uti
           /\ (ingreso_total (resumen o1) == ingreso_total (resumen o2) + o_cero ing)%Q
           /\ (costo_total (resumen o1) == costo_total (resumen o2) + o_cero cos)%Q
           /\ (utilidad_total_balance_neto (resumen o1)
               == utilidad_total_balance_neto (resumen o2) + o_cero uti)%Q
           /\ (forall v, ing = Some v -> (v == 0)%Q ->
                 celda (detalle o1) "margen_linea" (List.length p1) = Some None
                 /\ (ingreso_total (resumen o1) == ingreso_total (resumen o2))%Q)
           /\ ((o_cero (cantidad l) == 0)%Q ->
                 (ingreso_total (resumen o1) == ingreso_total (resumen o2))%Q
                 /\ (costo_total (resumen o1) == costo_total (resumen o2))%Q
                 /\ (utilidad_total_balance_neto (resumen o1)
                     == utilidad_total_balance_neto (resumen o2))%Q))
    /\ ((ingreso_total (resumen o1) == 0)%Q -> margen_ponderado (resumen o1) = 0%Q)
    /\ (~ (ingreso_total (resumen o1) == 0)%Q ->
          margen_ponderado (resumen o1)
          = (utilidad_total_balance_neto (resumen o1) / ingreso_total (resumen o1))%Q).
Proof.
  intros E. eexists. eexists.
  split; [exact (main_enriquecer cat (p1 ++ l :: p2) policy rc E)|].
  split; [exact (main_enriquecer cat (p1 ++ p2) policy rc E)|].
  cbn [detalle resumen]. split; [|split].
  - exists (e_ingreso (enriquecer rc l)), (e_costo (enriquecer rc l)),
      (e_utilidad (enriquecer rc l)).
    rewrite celda_ingreso, celda_costo, celda_utilidad, celda_margen.
    rewrite (nth_enriquecer rc (p1 ++ l :: p2) (List.length p1) l (nth_middle_error p1 p2 l)).
    cbn [option_map].
    unfold resumir.
    cbn [ingreso_total costo_total utilidad_total_balance_neto].
    rewrite !map_app. cbn [map].
    pose proof (sum_skipna_middle (map e_ingreso (map (enriquecer rc) p1))
                  (map e_ingreso (map (enriquecer rc) p2)) (e_ingreso (enriquecer rc l))) as Hi.
    pose proof (sum_skipna_middle (map e_costo (map (enriquecer rc) p1))
                  (map e_costo (map (enriquecer rc) p2)) (e_costo (enriquecer rc l))) as Hc.
    pose proof (sum_skipna_middle (map e_utilidad (map (enriquecer rc) p1))
                  (map e_utilidad (map (enriquecer rc) p2)) (e_utilidad (enriquecer rc l))) as Hu.
    split; [reflexivity|]. split; [reflexivity|]. split; [reflexivity|].
    split; [exact Hi|]. split; [exact Hc|]. split; [exact Hu|]. split.
    + intros v Hv Hz. split.
      * unfold enriquecer in *. cbn [e_ingreso e_margen] in *.
        destruct (option_map _ (option_map _ (venta_de rc l))) as [i|]; [|discriminate].
        injection Hv as ->.
        destruct (match option_map _ (compra_de rc l) with
                  | Some c => Some (v - c)%Q
                  | None => None
                  end); [|reflexivity].
        apply Qeq_bool_iff in Hz. now rewrite Hz.
      * rewrite Hi, Hv. simpl. rewrite Hz. ring.
    + intros Hq. rewrite Hi, Hc, Hu.
      unfold enriquecer. cbn [e_ingreso e_costo e_utilidad].
      destruct (venta_de rc l) as [v|], (compra_de rc l) as [c|]; simpl;
        repeat split; rewrite ?Hq; ring.
  - intros Hz. unfold resumir. cbn [margen_ponderado].
    apply Qeq_bool_iff in Hz. unfold resumir in Hz. cbn [ingreso_total] in Hz.
    now rewrite Hz.
  - intros Hz. unfold resumir. cbn [margen_ponderado utilidad_total_balance_neto ingreso_total].
    destruct (Qeq_bool _ 0) eqn:Eb; [|reflexivity].
    exfalso. apply Hz. unfold resumir. cbn [ingreso_total]. now apply Qeq_bool_iff.
Qed.

Lemma zero_lines_in_the_totals_witness :
  CalcPedido.deduplicate_catalog [barata] "first" = OK [barata]
  /\ exists o1 o2,
      Downloads.main [barata] ([pide_dos] ++ pide_nada :: []) "first" = OK o1
      /\ Downloads.main [barata] ([pide_dos] ++ []) "first" = OK o2
      /\ (exists ing cos uti,
             celda (detalle o1) "ingreso_linea" (List.length [pide_dos]) = Some ing
             /\ celda (detalle o1) "costo_linea" (List.length [pide_dos]) = Some cos
             /\ celda (detalle o1) "utilidad_linea" (List.length [pide_dos]) = Some uti
             /\ (ingreso_total (resumen o1) == ingreso_total (resumen o2) + o_cero ing)%Q
             /\ (costo_total (resumen o1) == costo_total (resumen o2) + o_cero cos)%Q
             /\ (utilidad_total_balance_neto (resumen o1)
                 == utilidad_total_balance_neto (resumen o2) + o_cero uti)%Q
             /\ (forall v, ing = Some v -> (v == 0)%Q ->
                   celda (detalle o1) "margen_linea" (List.length [pide_dos]) = Some None
                   /\ (ingreso_total (resumen o1) == ingreso_total (resumen o2))%Q)
             /\ ((o_cero (cantidad pide_nada) == 0)%Q ->
                   (ingreso_total (resumen o1) == ingreso_total (resumen o2))%Q
                   /\ (costo_total (resumen o1) == costo_total (resumen o2))%Q
                   /\ (utilidad_total_balance_neto (resumen o1)
                       == utilidad_total_balance_neto (resumen o2))%Q))
      /\ ((ingreso_total (resumen o1) == 0)%Q -> margen_ponderado (resumen o1) = 0%Q)
      /\ (~ (ingreso_total (resumen o1) == 0)%Q ->
            margen_ponderado (resumen o1)
            = (utilidad_total_balance_neto (resumen o1) / ingreso_total (resumen o1))%Q).
Proof.
  split.
  - reflexivity.
  - apply (zero_lines_in_the_totals [barata] "first" [barata] [pide_dos] [] pide_nada).
    reflexivity.
Defined.

(** C7 as stated fails: a line given away (discount 1) has a zero revenue and
    a null margin, and still adds its cost, 10, to the total cost and -10 to
    the total profit. *)
Lemma zero_revenue_line_has_a_cost :
  celda_de (Downloads.main [barata] [pide_regalo] "first") "ingreso_linea" 0
  = Some (Some 0%Q)
  /\ celda_de (Downloads.main [barata] [pide_regalo] "first") "margen_linea" 0 = Some None
  /\ total_de costo_total (Downloads.main [barata] [pide_regalo] "first") = Some 10%Q
  /\ total_de utilidad_total_balance_neto (Downloads.main [barata] [pide_regalo] "first")
     = Some (-10)%Q.
Proof. repeat split; reflexivity. Qed.

(** C10.  In [main] of the sibling file the warning list is read off the
    merged frame: a line is in it exactly when its joined sale price or
    purchase price is null, so a product that has an entry with a null price
    is reported, and so is a line without a product name.  [calcular] of
    [src/calc_pedido.py] writes the same test followed by [dropna], and
    raises [KeyError] at its look-up of [producto] before any list exists. *)
Theorem warning_follows_the_null_prices
        (cat : list fila) (ped : list linea) (policy : string) (rc : list fila) :
  CalcPedido.deduplicate_catalog cat policy = OK rc ->
  faltan (Downloads.main cat ped policy) = Some (Text (faltantes rc ped))
  /\ (forall l, In l ped ->
        venta_de rc l = None \/ compra_de rc l = None ->
        In (producto_pedido l) (faltantes rc ped))
  /\ (forall name, In name (faltantes rc ped) ->
        exists l, In l ped /\ producto_pedido l = name
                  /\ (venta_de rc l = None \/ compra_de rc l = None))
  /\ (forall l r, In l ped -> buscar rc (clave_linea l) = Some r ->
        precio_venta r = None \/ precio_compra r = None ->
        In (producto_pedido l) (faltantes rc ped))
  /\ CalcPedido.calcular cat ped policy = Raise (KeyError "producto").
Proof.
  intros E. split; [|split; [|split; [|split]]].
  - now rewrite (main_enriquecer cat ped policy rc E).
  - intros l Hl Hn. apply faltantes_spec. now exists l.
  - intros name Hn. now apply faltantes_spec.
  - intros l r Hl Hb Hn. apply faltantes_spec. exists l.
    unfold venta_de, compra_de. rewrite Hb. tauto.
  - now rewrite calcular_raises, E.
Qed.

Lemma warning_follows_the_null_prices_witness :
  CalcPedido.deduplicate_catalog [sin_venta; otra] "first" = OK [sin_venta; otra]
  /\ faltan (Downloads.main [sin_venta; otra] [pide_sin_nombre; pide_espacios] "first")
     = Some (Text (faltantes [sin_venta; otra] [pide_sin_nombre; pide_espacios]))
  /\ (forall l, In l [pide_sin_nombre; pide_espacios] ->
        venta_de [sin_venta; otra] l = None \/ compra_de [sin_venta; otra] l = None ->
        In (producto_pedido l) (faltantes [sin_venta; otra] [pide_sin_nombre; pide_espacios]))
  /\ (forall name,
        In name (faltantes [sin_venta; otra] [pide_sin_nombre; pide_espacios]) ->
        exists l, In l [pide_sin_nombre; pide_espacios] /\ producto_pedido l = name
                  /\ (venta_de [sin_venta; otra] l = None
                      \/ compra_de [sin_venta; otra] l = None))
  /\ (forall l r, In l [pide_sin_nombre; pide_espacios] ->
        buscar [sin_venta; otra] (clave_linea l) = Some r ->
        precio_venta r = None \/ precio_compra r = None ->
        In (producto_pedido l) (faltantes [sin_venta; otra] [pide_sin_nombre; pide_espacios]))
  /\ CalcPedido.calcular [sin_venta; otra] [pide_sin_nombre; pide_espacios] "first"
     = Raise (KeyError "producto").
Proof.
  split.
  - reflexivity.
  - apply (warning_follows_the_null_prices [sin_venta; otra]
             [pide_sin_nombre; pide_espacios] "first" [sin_venta; otra]).
    reflexivity.
Defined.

(** The failing input of C10, run through both programs. *)
Example warning_example :
  CalcPedido.calcular [sin_venta; otra] [pide_sin_nombre; pide_espacios] "first"
  = Raise (KeyError "producto")
  /\ faltan (Downloads.main [sin_venta; otra] [pide_sin_nombre; pide_espacios] "first")
     = Some (Text [None; Some "  x  "]).
Proof. split; reflexivity. Qed.

End EnrichClaims.

(** ** Normalised names *)

Section NormFacts.

Lemma upper_char_space (c : ascii) : Text.is_space (Text.upper_char c) = Text.is_space c.
Proof. destruct c as [[|] [|] [|] [|] [|] [|] [|] [|]]; reflexivity. Qed.

Lemma upper_char_idem (c : ascii) : Text.upper_char (Text.upper_char c) = Text.upper_char c.
Proof. destruct c as [[|] [|] [|] [|] [|] [|] [|] [|]]; reflexivity. Qed.

Lemma upper_char_is_space (c : ascii) :
  Ascii.eqb (Text.upper_char c) " " = Ascii.eqb c " ".
Proof. destruct c as [[|] [|] [|] [|] [|] [|] [|] [|]]; reflexivity. Qed.

Lemma upper_idem (s : string) : Text.upper (Text.upper s) = Text.upper s.
Proof.
  induction s as [|c t IH]; simpl; [reflexivity|].
  now rewrite upper_char_idem, IH.
Qed.

Lemma lstrip_upper (s : string) : Text.lstrip (Text.upper s) = Text.upper (Text.lstrip s).
Proof.
  induction s as [|c t IH]; simpl; [reflexivity|].
  rewrite upper_char_space. destruct (Text.is_space c); [exact IH | reflexivity].
Qed.

Lemma rstrip_upper (s : string) : Text.rstrip (Text.upper s) = Text.upper (Text.rstrip s).
Proof.
  induction s as [|c t IH]; simpl; [reflexivity|].
  rewrite IH, upper_char_space.
  destruct (Text.rstrip t); simpl; [destruct (Text.is_space c)|]; reflexivity.
Qed.

Lemma sub_spaces_upper (b : bool) (s : string) :
  Text.sub_spaces b (Text.upper s) = Text.upper (Text.sub_spaces b s).
Proof.
  revert b. induction s as [|c t IH]; intros b; simpl; [reflexivity|].
  rewrite upper_char_space.
  destruct (Text.is_space c); [destruct b|]; simpl; now rewrite IH.
Qed.

(** [norm_text] may put its letters in upper case first. *)
Lemma norm_text_upper (s : string) :
  CalcPedido.norm_text (Some s) = Text.sub_spaces false (Text.strip (Text.upper s)).
Proof.
  unfold CalcPedido.norm_text, Text.strip.
  now rewrite lstrip_upper, rstrip_upper, sub_spaces_upper.
Qed.

Lemma lstrip_fixed (s : string) : sin_blanco_inicial s = true -> Text.lstrip s = s.
Proof.
  destruct s as [|c t]; simpl; [reflexivity|].
  now destruct (Text.is_space c).
Qed.

Lemma rstrip_fixed (s : string) : espacios_simples s = true -> Text.rstrip s = s.
Proof.
  induction s as [|c t IH]; simpl; [reflexivity|].
  intros H. apply andb_true_iff in H. destruct H as [Hc Ht].
  rewrite (IH Ht). destruct t as [|c' t']; [|reflexivity].
  destruct (Text.is_space c); [|reflexivity].
  rewrite andb_false_r in Hc. discriminate.
Qed.

Lemma sub_spaces_fixed (b : bool) (s : string) :
  espacios_simples s = true -> (b = true -> sin_blanco_inicial s = true) ->
  Text.sub_spaces b s = s.
Proof.
  revert b. induction s as [|c t IH]; intros b H Hb; simpl; [reflexivity|].
  simpl in H. apply andb_true_iff in H. destruct H as [Hc Ht].
  destruct (Text.is_space c) eqn:Ec.
  - apply andb_true_iff in Hc. destruct Hc as [Hsp Hnext].
    apply Ascii.eqb_eq in Hsp. subst c.
    destruct b.
    + specialize (Hb eq_refl). simpl in Hb. discriminate.
    + f_equal. apply IH; [exact Ht|]. intros _.
      destruct t as [|c' t']; [discriminate | exact Hnext].
  - f_equal. apply IH; [exact Ht | discriminate].
Qed.

Lemma upper_fixed (s : string) : mayusculas s = true -> Text.upper s = s.
Proof.
  induction s as [|c t IH]; simpl; [reflexivity|].
  intros H. apply andb_true_iff in H. destruct H as [Hc Ht].
  apply Ascii.eqb_eq in Hc. now rewrite Hc, (IH Ht).
Qed.

(** A canonical key is its own key. *)
Lemma norm_text_fixed (s : string) : limpio s = true -> CalcPedido.norm_text (Some s) = s.
Proof.
  unfold limpio. rewrite !andb_true_iff. intros [[Hi He] Hm].
  unfold CalcPedido.norm_text, Text.strip.
  rewrite (lstrip_fixed s Hi), (rstrip_fixed s He).
  rewrite (sub_spaces_fixed false s He); [|discriminate].
  now apply upper_fixed.
Qed.

Lemma lstrip_inicial (s : string) : sin_blanco_inicial (Text.lstrip s) = true.
Proof.
  induction s as [|c t IH]; simpl; [reflexivity|].
  destruct (Text.is_space c) eqn:E; [exact IH|]. simpl. now rewrite E.
Qed.

Lemma rstrip_inicial (s : string) :
  sin_blanco_inicial s = true -> sin_blanco_inicial (Text.rstrip s) = true.
Proof.
  destruct s as [|c t]; simpl; [reflexivity|]. intros H.
  destruct (Text.rstrip t); [|exact H].
  destruct (Text.is_space c) eqn:E; [discriminate|]. simpl. now rewrite E.
Qed.

Lemma rstrip_idem (s : string) : Text.rstrip (Text.rstrip s) = Text.rstrip s.
Proof.
  induction s as [|c t IH]; simpl; [reflexivity|].
  destruct (Text.rstrip t) as [|c' r] eqn:E.
  - destruct (Text.is_space c) eqn:Ec; simpl; [reflexivity | now rewrite Ec].
  - simpl. simpl in IH. rewrite IH. reflexivity.
Qed.

Lemma rstrip_tail (c : ascii) (t : string) :
  Text.rstrip (String c t) = String c t ->
  Text.rstrip t = t /\ (Text.is_space c = true -> t <> EmptyString).
Proof.
  simpl. destruct (Text.rstrip t) as [|c' r] eqn:E.
  - destruct (Text.is_space c); [discriminate|].
    intros H. injection H as <-. split; [reflexivity | discriminate].
  - intros H. injection H as <-. split; [reflexivity | discriminate].
Qed.

(** After a run of white space the substitution resumes on a character that
    is not white, when the text does not end in white space. *)
Lemma sub_spaces_resume (t : string) :
  Text.rstrip t = t -> t <> EmptyString ->
  exists c r, Text.sub_spaces true t = String c r /\ Text.is_space c = false.
Proof.
  induction t as [|c t IH]; intros H Hne; [congruence|].
  destruct (rstrip_tail c t H) as [Ht Hc]. simpl.
  destruct (Text.is_space c) eqn:E.
  - apply IH; auto.
  - eauto.
Qed.

Lemma sub_spaces_simples (b : bool) (s : string) :
  Text.rstrip s = s -> espacios_simples (Text.sub_spaces b s) = true.
Proof.
  revert b. induction s as [|c t IH]; intros b H; [reflexivity|].
  destruct (rstrip_tail c t H) as [Ht Hc]. simpl.
  destruct (Text.is_space c) eqn:E.
  - destruct b; [now apply IH|].
    destruct (sub_spaces_resume t Ht (Hc eq_refl)) as [c' [r [Hr Hc']]].
    simpl. rewrite (IH true Ht), Hr, Hc'. reflexivity.
  - simpl. rewrite E. simpl. now apply IH.
Qed.

Lemma sub_spaces_inicial (s : string) :
  sin_blanco_inicial s = true -> sin_blanco_inicial (Text.sub_spaces false s) = true.
Proof.
  destruct s as [|c t]; simpl; [reflexivity|].
  destruct (Text.is_space c) eqn:E; [discriminate|]. simpl. now rewrite E.
Qed.

Lemma upper_simples (s : string) :
  espacios_simples (Text.upper s) = espacios_simples s.
Proof.
  induction s as [|c t IH]; simpl; [reflexivity|].
  rewrite IH, upper_char_space, upper_char_is_space.
  destruct t as [|c' t']; simpl; [reflexivity|]. now rewrite upper_char_space.
Qed.

Lemma upper_inicial (s : string) :
  sin_blanco_inicial (Text.upper s) = sin_blanco_inicial s.
Proof. destruct s as [|c t]; simpl; [reflexivity|]. now rewrite upper_char_space. Qed.

Lemma upper_mayusculas (s : string) : mayusculas (Text.upper s) = true.
Proof.
  induction s as [|c t IH]; simpl; [reflexivity|].
  rewrite upper_char_idem, IH, Ascii.eqb_refl. reflexivity.
Qed.

Lemma norm_text_limpio (x : option string) : limpio (CalcPedido.norm_text x) = true.
Proof.
  destruct x as [s|]; [|reflexivity].
  unfold CalcPedido.norm_text, limpio.
  rewrite upper_inicial, upper_simples, upper_mayusculas.
  rewrite sub_spaces_inicial, sub_spaces_simples; [reflexivity | |].
  - unfold Text.strip. apply rstrip_idem.
  - unfold Text.strip. apply rstrip_inicial, lstrip_inicial.
Qed.

End NormFacts.

(** ** White space around a name, and blank names *)

Section BlankFacts.

Lemma lstrip_blanco (s : string) : blanco s = true <-> Text.lstrip s = EmptyString.
Proof.
  induction s as [|c t IH]; simpl; [tauto|].
  destruct (Text.is_space c); simpl; [exact IH|]. split; discriminate.
Qed.

Lemma rstrip_blanco (s : string) : blanco s = true <-> Text.rstrip s = EmptyString.
Proof.
  induction s as [|c t IH]; simpl; [tauto|].
  destruct (Text.rstrip t) eqn:E.
  - destruct (Text.is_space c); simpl.
    + split; [reflexivity | intros _; now apply IH].
    + split; discriminate.
  - split; [|discriminate]. intros H. apply andb_true_iff in H.
    destruct H as [_ H]. apply IH in H. discriminate.
Qed.

Lemma lstrip_app (pre x : string) :
  blanco pre = true -> Text.lstrip (String.append pre x) = Text.lstrip x.
Proof.
  induction pre as [|c t IH]; simpl; [reflexivity|].
  intros H. apply andb_true_iff in H. destruct H as [Hc Ht].
  rewrite Hc. now apply IH.
Qed.

Lemma rstrip_app (x post : string) :
  blanco post = true -> Text.rstrip (String.append x post) = Text.rstrip x.
Proof.
  intros H. induction x as [|c t IH]; simpl.
  - now apply rstrip_blanco.
  - now rewrite IH.
Qed.

Lemma strip_app (s post : string) :
  blanco post = true -> Text.strip (String.append s post) = Text.strip s.
Proof.
  intros H. unfold Text.strip. induction s as [|c t IH]; simpl.
  - apply (proj1 (lstrip_blanco post)) in H. rewrite H. reflexivity.
  - destruct (Text.is_space c); [exact IH|].
    change (String c (String.append t post)) with (String.append (String c t) post).
    now apply rstrip_app.
Qed.

Lemma strip_pad (pre s post : string) :
  blanco pre = true -> blanco post = true ->
  Text.strip (String.append pre (String.append s post)) = Text.strip s.
Proof.
  intros Hpre Hpost. unfold Text.strip. rewrite (lstrip_app pre _ Hpre).
  exact (strip_app s post Hpost).
Qed.

Lemma upper_empty (s : string) : Text.upper s = EmptyString -> s = EmptyString.
Proof. destruct s; [reflexivity | discriminate]. Qed.

Lemma sub_spaces_empty (s : string) :
  Text.sub_spaces false s = EmptyString -> s = EmptyString.
Proof.
  destruct s as [|c t]; simpl; [reflexivity|].
  destruct (Text.is_space c); discriminate.
Qed.

Lemma strip_blanco (s : string) : blanco s = true <-> Text.strip s = EmptyString.
Proof.
  unfold Text.strip. split.
  - intros H. apply lstrip_blanco in H. now rewrite H.
  - intros H. apply rstrip_blanco in H.
    pose proof (lstrip_inicial s) as Hi.
    destruct (Text.lstrip s) as [|c r] eqn:E; [now apply lstrip_blanco|].
    simpl in H, Hi. destruct (Text.is_space c); discriminate.
Qed.

Lemma norm_text_blanco (s : string) :
  CalcPedido.norm_text (Some s) = EmptyString <-> blanco s = true.
Proof.
  rewrite strip_blanco. unfold CalcPedido.norm_text. split.
  - intros H. now apply sub_spaces_empty, upper_empty.
  - intros ->. reflexivity.
Qed.

End BlankFacts.

(** ** Properties of [norm_text] *)

Section SevenBitFacts.

Lemma upper_char_siete_bits (c : ascii) :
  siete_bits_char (Text.upper_char c) = siete_bits_char c.
Proof. destruct c as [[|] [|] [|] [|] [|] [|] [|] [|]]; reflexivity. Qed.

Lemma is_space_siete_bits (c : ascii) :
  Text.is_space c = true -> siete_bits_char c = true.
Proof. destruct c as [[|] [|] [|] [|] [|] [|] [|] [|]]; simpl; intros H; try reflexivity; discriminate. Qed.

Lemma blanco_siete_bits (s : string) : blanco s = true -> siete_bits s = true.
Proof.
  induction s as [|c t IH]; simpl; [reflexivity|].
  intros H. apply andb_true_iff in H. destruct H as [Hc Ht].
  now rewrite (is_space_siete_bits c Hc), (IH Ht).
Qed.

Lemma upper_siete_bits (s : string) : siete_bits (Text.upper s) = siete_bits s.
Proof.
  induction s as [|c t IH]; simpl; [reflexivity|].
  now rewrite upper_char_siete_bits, IH.
Qed.

Lemma lstrip_siete_bits (s : string) :
  siete_bits s = true -> siete_bits (Text.lstrip s) = true.
Proof.
  induction s as [|c t IH]; simpl; [reflexivity|].
  intros H. destruct (Text.is_space c); [|exact H].
  apply andb_true_iff in H. now apply IH.
Qed.

Lemma rstrip_siete_bits (s : string) :
  siete_bits s = true -> siete_bits (Text.rstrip s) = true.
Proof.
  induction s as [|c t IH]; simpl; [reflexivity|].
  intros H. apply andb_true_iff in H. destruct H as [Hc Ht].
  specialize (IH Ht). destruct (Text.rstrip t) as [|c' r].
  - destruct (Text.is_space c); simpl; [reflexivity | now rewrite Hc].
  - change (siete_bits_char c && siete_bits (String c' r) = true).
    now rewrite Hc, IH.
Qed.

Lemma sub_spaces_siete_bits (b : bool) (s : string) :
  siete_bits s = true -> siete_bits (Text.sub_spaces b s) = true.
Proof.
  revert b. induction s as [|c t IH]; intros b; simpl; [reflexivity|].
  intros H. apply andb_true_iff in H. destruct H as [Hc Ht].
  destruct (Text.is_space c).
  - destruct b; [now apply IH|].
    change (siete_bits_char " " && siete_bits (Text.sub_spaces true t) = true).
    now rewrite (IH true Ht).
  - change (siete_bits_char c && siete_bits (Text.sub_spaces false t) = true).
    now rewrite Hc, (IH false Ht).
Qed.

(** The key of a name of 7-bit characters is made of 7-bit characters. *)
Lemma norm_text_siete_bits (x : option string) :
  nombre_siete_bits x = true -> siete_bits (CalcPedido.norm_text x) = true.
Proof.
  destruct x as [s|]; simpl; [|reflexivity].
  intros H. rewrite upper_siete_bits.
  apply sub_spaces_siete_bits. unfold Text.strip.
  now apply rstrip_siete_bits, lstrip_siete_bits.
Qed.

End SevenBitFacts.

(** ** Product keys: the properties of [norm_text]

    The names are taken among the texts of 7-bit characters, on which
    [str.strip], [\s] and [str.upper] are the functions of [Text]. *)

Section NormClaims.

(** X1. On names of 7-bit characters [norm_text] is idempotent: the key of
    such a name is again made of 7-bit characters, and the key of a key is
    that key. *)
Theorem norm_text_idempotent (x : option string) :
  nombre_siete_bits x = true ->
  siete_bits (CalcPedido.norm_text x) = true
  /\ CalcPedido.norm_text (Some (CalcPedido.norm_text x)) = CalcPedido.norm_text x.
Proof.
  intros H. split; [now apply norm_text_siete_bits|].
  apply norm_text_fixed, norm_text_limpio.
Qed.

Lemma norm_text_idempotent_witness :
  siete_bits (CalcPedido.norm_text (Some "  agua   de rosas ")) = true
  /\ CalcPedido.norm_text (Some (CalcPedido.norm_text (Some "  agua   de rosas ")))
     = CalcPedido.norm_text (Some "  agua   de rosas ").
Proof.
  apply (norm_text_idempotent (Some "  agua   de rosas ")).
  reflexivity.
Defined.

(** X2. Among the texts of 7-bit characters, the keys of the names are
    exactly the canonical strings: a key has no white space at either end, no
    white character other than single spaces between words and no lower-case
    letter, and every text of that shape is the key of a name, itself. *)
Theorem norm_text_image (s : string) :
  siete_bits s = true ->
  (limpio s = true <->
   exists x, nombre_siete_bits x = true /\ CalcPedido.norm_text x = s).
Proof.
  intros Hs. split.
  - intros H. exists (Some s). split; [exact Hs | now apply norm_text_fixed].
  - intros [x [_ <-]]. apply norm_text_limpio.
Qed.

Lemma norm_text_image_witness :
  limpio "AGUA DE ROSAS" = true <->
  exists x, nombre_siete_bits x = true /\ CalcPedido.norm_text x = "AGUA DE ROSAS".
Proof.
  apply (norm_text_image "AGUA DE ROSAS").
  reflexivity.
Defined.

(** X3. On names of 7-bit characters the key does not see letter case nor
    white space around the name: two names with the same upper-case form
    have the same key, and white space before and after a name leaves its key
    unchanged. *)
Theorem norm_text_ignores_case_and_padding :
  (forall a b, siete_bits a = true -> siete_bits b = true ->
               Text.upper a = Text.upper b ->
               CalcPedido.norm_text (Some a) = CalcPedido.norm_text (Some b))
  /\ (forall pre s post, siete_bits s = true ->
        blanco pre = true -> blanco post = true ->
        CalcPedido.norm_text (Some (String.append pre (String.append s post)))
        = CalcPedido.norm_text (Some s)).
Proof.
  split.
  - intros a b _ _ H. now rewrite !norm_text_upper, H.
  - intros pre s post _ Hpre Hpost. unfold CalcPedido.norm_text.
    now rewrite (strip_pad pre s post Hpre Hpost).
Qed.

Lemma norm_text_ignores_case_and_padding_witness :
  CalcPedido.norm_text (Some "Agua de Rosas") = CalcPedido.norm_text (Some "agua DE rosas")
  /\ CalcPedido.norm_text (Some (String.append "  " (String.append "Agua de Rosas" " ")))
     = CalcPedido.norm_text (Some "Agua de Rosas").
Proof.
  split.
  - apply (proj1 norm_text_ignores_case_and_padding "Agua de Rosas" "agua DE rosas");
      reflexivity.
  - apply (proj2 norm_text_ignores_case_and_padding "  " "Agua de Rosas" " ");
      reflexivity.
Defined.

(** X4. For a name of 7-bit characters, the empty key is the key of a
    missing name and of the names made of white space only, and of no other
    name. *)
Theorem norm_text_empty_key (x : option string) :
  nombre_siete_bits x = true ->
  (CalcPedido.norm_text x = EmptyString <->
   x = None \/ exists s, x = Some s /\ blanco s = true).
Proof.
  intros _. destruct x as [s|].
  - rewrite norm_text_blanco. split.
    + intros H. right. now exists s.
    + intros [H|[s' [E H]]]; [discriminate|]. now injection E as ->.
  - split; [now left | reflexivity].
Qed.

Lemma norm_text_empty_key_witness :
  CalcPedido.norm_text (Some "   ") = EmptyString <->
  Some "   " = None \/ exists s, Some "   " = Some s /\ blanco s = true.
Proof.
  apply (norm_text_empty_key (Some "   ")).
  reflexivity.
Defined.

End NormClaims.

(** ** More on the resolved catalogue *)

Section ResolverFacts.
Import Pandas.

Lemma count_key_nodup (k : string) (l : list string) : NoDup l -> count_key k l <= 1.
Proof.
  unfold count_key. induction l as [|a t IH]; simpl; intros H; [lia|].
  inversion H as [|? ? Hna Ht]; subst.
  destruct (String.eqb_spec k a) as [->|Hne]; simpl; [|auto].
  assert (Hz : count_key a t = 0).
  { pose proof (count_key_in a t) as Hc. unfold count_key in *.
    destruct (List.length (filter (String.eqb a) t)) eqn:E; [reflexivity|].
    exfalso. apply Hna, Hc. lia. }
  unfold count_key in Hz. lia.
Qed.

Lemma grupo_nodup_length (k : string) (cat : list fila) :
  NoDup (map clave cat) -> List.length (grupo k cat) <= 1.
Proof.
  intros H. rewrite <- count_key_grupo, base_keys. now apply count_key_nodup.
Qed.

(** A catalogue without a repeated key takes the early return. *)
Lemma dedup_nodup (cat : list fila) (policy : string) :
  NoDup (map clave cat) -> CalcPedido.deduplicate_catalog cat policy = OK cat.
Proof.
  intros H. rewrite dedup_unfold.
  rewrite (filter_none (multiple cat) (base cat)).
  - simpl. f_equal. unfold unicos. apply filter_all. intros r _.
    apply negb_true_iff, Nat.leb_gt.
    pose proof (grupo_nodup_length (clave r) cat H). lia.
  - intros r _. unfold multiple. apply Nat.leb_gt.
    pose proof (grupo_nodup_length (_key r) cat H). lia.
Qed.

Lemma dedup_claves_same (cat : list fila) (policy : string) (out : list fila) (k : string) :
  CalcPedido.deduplicate_catalog cat policy = OK out ->
  In k (map clave out) <-> In k (map clave cat).
Proof.
  intros H. rewrite (dedup_claves cat policy out H), in_app_iff, unicos_claves.
  rewrite filter_In, claves_dup_spec, negb_true_iff, Nat.leb_gt.
  rewrite <- base_keys, count_key_grupo.
  rewrite (count_key_in k (map _key (base cat))), count_key_grupo. lia.
Qed.

Lemma for_each_Raise_inv {A B : Type} (f : A -> result B) (l : list A) (e : exn) :
  for_each f l = Raise e -> exists x, In x l /\ f x = Raise e.
Proof.
  induction l as [|x t IH]; simpl; [discriminate|].
  destruct (f x) as [y|e'] eqn:E; simpl.
  - destruct (for_each f t) as [ys|e''] eqn:Et; simpl; [discriminate|].
    intros H. injection H as ->. destruct (IH eq_refl) as [x' [Hin Hx']].
    exists x'. split; [now right | exact Hx'].
  - intros H. injection H as ->. exists x. split; [now left | exact E].
Qed.

(** When the function raises, one group raised. *)
Lemma dedup_Raise_inv (cat : list fila) (policy : string) (e : exn) :
  CalcPedido.deduplicate_catalog cat policy = Raise e ->
  exists k, In k (claves_dup cat)
            /\ CalcPedido.resolve_group policy (grupo_base k cat) = Raise e.
Proof.
  rewrite dedup_unfold.
  destruct (filter (multiple cat) (base cat)) as [|r t] eqn:E; simpl; [discriminate|].
  destruct (for_each _ (claves_dup cat)) as [agg|e'] eqn:Ef; simpl.
  - destruct agg as [|a agg]; simpl; [|discriminate].
    exfalso. apply for_each_OK in Ef. inversion Ef as [Hk|]; subst.
    apply (dups_nonempty cat); [rewrite E; discriminate | now symmetry].
  - intros H. injection H as ->. exact (for_each_Raise_inv _ _ _ Ef).
Qed.

Lemma sin_diferencias_mismos (k : string) (cat : list fila) (r0 : fila) (rest : list fila) :
  grupo k cat = r0 :: rest ->
  sin_diferencias (grupo_base k cat) = mismos_precios (r0 :: rest).
Proof.
  intros Hg. destruct (mismos_precios (r0 :: rest)) eqn:E.
  - destruct (grupo_base_cons k cat r0 rest Hg) as [rb [t [Eb [Hr Ht]]]].
    rewrite Eb. apply sin_diferencias_spec. simpl. rewrite Hr, Ht.
    now apply mismos_precios_spec.
  - now apply (conflicto_sin_diferencias k cat r0 rest).
Qed.

(** The rows that a group resolves to are rows of the group, unless the
    policy is avg. *)
Lemma resolve_rows (policy : string) (g : list base_row) (rs : list fila) :
  String.eqb policy "avg" = false ->
  CalcPedido.resolve_group policy g = OK rs ->
  incl rs (map row g).
Proof.
  intros Hp H. unfold CalcPedido.resolve_group in H.
  assert (Hiloc : forall rs', iloc0 g = OK rs' -> incl rs' (map row g)).
  { intros rs' E. destruct g as [|r t]; [discriminate|]. injection E as <-.
    intros x [<-|[]]. now left. }
  assert (Hloc : forall i, incl (loc i g) (map row g)).
  { intros i x Hx. unfold loc in Hx. apply in_map_iff in Hx.
    destruct Hx as [rb [<- Hrb]]. apply filter_In in Hrb. apply in_map. tauto. }
  destruct (_ && _); [now apply Hiloc|].
  destruct (String.eqb policy "first"); [now apply Hiloc|].
  destruct (String.eqb policy "max_venta").
  { destruct (idxmax _); simpl in H; [|discriminate]. injection H as <-. apply Hloc. }
  destruct (String.eqb policy "min_costo").
  { destruct (idxmin _); simpl in H; [|discriminate]. injection H as <-. apply Hloc. }
  rewrite Hp in H. discriminate.
Qed.

Lemma insert_key_head (k : string) (l : list string) (a : string) :
  String.leb a k = true -> HdRel (fun x y => String.leb x y = true) a l ->
  HdRel (fun x y => String.leb x y = true) a (insert_key k l).
Proof.
  intros Hak H. destruct l as [|h t]; simpl; [now constructor|].
  destruct (String.leb k h); constructor; [exact Hak|].
  now inversion H.
Qed.

Lemma insert_key_sorted (k : string) (l : list string) :
  ascendente l -> ascendente (insert_key k l).
Proof.
  unfold ascendente. induction l as [|h t IH]; simpl; intros H.
  - repeat constructor.
  - inversion H as [|? ? Ht Hh]; subst.
    destruct (String.leb k h) eqn:E.
    + constructor; [exact H | now constructor].
    + constructor; [now apply IH|].
      apply insert_key_head; [|exact Hh].
      destruct (String.leb_total h k) as [Hl|Hl]; [exact Hl | congruence].
Qed.

Lemma sort_keys_sorted (l : list string) : ascendente (sort_keys l).
Proof.
  induction l as [|h t IH]; simpl; [constructor|].
  now apply insert_key_sorted.
Qed.

End ResolverFacts.

(** ** Further properties of [deduplicate_catalog] *)

Section ResolverExtras.
Import Pandas.

(** X5. [deduplicate_catalog] returns the catalogue as it is, rows and order,
    exactly when no two rows share a normalised key; in that case the policy
    is not looked at, whatever its value. *)
Theorem catalog_without_duplicates_is_returned (cat : list fila) (policy : string) :
  CalcPedido.deduplicate_catalog cat policy = OK cat <-> NoDup (map clave cat).
Proof.
  split.
  - apply dedup_claves_nodup.
  - apply dedup_nodup.
Qed.

(** X6. Resolving a resolved catalogue changes nothing: when
    [deduplicate_catalog] returns [out], calling it on [out] returns [out]
    again, with any policy. *)
Theorem resolving_twice_changes_nothing
        (cat : list fila) (policy : string) (out : list fila) :
  CalcPedido.deduplicate_catalog cat policy = OK out ->
  forall policy', CalcPedido.deduplicate_catalog out policy' = OK out.
Proof.
  intros H policy'. apply dedup_nodup. exact (dedup_claves_nodup cat policy out H).
Qed.

Lemma resolving_twice_changes_nothing_witness :
  CalcPedido.deduplicate_catalog [barata; otra; cara] "max_venta" = OK [otra; cara]
  /\ forall policy', CalcPedido.deduplicate_catalog [otra; cara] policy' = OK [otra; cara].
Proof.
  split.
  - reflexivity.
  - apply (resolving_twice_changes_nothing [barata; otra; cara] "max_venta").
    reflexivity.
Defined.

(** X7. A resolved catalogue has the keys of the input, no more and no
    fewer, and as many rows as the input has distinct keys. *)
Theorem resolved_catalog_keeps_the_keys
        (cat : list fila) (policy : string) (out : list fila) :
  CalcPedido.deduplicate_catalog cat policy = OK out ->
  (forall k, In k (map clave out) <-> In k (map clave cat))
  /\ List.length out = List.length (unique String.eqb (map clave cat)).
Proof.
  intros H. split.
  - intros k. exact (dedup_claves_same cat policy out k H).
  - rewrite <- (length_map clave out). apply Permutation_length.
    apply NoDup_Permutation.
    + exact (dedup_claves_nodup cat policy out H).
    + apply unique_string_nodup.
    + intros k. rewrite unique_string_In. exact (dedup_claves_same cat policy out k H).
Qed.

Lemma resolved_catalog_keeps_the_keys_witness :
  CalcPedido.deduplicate_catalog [barata; otra; cara] "avg"
  = OK [otra; fila_de "X" (Some (12 # 2)%Q) (Some (25 # 2)%Q)]
  /\ (forall k, In k (map clave [otra; fila_de "X" (Some (12 # 2)%Q) (Some (25 # 2)%Q)])
                <-> In k (map clave [barata; otra; cara]))
  /\ List.length [otra; fila_de "X" (Some (12 # 2)%Q) (Some (25 # 2)%Q)]
     = List.length (unique String.eqb (map clave [barata; otra; cara])).
Proof.
  split.
  - reflexivity.
  - apply (resolved_catalog_keeps_the_keys [barata; otra; cara] "avg").
    reflexivity.
Defined.

(** X8. With the policy first, [deduplicate_catalog] always returns, and
    under every key the result has the first row that the catalogue has
    under that key, and nothing else. *)
Theorem first_policy_keeps_first_rows (cat : list fila) :
  exists out,
    CalcPedido.deduplicate_catalog cat "first" = OK out
    /\ forall k, filter (fun y => String.eqb (clave y) k) out = firstn 1 (grupo k cat).
Proof.
  destruct (dedup_total cat "first") as [out Hout].
  { intros k Hk. destruct (grupo_no_vacio cat k Hk) as [r0 [rest Hg]].
    destruct (grupo_base_cons k cat r0 rest Hg) as [rb [t [E _]]].
    rewrite resolve_first, E. simpl. eauto. }
  exists out. split; [exact Hout|]. intros k.
  destruct (grupo k cat) as [|r0 [|r1 rest]] eqn:Hg; simpl.
  - apply filter_none. intros y Hy. apply String.eqb_neq. intros Hk.
    assert (Hin : In k (map clave cat)).
    { apply (dedup_claves_same cat "first" out k Hout). subst k. now apply in_map. }
    apply in_map_iff in Hin. destruct Hin as [r [Hr Hin]].
    assert (Hgr : In r (grupo k cat)).
    { apply filter_In. split; [exact Hin | now apply String.eqb_eq]. }
    rewrite Hg in Hgr. contradiction.
  - assert (Hk : clave r0 = k).
    { assert (Hin : In r0 (grupo k cat)) by (rewrite Hg; now left).
      apply filter_In in Hin. now apply String.eqb_eq. }
    subst k. exact (dedup_unico cat "first" out r0 Hout Hg).
  - apply (dedup_grupo cat "first" out k r0 Hout); [rewrite Hg; simpl; lia|].
    destruct (grupo_base_cons k cat r0 (r1 :: rest) Hg) as [rb [t [E [Hr _]]]].
    rewrite resolve_first, E. simpl. now rewrite Hr.
Qed.

(** X9. Unless the policy is avg, every row of the resolved catalogue is a
    row of the input, unchanged: nothing is invented. *)
Theorem resolved_rows_come_from_the_catalog
        (cat : list fila) (policy : string) (out : list fila) :
  String.eqb policy "avg" = false ->
  CalcPedido.deduplicate_catalog cat policy = OK out ->
  forall r, In r out -> In r cat.
Proof.
  intros Hp H r Hr.
  destruct (dedup_OK_inv cat policy out H) as [agg [Hagg ->]].
  apply in_app_or in Hr. destruct Hr as [Hr|Hr].
  - unfold unicos in Hr. apply filter_In in Hr. tauto.
  - clear H. induction Hagg as [|k rs ks agg Hk _ IH]; [contradiction|].
    simpl in Hr. apply in_app_or in Hr. destruct Hr as [Hr|Hr]; [|now apply IH].
    apply (resolve_rows policy _ rs Hp Hk) in Hr.
    rewrite grupo_base_rows in Hr. exact (grupo_en_cat k cat r Hr).
Qed.

Lemma resolved_rows_come_from_the_catalog_witness :
  CalcPedido.deduplicate_catalog [barata; otra; cara] "min_costo" = OK [otra; barata]
  /\ forall r, In r [otra; barata] -> In r [barata; otra; cara].
Proof.
  split.
  - reflexivity.
  - apply (resolved_rows_come_from_the_catalog [barata; otra; cara] "min_costo").
    + reflexivity.
    + reflexivity.
Defined.

(** X10. The resolved catalogue is laid out in two parts: first the rows
    whose key occurs once, in catalogue order, then one row for every key
    that occurs several times, these by ascending key. *)
Theorem resolved_catalog_layout
        (cat : list fila) (policy : string) (out : list fila) :
  CalcPedido.deduplicate_catalog cat policy = OK out ->
  exists agg,
    out = filter (fun r => negb (2 <=? List.length (grupo (clave r) cat))%nat) cat ++ agg
    /\ ascendente (map clave agg)
    /\ NoDup (map clave agg)
    /\ (forall k, In k (map clave agg) <-> 2 <= List.length (grupo k cat)).
Proof.
  intros H. destruct (dedup_OK_inv cat policy out H) as [agg [Hagg ->]].
  exists (List.concat agg). split; [reflexivity|].
  rewrite (agg_claves policy cat (claves_dup cat) agg (claves_dup_grupo cat) Hagg).
  split; [apply sort_keys_sorted|]. split; [apply claves_dup_nodup|].
  intros k. apply claves_dup_spec.
Qed.

Lemma resolved_catalog_layout_witness :
  CalcPedido.deduplicate_catalog [cara; otra; gemela_a; barata] "first" = OK [otra; cara]
  /\ exists agg,
      [otra; cara]
      = filter (fun r => negb (2 <=? List.length
                                        (grupo (clave r) [cara; otra; gemela_a; barata]))%nat)
               [cara; otra; gemela_a; barata] ++ agg
      /\ ascendente (map clave agg)
      /\ NoDup (map clave agg)
      /\ (forall k, In k (map clave agg)
                    <-> 2 <= List.length (grupo k [cara; otra; gemela_a; barata])).
Proof.
  split.
  - reflexivity.
  - apply (resolved_catalog_layout [cara; otra; gemela_a; barata] "first").
    reflexivity.
Defined.

End ResolverExtras.

(** ** The column checks *)

Section ColumnFacts.
Import Columnas.

Lemma existsb_eqb_In (c : string) (l : list string) :
  existsb (String.eqb c) l = true <-> In c l.
Proof.
  rewrite existsb_exists. split.
  - intros [x [Hin Hx]]. apply String.eqb_eq in Hx. now subst.
  - intros H. exists c. split; [exact H | apply String.eqb_refl].
Qed.

Lemma exigir_OK (mensaje : string) (required columns : list string) :
  exigir mensaje required columns = OK tt <-> (forall c, In c required -> In c columns).
Proof.
  induction required as [|col rest IH]; simpl.
  - split; [intros _ c [] | reflexivity].
  - destruct (existsb (String.eqb col) columns) eqn:E.
    + apply existsb_eqb_In in E. rewrite IH. split.
      * intros H c [<-|Hc]; auto.
      * intros H c Hc. apply H. now right.
    + split; [discriminate|]. intros H.
      assert (Hin : In col columns) by (apply H; now left).
      apply existsb_eqb_In in Hin. congruence.
Qed.

Lemma exigir_Raise (mensaje : string) (required columns : list string) (e : exn) :
  exigir mensaje required columns = Raise e <->
  exists c, primera_faltante required columns c
            /\ e = ValueError (String.append mensaje c).
Proof.
  induction required as [|col rest IH]; simpl.
  - split; [discriminate|].
    intros [c [[antes [despues [H _]]] _]]. destruct antes; discriminate.
  - destruct (existsb (String.eqb col) columns) eqn:E.
    + rewrite IH. split.
      * intros [c [[antes [despues [Hr [Ha Hc]]]] He]]. exists c. split; [|exact He].
        exists (col :: antes), despues. split; [now rewrite Hr|]. split; [|exact Hc].
        intros a [<-|Hin]; [now apply existsb_eqb_In | auto].
      * intros [c [[antes [despues [Hr [Ha Hc]]]] He]]. exists c. split; [|exact He].
        destruct antes as [|a antes]; simpl in Hr; injection Hr as Hcol Hrest.
        -- subst c. exfalso. apply Hc. now apply existsb_eqb_In.
        -- exists antes, despues. split; [exact Hrest|]. split; [|exact Hc].
           intros a' Ha'. apply Ha. now right.
    + split.
      * intros H. injection H as <-. exists col. split; [|reflexivity].
        exists [], rest. split; [reflexivity|]. split; [intros a []|].
        intros Hin. apply existsb_eqb_In in Hin. congruence.
      * intros [c [[antes [despues [Hr [Ha Hc]]]] He]].
        destruct antes as [|a antes]; simpl in Hr; injection Hr as Hcol Hrest.
        -- now subst.
        -- exfalso. subst a.
           assert (Hin : In col columns) by (apply Ha; now left).
           apply existsb_eqb_In in Hin. congruence.
Qed.

Lemma lower_upper_char (c : ascii) : lower_char (Text.upper_char c) = lower_char c.
Proof. destruct c as [[|] [|] [|] [|] [|] [|] [|] [|]]; reflexivity. Qed.

Lemma lower_upper (s : string) : lower (Text.upper s) = lower s.
Proof.
  induction s as [|c t IH]; simpl; [reflexivity|].
  now rewrite lower_upper_char, IH.
Qed.

Lemma strip_upper (s : string) : Text.strip (Text.upper s) = Text.upper (Text.strip s).
Proof. unfold Text.strip. now rewrite lstrip_upper, rstrip_upper. Qed.

Lemma normalizar_disfraz (pre post : string) (columns : list string) :
  blanco pre = true -> blanco post = true ->
  normalizar (map (fun c => String.append pre (String.append (Text.upper c) post)) columns)
  = normalizar columns.
Proof.
  intros Hpre Hpost. unfold normalizar. rewrite map_map. apply map_ext. intros c.
  now rewrite (strip_pad pre (Text.upper c) post Hpre Hpost), strip_upper, lower_upper.
Qed.

End ColumnFacts.

(** ** Properties of the column checks *)

Section ColumnExtras.
Import Columnas.

(** X12. The column checks of [calcular] pass exactly when the three
    required columns of the catalogue and the three of the order are among
    the normalised headers.  Otherwise the [ValueError] names one column: the
    first required column, in the order of the code, that the catalogue
    lacks, or, when the catalogue is complete, the first one that the order
    lacks. *)
Theorem column_checks (cat_columns ped_columns : list string) :
  (comprobar cat_columns ped_columns = OK tt <->
   (forall c, In c catalogo_requeridas -> In c (normalizar cat_columns))
   /\ (forall c, In c pedido_requeridas -> In c (normalizar ped_columns)))
  /\ (forall e,
        comprobar cat_columns ped_columns = Raise e <->
        (exists c, primera_faltante catalogo_requeridas (normalizar cat_columns) c
                   /\ e = ValueError (String.append falta_catalogo c))
        \/ ((forall c, In c catalogo_requeridas -> In c (normalizar cat_columns))
            /\ exists c, primera_faltante pedido_requeridas (normalizar ped_columns) c
                         /\ e = ValueError (String.append falta_pedido c))).
Proof.
  unfold comprobar.
  destruct (exigir falta_catalogo catalogo_requeridas (normalizar cat_columns))
    as [[]|e0] eqn:E; cbn [bind].
  - pose proof (proj1 (exigir_OK _ _ _) E) as Hcat. split.
    + rewrite exigir_OK. tauto.
    + intros e. rewrite exigir_Raise. split.
      * intros H. right. now split.
      * intros [[c [[antes [despues [Hr [_ Hc]]]] _]]|[_ H]]; [|exact H].
        exfalso. apply Hc, Hcat. rewrite Hr. apply in_or_app. right. now left.
  - pose proof (proj1 (exigir_Raise _ _ _ _) E) as Hraise. split.
    + split; [discriminate|]. intros [Hcat _].
      apply exigir_OK with (mensaje := falta_catalogo) in Hcat. congruence.
    + intros e. split.
      * intros H. injection H as <-. now left.
      * intros [H|[Hcat _]].
        -- apply exigir_Raise in H. congruence.
        -- apply exigir_OK with (mensaje := falta_catalogo) in Hcat. congruence.
Qed.

(** X13. On headers of 7-bit characters the column checks do not see the
    letter case of a header nor the white space around it: upper-casing and
    padding every header gives the same outcome. *)
Theorem column_checks_ignore_case_and_padding
        (pre post : string) (cat_columns ped_columns : list string) :
  forallb siete_bits cat_columns = true -> forallb siete_bits ped_columns = true ->
  blanco pre = true -> blanco post = true ->
  comprobar
    (map (fun c => String.append pre (String.append (Text.upper c) post)) cat_columns)
    (map (fun c => String.append pre (String.append (Text.upper c) post)) ped_columns)
  = comprobar cat_columns ped_columns.
Proof.
  intros _ _ Hpre Hpost. unfold comprobar.
  now rewrite !(normalizar_disfraz pre post _ Hpre Hpost).
Qed.

Lemma column_checks_ignore_case_and_padding_witness :
  comprobar
    (map (fun c => String.append "  " (String.append (Text.upper c) " "))
         ["producto"; "precio compra"; "precio venta"])
    (map (fun c => String.append "  " (String.append (Text.upper c) " "))
         ["producto"; "cantidad"])
  = comprobar ["producto"; "precio compra"; "precio venta"] ["producto"; "cantidad"].
Proof.
  apply (column_checks_ignore_case_and_padding "  " " ").
  - reflexivity.
  - reflexivity.
  - reflexivity.
  - reflexivity.
Defined.

End ColumnExtras.

(** ** More on the detail table and the totals *)

Section DetailFacts.
Import Pandas.

Lemma buscar_In (rc : list fila) (r : fila) :
  NoDup (map clave rc) -> In r rc -> buscar rc (clave r) = Some r.
Proof.
  unfold buscar. induction rc as [|a t IH]; simpl; intros Hnd Hin; [contradiction|].
  inversion Hnd as [|? ? Hna Ht]; subst.
  destruct Hin as [->|Hin]; [now rewrite String.eqb_refl|].
  destruct (String.eqb_spec (clave a) (clave r)) as [E|_]; [|now apply IH].
  exfalso. apply Hna. rewrite E. now apply in_map.
Qed.

(** A column of the detail table is read off the enriched lines one by one,
    or is not numeric. *)
Lemma celda_por_linea (label : string) :
  (forall es i, celda (tabla es) label i = None)
  \/ exists f : enriquecida -> option Q,
       forall es i, celda (tabla es) label i = nth_error (map f es) i.
Proof.
  unfold celda, tabla. cbn [getitem].
  destruct (String.eqb "producto" label); [now left|].
  destruct (String.eqb "cantidad" label); [right; eexists; reflexivity|].
  destruct (String.eqb "descuento_%" label); [right; eexists; reflexivity|].
  destruct (String.eqb "precio venta" label); [right; eexists; reflexivity|].
  destruct (String.eqb "precio_venta_aplicado" label); [right; eexists; reflexivity|].
  destruct (String.eqb "precio compra" label); [right; eexists; reflexivity|].
  destruct (String.eqb "ingreso_linea" label); [right; eexists; reflexivity|].
  destruct (String.eqb "costo_linea" label); [right; eexists; reflexivity|].
  destruct (String.eqb "utilidad_linea" label); [right; eexists; reflexivity|].
  destruct (String.eqb "margen_linea" label); [right; eexists; reflexivity|].
  now left.
Qed.

Lemma celda_app_l (es1 es2 : list enriquecida) (label : string) (i : nat) :
  i < List.length es1 ->
  celda (tabla (es1 ++ es2)) label i = celda (tabla es1) label i.
Proof.
  intros Hi. destruct (celda_por_linea label) as [H|[f H]]; rewrite !H; [reflexivity|].
  rewrite map_app. apply nth_error_app1. now rewrite length_map.
Qed.

Lemma celda_app_r (es1 es2 : list enriquecida) (label : string) (i : nat) :
  celda (tabla (es1 ++ es2)) label (List.length es1 + i) = celda (tabla es2) label i.
Proof.
  destruct (celda_por_linea label) as [H|[f H]]; rewrite !H; [reflexivity|].
  rewrite map_app, nth_error_app2; rewrite length_map; [|lia].
  f_equal. lia.
Qed.

Lemma sum_skipna_app (l m : list (option Q)) :
  (sum_skipna (l ++ m) == sum_skipna l + sum_skipna m)%Q.
Proof. unfold sum_skipna. rewrite dropna_app. apply qsum_app. Qed.

Lemma unique_nil {A : Type} (eqb : A -> A -> bool) (l : list A) :
  unique eqb l = [] -> l = [].
Proof. destruct l; [reflexivity | discriminate]. Qed.

(** An empty warning list says that every line has its two prices. *)
Lemma faltantes_nil (rc : list fila) (ped : list linea) :
  faltantes rc ped = [] <->
  (forall l, In l ped -> venta_de rc l <> None /\ compra_de rc l <> None).
Proof.
  split.
  - intros H l Hl.
    assert (Hn : ~ In (producto_pedido l) (faltantes rc ped)) by (rewrite H; intros []).
    rewrite faltantes_spec in Hn.
    split; intros E; apply Hn; exists l; auto.
  - intros H. destruct (faltantes rc ped) as [|n t] eqn:E; [reflexivity|].
    assert (Hin : In n (faltantes rc ped)) by (rewrite E; now left).
    apply faltantes_spec in Hin. destruct Hin as [l [Hl [_ [Hv|Hc]]]];
      destruct (H l Hl); contradiction.
Qed.

Lemma totales_consistentes (rc : list fila) (ped : list linea) :
  (forall l, In l ped -> venta_de rc l <> None /\ compra_de rc l <> None) ->
  (sum_skipna (map e_utilidad (map (enriquecer rc) ped))
   == sum_skipna (map e_ingreso (map (enriquecer rc) ped))
      - sum_skipna (map e_costo (map (enriquecer rc) ped)))%Q.
Proof.
  unfold sum_skipna. induction ped as [|l t IH]; intros H; simpl; [ring|].
  destruct (H l (or_introl eq_refl)) as [Hv Hc].
  specialize (IH (fun x Hx => H x (or_intror Hx))).
  destruct (venta_de rc l) as [v|]; [|congruence].
  destruct (compra_de rc l) as [c|]; [|congruence].
  simpl. rewrite IH. ring.
Qed.

End DetailFacts.

(** ** Further properties of the enrichment *)

Section EnrichExtras.
Import Pandas.

(** X14. On a catalogue and an order that have their three columns, and
    whose prices, quantities and discounts are numbers or nulls, [main]
    raises exactly when its [deduplicate_catalog] raises, and raises the same
    exception: once the catalogue is resolved, the [m:1] validation of the
    merge, the column look-ups and the formulas raise nothing, whatever the
    names, the numbers and the nulls of the order.  A quantity or a discount
    that is a text, which the [astype(float)] of lines 105 and 106 would
    refuse, is not a line of this order type. *)
Theorem main_fails_with_the_resolver
        (cat : list fila) (ped : list linea) (policy : string) (e : exn) :
  Downloads.main cat ped policy = Raise e <->
  Downloads.deduplicate_catalog cat policy = Raise e.
Proof.
  rewrite dedup_same. split.
  - intros H. destruct (CalcPedido.deduplicate_catalog cat policy) as [rc|e'] eqn:E.
    + rewrite (main_enriquecer cat ped policy rc E) in H. discriminate.
    + rewrite (main_raises cat ped policy e' E) in H. now injection H as ->.
  - apply main_raises.
Qed.

(** X15. The detail table of [main] has the ten columns of the code, in
    that order, one row for every line of the order and in the order of the
    lines: its product column is the product column of the order, and its
    quantity and discount columns are those of the order with zero in place
    of an absent value. *)
Theorem detail_table_shape
        (cat : list fila) (ped : list linea) (policy : string) (rc : list fila) :
  CalcPedido.deduplicate_catalog cat policy = OK rc ->
  exists out,
    Downloads.main cat ped policy = OK out
    /\ labels (detalle out) = detalle_cols
    /\ (forall c s, In (c, s) (detalle out) -> size s = List.length ped)
    /\ getitem (detalle out) "producto" = OK (Text (map producto_pedido ped))
    /\ getitem (detalle out) "cantidad"
       = OK (Num (map (fun l => Some (o_cero (cantidad l))) ped))
    /\ getitem (detalle out) "descuento_%"
       = OK (Num (map (fun l => Some (o_cero (descuento l))) ped)).
Proof.
  intros E. eexists. split; [exact (main_enriquecer cat ped policy rc E)|].
  cbn [detalle]. split; [reflexivity|]. split.
  - intros c s Hin. unfold tabla in Hin. simpl in Hin.
    repeat (destruct Hin as [Hin|Hin];
            [injection Hin as _ <-; simpl; now rewrite !length_map|]).
    contradiction.
  - unfold tabla. cbn [getitem String.eqb Ascii.eqb Bool.eqb].
    rewrite !map_map. repeat split; reflexivity.
Qed.

Lemma detail_table_shape_witness :
  CalcPedido.deduplicate_catalog [barata] "first" = OK [barata]
  /\ exists out,
      Downloads.main [barata] [pide_z; pide_dos] "first" = OK out
      /\ labels (detalle out) = detalle_cols
      /\ (forall c s, In (c, s) (detalle out) -> size s = List.length [pide_z; pide_dos])
      /\ getitem (detalle out) "producto" = OK (Text (map producto_pedido [pide_z; pide_dos]))
      /\ getitem (detalle out) "cantidad"
         = OK (Num (map (fun l => Some (o_cero (cantidad l))) [pide_z; pide_dos]))
      /\ getitem (detalle out) "descuento_%"
         = OK (Num (map (fun l => Some (o_cero (descuento l))) [pide_z; pide_dos])).
Proof.
  split.
  - reflexivity.
  - apply (detail_table_shape [barata] [pide_z; pide_dos] "first" [barata]).
    reflexivity.
Defined.

(** X16. The join of [main] goes through the normalised names: a line gets
    the sale price and the purchase price of the row of the resolved
    catalogue that has the same key as the line, however the two names are
    spelled, and two lines with the same key get the same prices. *)
Theorem lines_get_the_prices_of_their_key
        (cat : list fila) (ped : list linea) (policy : string) (rc : list fila) :
  CalcPedido.deduplicate_catalog cat policy = OK rc ->
  exists out,
    Downloads.main cat ped policy = OK out
    /\ (forall i l r,
          nth_error ped i = Some l -> In r rc -> clave r = clave_linea l ->
          celda (detalle out) "precio venta" i = Some (precio_venta r)
          /\ celda (detalle out) "precio compra" i = Some (precio_compra r))
    /\ (forall i j l1 l2,
          nth_error ped i = Some l1 -> nth_error ped j = Some l2 ->
          clave_linea l1 = clave_linea l2 ->
          celda (detalle out) "precio venta" i = celda (detalle out) "precio venta" j
          /\ celda (detalle out) "precio compra" i = celda (detalle out) "precio compra" j).
Proof.
  intros E. eexists. split; [exact (main_enriquecer cat ped policy rc E)|].
  cbn [detalle]. pose proof (dedup_claves_nodup cat policy rc E) as Hnd. split.
  - intros i l r Hi Hr Hk. rewrite celda_venta, celda_compra.
    rewrite (nth_enriquecer rc ped i l Hi). unfold enriquecer.
    cbn [option_map e_venta e_compra]. unfold venta_de, compra_de.
    now rewrite <- Hk, (buscar_In rc r Hnd Hr).
  - intros i j l1 l2 Hi Hj Hk. rewrite !celda_venta, !celda_compra.
    rewrite (nth_enriquecer rc ped i l1 Hi), (nth_enriquecer rc ped j l2 Hj).
    unfold enriquecer. cbn [option_map e_venta e_compra]. unfold venta_de, compra_de.
    now rewrite Hk.
Qed.

Lemma lines_get_the_prices_of_their_key_witness :
  CalcPedido.deduplicate_catalog [barata; otra] "first" = OK [barata; otra]
  /\ exists out,
      Downloads.main [barata; otra] [pide_espacios; pide_dos] "first" = OK out
      /\ (forall i l r,
            nth_error [pide_espacios; pide_dos] i = Some l -> In r [barata; otra] ->
            clave r = clave_linea l ->
            celda (detalle out) "precio venta" i = Some (precio_venta r)
            /\ celda (detalle out) "precio compra" i = Some (precio_compra r))
      /\ (forall i j l1 l2,
            nth_error [pide_espacios; pide_dos] i = Some l1 ->
            nth_error [pide_espacios; pide_dos] j = Some l2 ->
            clave_linea l1 = clave_linea l2 ->
            celda (detalle out) "precio venta" i = celda (detalle out) "precio venta" j
            /\ celda (detalle out) "precio compra" i
               = celda (detalle out) "precio compra" j).
Proof.
  split.
  - reflexivity.
  - apply (lines_get_the_prices_of_their_key [barata; otra] [pide_espacios; pide_dos]
             "first" [barata; otra]).
    reflexivity.
Defined.

(** X17. Orders compose: running [main] on two orders put end to end gives
    the rows of the first run followed by the rows of the second, and each of
    the three totals is the sum of the totals of the two runs. *)
Theorem orders_compose
        (cat : list fila) (policy : string) (rc : list fila) (p1 p2 : list linea) :
  CalcPedido.deduplicate_catalog cat policy = OK rc ->
  exists o o1 o2,
    Downloads.main cat (p1 ++ p2) policy = OK o
    /\ Downloads.main cat p1 policy = OK o1
    /\ Downloads.main cat p2 policy = OK o2
    /\ (forall label i, i < List.length p1 ->
          celda (detalle o) label i = celda (detalle o1) label i)
    /\ (forall label i,
          celda (detalle o) label (List.length p1 + i) = celda (detalle o2) label i)
    /\ (ingreso_total (resumen o)
        == ingreso_total (resumen o1) + ingreso_total (resumen o2))%Q
    /\ (costo_total (resumen o)
        == costo_total (resumen o1) + costo_total (resumen o2))%Q
    /\ (utilidad_total_balance_neto (resumen o)
        == utilidad_total_balance_neto (resumen o1)
           + utilidad_total_balance_neto (resumen o2))%Q.
Proof.
  intros E. eexists. eexists. eexists.
  split; [exact (main_enriquecer cat (p1 ++ p2) policy rc E)|].
  split; [exact (main_enriquecer cat p1 policy rc E)|].
  split; [exact (main_enriquecer cat p2 policy rc E)|].
  cbn [detalle resumen]. rewrite map_app. split; [|split].
  - intros label i Hi. apply celda_app_l. now rewrite length_map.
  - intros label i. rewrite <- (length_map (enriquecer rc) p1). apply celda_app_r.
  - unfold resumir. cbn [ingreso_total costo_total utilidad_total_balance_neto].
    rewrite !map_app. repeat split; apply sum_skipna_app.
Qed.

Lemma orders_compose_witness :
  CalcPedido.deduplicate_catalog [barata] "first" = OK [barata]
  /\ exists o o1 o2,
      Downloads.main [barata] ([pide_dos] ++ [pide_z; pide_regalo]) "first" = OK o
      /\ Downloads.main [barata] [pide_dos] "first" = OK o1
      /\ Downloads.main [barata] [pide_z; pide_regalo] "first" = OK o2
      /\ (forall label i, i < List.length [pide_dos] ->
            celda (detalle o) label i = celda (detalle o1) label i)
      /\ (forall label i,
            celda (detalle o) label (List.length [pide_dos] + i)
            = celda (detalle o2) label i)
      /\ (ingreso_total (resumen o)
          == ingreso_total (resumen o1) + ingreso_total (resumen o2))%Q
      /\ (costo_total (resumen o)
          == costo_total (resumen o1) + costo_total (resumen o2))%Q
      /\ (utilidad_total_balance_neto (resumen o)
          == utilidad_total_balance_neto (resumen o1)
             + utilidad_total_balance_neto (resumen o2))%Q.
Proof.
  split.
  - reflexivity.
  - apply (orders_compose [barata] "first" [barata] [pide_dos] [pide_z; pide_regalo]).
    reflexivity.
Defined.

(** X18. When the warning list of [main] is empty, that is when every line
    has found its two prices, the total profit is the total revenue minus the
    total cost. *)
Theorem totals_agree_without_warnings
        (cat : list fila) (ped : list linea) (policy : string) (out : salida) :
  Downloads.main cat ped policy = OK out ->
  missing out = Text [] ->
  (utilidad_total_balance_neto (resumen out)
   == ingreso_total (resumen out) - costo_total (resumen out))%Q.
Proof.
  intros H Hm.
  destruct (CalcPedido.deduplicate_catalog cat policy) as [rc|e] eqn:E.
  - rewrite (main_enriquecer cat ped policy rc E) in H. injection H as <-.
    cbn [missing] in Hm. injection Hm as Hm.
    cbn [resumen]. unfold resumir.
    cbn [ingreso_total costo_total utilidad_total_balance_neto].
    apply totales_consistentes. now apply faltantes_nil.
  - rewrite (main_raises cat ped policy e E) in H. discriminate.
Qed.

Lemma totals_agree_without_warnings_witness :
  exists out,
    Downloads.main [barata] [pide_dos; pide_regalo] "first" = OK out
    /\ missing out = Text []
    /\ (utilidad_total_balance_neto (resumen out)
        == ingreso_total (resumen out) - costo_total (resumen out))%Q.
Proof.
  destruct (Downloads.main [barata] [pide_dos; pide_regalo] "first") as [out|e] eqn:E.
  - exists out. split; [reflexivity|].
    assert (Hm : missing out = Text []).
    { vm_compute in E. injection E as <-. reflexivity. }
    split; [exact Hm|].
    exact (totals_agree_without_warnings [barata] [pide_dos; pide_regalo] "first" out E Hm).
  - vm_compute in E. discriminate.
Defined.

(** X19. A line that finds a row with a sale price and a purchase price that
    are not negative, with a quantity that is not negative and a discount
    between 0 and 1, has an applied sale price between 0 and the sale price,
    a revenue and a cost that are not negative, and a margin, when it has
    one, of at most 1. *)
Theorem priced_line_bounds
        (cat : list fila) (ped : list linea) (policy : string) (rc : list fila)
        (i : nat) (l : linea) (r : fila) (v c : Q) :
  CalcPedido.deduplicate_catalog cat policy = OK rc ->
  nth_error ped i = Some l ->
  In r rc -> clave r = clave_linea l ->
  precio_venta r = Some v -> precio_compra r = Some c ->
  (0 <= v)%Q -> (0 <= c)%Q ->
  (0 <= o_cero (cantidad l))%Q ->
  (0 <= o_cero (descuento l))%Q -> (o_cero (descuento l) <= 1)%Q ->
  exists out a ing cos,
    Downloads.main cat ped policy = OK out
    /\ celda (detalle out) "precio_venta_aplicado" i = Some (Some a)
    /\ celda (detalle out) "ingreso_linea" i = Some (Some ing)
    /\ celda (detalle out) "costo_linea" i = Some (Some cos)
    /\ (0 <= a)%Q /\ (a <= v)%Q /\ (0 <= ing)%Q /\ (0 <= cos)%Q
    /\ (forall m, celda (detalle out) "margen_linea" i = Some (Some m) -> (m <= 1)%Q).
Proof.
  intros E Hi Hr Hk Hv Hc Hv0 Hc0 Hq Hd0 Hd1.
  pose proof (dedup_claves_nodup cat policy rc E) as Hnd.
  assert (Hb : buscar rc (clave_linea l) = Some r).
  { rewrite <- Hk. now apply buscar_In. }
  eexists. eexists. eexists. eexists.
  split; [exact (main_enriquecer cat ped policy rc E)|].
  cbn [detalle]. rewrite celda_aplicado, celda_ingreso, celda_costo, celda_margen.
  rewrite (nth_enriquecer rc ped i l Hi). unfold enriquecer.
  cbn [option_map e_aplicado e_ingreso e_costo e_margen].
  unfold venta_de, compra_de. rewrite Hb, Hv, Hc. cbn [option_map].
  split; [reflexivity|]. split; [reflexivity|]. split; [reflexivity|].
  set (q := o_cero (cantidad l)) in *. set (d := o_cero (descuento l)) in *.
  assert (Ha0 : (0 <= v * (1 - d))%Q) by (apply Qmult_le_0_compat; lra).
  assert (Ha1 : (v * (1 - d) <= v)%Q) by nra.
  assert (Hi0 : (0 <= q * (v * (1 - d)))%Q) by (apply Qmult_le_0_compat; assumption).
  assert (Hcos : (0 <= q * c)%Q) by (apply Qmult_le_0_compat; assumption).
  repeat split; try assumption.
  intros m Hm. destruct (Qeq_bool (q * (v * (1 - d))) 0) eqn:Ez; [discriminate|].
  injection Hm as <-.
  assert (Hpos : (0 < q * (v * (1 - d)))%Q).
  { apply Qle_lteq in Hi0. destruct Hi0 as [Hlt|Heq]; [exact Hlt|].
    exfalso. symmetry in Heq. apply Qeq_bool_iff in Heq. congruence. }
  apply Qle_shift_div_r; [exact Hpos | lra].
Qed.

Lemma priced_line_bounds_witness :
  exists out a ing cos,
    Downloads.main [barata] [pide_dos] "first" = OK out
    /\ celda (detalle out) "precio_venta_aplicado" 0 = Some (Some a)
    /\ celda (detalle out) "ingreso_linea" 0 = Some (Some ing)
    /\ celda (detalle out) "costo_linea" 0 = Some (Some cos)
    /\ (0 <= a)%Q /\ (a <= 10)%Q /\ (0 <= ing)%Q /\ (0 <= cos)%Q
    /\ (forall m, celda (detalle out) "margen_linea" 0 = Some (Some m) -> (m <= 1)%Q).
Proof.
  apply (priced_line_bounds [barata] [pide_dos] "first" [barata] 0 pide_dos barata 10 5).
  - reflexivity.
  - reflexivity.
  - simpl. now left.
  - reflexivity.
  - reflexivity.
  - reflexivity.
  - vm_compute. discriminate.
  - vm_compute. discriminate.
  - vm_compute. discriminate.
  - vm_compute. discriminate.
  - vm_compute. discriminate.
Defined.

(** X20. Empty inputs.  With an empty catalogue [main] returns for every
    policy, known or not: every line is in the warning list, every money cell
    is null and the four numbers of the summary are zero.  With an empty
    order and a catalogue that resolves, the detail table has no row, the
    warning list is empty and the four numbers of the summary are zero. *)
Theorem empty_inputs :
  (forall ped policy,
      exists out,
        Downloads.main [] ped policy = OK out
        /\ missing out = Text (unique text_eqb (map producto_pedido ped))
        /\ (forall i, i < List.length ped ->
              celda (detalle out) "precio_venta_aplicado" i = Some None
              /\ celda (detalle out) "ingreso_linea" i = Some None
              /\ celda (detalle out) "costo_linea" i = Some None
              /\ celda (detalle out) "utilidad_linea" i = Some None
              /\ celda (detalle out) "margen_linea" i = Some None)
        /\ resumen out = {| ingreso_total := 0; costo_total := 0;
                            utilidad_total_balance_neto := 0;
                            margen_ponderado := 0 |})
  /\ (forall cat policy,
         (exists rc, CalcPedido.deduplicate_catalog cat policy = OK rc) ->
         Downloads.main cat [] policy
         = OK {| missing := Text [];
                 detalle := tabla [];
                 resumen := {| ingreso_total := 0; costo_total := 0;
                               utilidad_total_balance_neto := 0;
                               margen_ponderado := 0 |} |}).
Proof.
  split.
  - intros ped policy.
    assert (E : CalcPedido.deduplicate_catalog [] policy = OK []) by reflexivity.
    eexists. split; [exact (main_enriquecer [] ped policy [] E)|].
    cbn [missing detalle resumen]. split; [|split].
    + unfold faltantes. now rewrite (filter_all (sin_precio []) ped).
    + intros i Hi. destruct (nth_error ped i) as [l|] eqn:El.
      * rewrite celda_aplicado, celda_ingreso, celda_costo, celda_utilidad, celda_margen.
        rewrite (nth_enriquecer [] ped i l El). repeat split; reflexivity.
      * apply nth_error_None in El. lia.
    + unfold resumir.
      assert (Hz : forall f : enriquecida -> option Q,
                 (forall l, f (enriquecer [] l) = None) ->
                 sum_skipna (map f (map (enriquecer []) ped)) = 0%Q).
      { intros f Hf. unfold sum_skipna. induction ped as [|l t IH]; [reflexivity|].
        simpl. now rewrite Hf. }
      rewrite (Hz e_ingreso), (Hz e_costo), (Hz e_utilidad); reflexivity.
  - intros cat policy [rc E]. now rewrite (main_enriquecer cat [] policy rc E).
Qed.

(** X21. Resolving the catalogue beforehand changes nothing: [main] on a
    catalogue that [deduplicate_catalog] has returned gives, with any policy,
    what [main] gives on the original catalogue with the policy that resolved
    it. *)
Theorem resolved_catalog_gives_the_same_run
        (cat : list fila) (policy : string) (rc : list fila) :
  CalcPedido.deduplicate_catalog cat policy = OK rc ->
  forall ped policy', Downloads.main rc ped policy' = Downloads.main cat ped policy.
Proof.
  intros E ped policy'.
  rewrite (main_enriquecer cat ped policy rc E).
  apply main_enriquecer. apply dedup_nodup.
  exact (dedup_claves_nodup cat policy rc E).
Qed.

Lemma resolved_catalog_gives_the_same_run_witness :
  CalcPedido.deduplicate_catalog [barata; otra; cara] "max_venta" = OK [otra; cara]
  /\ forall ped policy',
      Downloads.main [otra; cara] ped policy'
      = Downloads.main [barata; otra; cara] ped "max_venta".
Proof.
  split.
  - reflexivity.
  - apply (resolved_catalog_gives_the_same_run [barata; otra; cara] "max_venta").
    reflexivity.
Defined.

End EnrichExtras.

(** ** Raw cells: equality and [nunique] *)

Section UniqueFacts.
Import Pandas.

Variable A : Type.
Variable eqb : A -> A -> bool.
Hypothesis eqb_refl : forall a, eqb a a = true.
Hypothesis eqb_trans : forall a b c, eqb a b = true -> eqb b c = true -> eqb a c = true.

Lemma unique_represents (l : list A) (y : A) :
  In y l -> exists y', In y' (unique eqb l) /\ eqb y' y = true.
Proof.
  induction l as [|a t IH]; simpl; intros H; [contradiction|].
  destruct H as [->|H].
  - exists y. split; [now left | apply eqb_refl].
  - destruct (IH H) as [y' [Hin Heq]].
    destruct (eqb a y') eqn:E.
    + exists a. split; [now left | eapply eqb_trans; eauto].
    + exists y'. split; [|exact Heq].
      right. apply filter_In. split; [exact Hin | now rewrite E].
Qed.

Lemma unique_length_one (x : A) (t : list A) :
  List.length (unique eqb (x :: t)) = 1 <-> (forall y, In y t -> eqb x y = true).
Proof.
  simpl. split.
  - intros H y Hy.
    destruct (unique_represents t y Hy) as [y' [Hin Heq]].
    destruct (eqb x y') eqn:E; [eapply eqb_trans; eauto|].
    exfalso.
    assert (Hf : In y' (filter (fun y0 => negb (eqb x y0)) (unique eqb t))).
    { apply filter_In. split; [exact Hin | now rewrite E]. }
    destruct (filter (fun y0 => negb (eqb x y0)) (unique eqb t));
      [contradiction | simpl in H; lia].
  - intros H. rewrite filter_none; [reflexivity|].
    intros y Hy. apply unique_In in Hy. rewrite (H y Hy). reflexivity.
Qed.

End UniqueFacts.

Section RawCellFacts.
Import Pandas.

Lemma precio_eqb_refl (a : precio) : Crudo.precio_eqb a a = true.
Proof.
  destruct a as [q| |s]; simpl; [|reflexivity | apply String.eqb_refl].
  apply Qeq_bool_iff. reflexivity.
Qed.

Lemma precio_eqb_trans (a b c : precio) :
  Crudo.precio_eqb a b = true -> Crudo.precio_eqb b c = true ->
  Crudo.precio_eqb a c = true.
Proof.
  destruct a as [x| |s], b as [y| |t], c as [z| |u]; simpl;
    try discriminate; try reflexivity.
  - rewrite !Qeq_bool_iff. intros H1 H2. rewrite H1. exact H2.
  - rewrite !String.eqb_eq. congruence.
Qed.

(** The test of line 37 on a group that is not empty: every row has the two
    price cells of the first one. *)
Lemma sin_diferencias_c_spec (r : base_cruda) (t : list base_cruda) :
  sin_diferencias_c (r :: t) = mismos_precios_c (map row_c (r :: t)).
Proof.
  unfold sin_diferencias_c, mismos_precios_c, Crudo.nunique, Crudo.col.
  cbn [map].
  apply eq_true_iff_eq.
  rewrite andb_true_iff, !Nat.eqb_eq, forallb_forall.
  rewrite !(unique_length_one precio Crudo.precio_eqb precio_eqb_refl precio_eqb_trans).
  split.
  - intros [Hc Hv] x Hx. apply in_map_iff in Hx. destruct Hx as [rb [<- Hrb]].
    apply andb_true_iff. split; [apply Hc | apply Hv]; apply in_map_iff; now exists rb.
  - intros H. split; intros y Hy; apply in_map_iff in Hy; destruct Hy as [rb [<- Hrb]];
      specialize (H (row_c rb) (in_map row_c t rb Hrb));
      apply andb_true_iff in H; tauto.
Qed.

End RawCellFacts.

(** ** The frames inside the raw [deduplicate_catalog] *)

Section RawBaseFacts.
Import Pandas.

Lemma base_c_rows (cat : list fila_cruda) : map row_c (base_c cat) = cat.
Proof.
  unfold base_c, Crudo.with_key. rewrite map_map. simpl. apply enumerate_snd.
Qed.

Lemma base_c_index_nodup (cat : list fila_cruda) : NoDup (map index_c (base_c cat)).
Proof.
  unfold base_c, Crudo.with_key. rewrite map_map. simpl.
  rewrite enumerate_fst. apply seq_NoDup.
Qed.

Lemma base_c_key (cat : list fila_cruda) (r : base_cruda) :
  In r (base_c cat) -> key_c r = clave_c (row_c r).
Proof.
  unfold base_c, Crudo.with_key. intros H.
  apply in_map_iff in H. destruct H as [ir [<- _]]. reflexivity.
Qed.

Lemma base_c_keys (cat : list fila_cruda) : map key_c (base_c cat) = map clave_c cat.
Proof.
  rewrite <- (base_c_rows cat) at 2. rewrite map_map.
  apply map_ext_in. intros r Hr. now apply (base_c_key cat).
Qed.

Lemma grupo_base_c_rows (k : string) (cat : list fila_cruda) :
  map row_c (grupo_base_c k cat) = grupo_c k cat.
Proof.
  unfold grupo_base_c, grupo_c.
  rewrite (map_filter_comm row_c _ (fun r => String.eqb (clave_c r) k) (base_c cat)).
  - now rewrite base_c_rows.
  - intros r Hr. now rewrite (base_c_key cat r Hr).
Qed.

Lemma grupo_base_c_nodup (k : string) (cat : list fila_cruda) :
  NoDup (map index_c (grupo_base_c k cat)).
Proof. apply nodup_map_filter, base_c_index_nodup. Qed.

Lemma count_key_grupo_c (k : string) (cat : list fila_cruda) :
  count_key k (map key_c (base_c cat)) = List.length (grupo_c k cat).
Proof.
  rewrite base_c_keys. unfold count_key, grupo_c.
  induction cat as [|r t IH]; simpl; [reflexivity|].
  rewrite (String.eqb_sym k (clave_c r)).
  destruct (String.eqb (clave_c r) k); simpl; now rewrite IH.
Qed.

Lemma dups_filter_c (cat : list fila_cruda) :
  select (duplicated (map key_c (base_c cat))) (base_c cat)
  = filter (multiple_c cat) (base_c cat).
Proof.
  unfold duplicated. rewrite map_map. rewrite select_map.
  apply filter_ext. intros r. unfold multiple_c. now rewrite count_key_grupo_c.
Qed.

Lemma uniques_filter_c (cat : list fila_cruda) :
  select (map negb (duplicated (map key_c (base_c cat)))) (base_c cat)
  = filter (fun r => negb (multiple_c cat r)) (base_c cat).
Proof.
  unfold duplicated. rewrite !map_map. rewrite select_map.
  apply filter_ext. intros r. unfold multiple_c. now rewrite count_key_grupo_c.
Qed.

Lemma grupo_of_dups_c (k : string) (cat : list fila_cruda) :
  2 <= List.length (grupo_c k cat) ->
  filter (fun r => String.eqb (key_c r) k) (filter (multiple_c cat) (base_c cat))
  = grupo_base_c k cat.
Proof.
  intros H. rewrite filter_filter. unfold grupo_base_c.
  apply filter_ext. intros r. unfold multiple_c.
  destruct (String.eqb_spec (key_c r) k) as [->|Hne]; [|apply andb_false_r].
  rewrite andb_true_r. now apply Nat.leb_le.
Qed.

Lemma dups_claves_c (cat : list fila_cruda) :
  map key_c (filter (multiple_c cat) (base_c cat))
  = map clave_c (filter (fun r => (2 <=? List.length (grupo_c (clave_c r) cat))%nat) cat).
Proof.
  transitivity (map clave_c (map row_c (filter (multiple_c cat) (base_c cat)))).
  - rewrite map_map. apply map_ext_in. intros r Hr.
    apply filter_In in Hr. now apply (base_c_key cat).
  - f_equal.
    rewrite (map_filter_comm row_c (multiple_c cat)
               (fun r => (2 <=? List.length (grupo_c (clave_c r) cat))%nat) (base_c cat)).
    + now rewrite base_c_rows.
    + intros r Hr. unfold multiple_c. now rewrite (base_c_key cat r Hr).
Qed.

Lemma claves_dup_c_spec (cat : list fila_cruda) (k : string) :
  In k (claves_dup_c cat) <-> 2 <= List.length (grupo_c k cat).
Proof.
  unfold claves_dup_c. rewrite <- dups_claves_c. split.
  - intros H. apply (Permutation_in _ (sort_keys_perm _)) in H.
    apply (proj1 (unique_string_In _ _)) in H. apply in_map_iff in H.
    destruct H as [r [<- Hr]]. apply filter_In in Hr.
    destruct Hr as [_ Hr]. now apply Nat.leb_le in Hr.
  - intros H.
    apply (Permutation_in _ (Permutation_sym (sort_keys_perm _))).
    apply unique_string_In.
    assert (Hin : In k (map key_c (base_c cat))).
    { apply count_key_in. rewrite count_key_grupo_c. lia. }
    apply in_map_iff in Hin. destruct Hin as [r [<- Hr]].
    apply in_map. apply filter_In. split; [exact Hr|].
    now apply Nat.leb_le.
Qed.

Lemma groupby_dups_c (cat : list fila_cruda) :
  Crudo.groupby (filter (multiple_c cat) (base_c cat))
  = map (fun k => grupo_base_c k cat) (claves_dup_c cat).
Proof.
  unfold Crudo.groupby. rewrite dups_claves_c. fold (claves_dup_c cat).
  apply map_ext_in. intros k Hk. apply grupo_of_dups_c.
  now apply claves_dup_c_spec.
Qed.

Lemma dups_empty_c (cat : list fila_cruda) :
  filter (multiple_c cat) (base_c cat) = [] -> claves_dup_c cat = [].
Proof. unfold claves_dup_c. rewrite <- dups_claves_c. intros ->. reflexivity. Qed.

Lemma dups_nonempty_c (cat : list fila_cruda) :
  filter (multiple_c cat) (base_c cat) <> [] -> claves_dup_c cat <> [].
Proof.
  intros H Hk. destruct (filter (multiple_c cat) (base_c cat)) as [|r t] eqn:E; [congruence|].
  assert (Hin : In (key_c r) (claves_dup_c cat)).
  { apply claves_dup_c_spec.
    assert (Hr : In r (filter (multiple_c cat) (base_c cat))) by (rewrite E; now left).
    apply filter_In in Hr. destruct Hr as [_ Hr]. now apply Nat.leb_le in Hr. }
  rewrite Hk in Hin. contradiction.
Qed.

Lemma unicos_c_rows (cat : list fila_cruda) :
  map row_c (filter (fun r => negb (multiple_c cat r)) (base_c cat)) = unicos_c cat.
Proof.
  unfold unicos_c.
  rewrite (map_filter_comm row_c _
             (fun r => negb (2 <=? List.length (grupo_c (clave_c r) cat))%nat) (base_c cat)).
  - now rewrite base_c_rows.
  - intros r Hr. unfold multiple_c. now rewrite (base_c_key cat r Hr).
Qed.

Lemma grupo_c_no_vacio (cat : list fila_cruda) (k : string) :
  In k (claves_dup_c cat) -> exists r0 rest, grupo_c k cat = r0 :: rest.
Proof.
  intros H. apply claves_dup_c_spec in H.
  destruct (grupo_c k cat) as [|r t]; [simpl in H; lia | eauto].
Qed.

Lemma grupo_base_c_cons (k : string) (cat : list fila_cruda)
      (r0 : fila_cruda) (rest : list fila_cruda) :
  grupo_c k cat = r0 :: rest ->
  exists rb t, grupo_base_c k cat = rb :: t /\ row_c rb = r0 /\ map row_c t = rest.
Proof.
  intros H. rewrite <- grupo_base_c_rows in H.
  destruct (grupo_base_c k cat) as [|rb t]; [discriminate|].
  injection H as H1 H2. now exists rb, t.
Qed.

Section WithFloat.
Variable float : string -> option (option Q).

Lemma dedup_c_unfold (cat : list fila_cruda) (policy : string) :
  Crudo.deduplicate_catalog float cat policy =
  if empty (filter (multiple_c cat) (base_c cat)) then OK (unicos_c cat)
  else
    agg_rows <- for_each (fun k => Crudo.resolve_group float policy (grupo_base_c k cat))
                         (claves_dup_c cat) ;;
    agg <- concat agg_rows ;;
    OK (unicos_c cat ++ agg).
Proof.
  unfold Crudo.deduplicate_catalog. fold (base_c cat).
  rewrite dups_filter_c, uniques_filter_c, unicos_c_rows.
  rewrite groupby_dups_c, for_each_map. reflexivity.
Qed.

(** The raw function raises exactly when the loop body raises on one of its
    groups. *)
Lemma dedup_c_raises (cat : list fila_cruda) (policy : string) :
  (exists e, Crudo.deduplicate_catalog float cat policy = Raise e) <->
  (exists k e, In k (claves_dup_c cat)
               /\ Crudo.resolve_group float policy (grupo_base_c k cat) = Raise e).
Proof.
  rewrite dedup_c_unfold.
  destruct (filter (multiple_c cat) (base_c cat)) as [|r t] eqn:E; simpl.
  - rewrite (dups_empty_c cat E). split.
    + intros [e H]. discriminate.
    + intros [k [e [[] _]]].
  - destruct (for_each _ (claves_dup_c cat)) as [agg|e'] eqn:Ef; simpl.
    + split.
      * intros [e H]. destruct agg as [|a agg]; simpl in H; [|discriminate].
        exfalso. apply for_each_OK in Ef. inversion Ef as [Hk|]; subst.
        apply (dups_nonempty_c cat); [rewrite E; discriminate | now symmetry].
      * intros [k [e [Hk Hr]]]. exfalso. apply for_each_OK in Ef.
        clear E. induction Ef as [|k' rs ks agg' Hk' _ IH]; [contradiction|].
        destruct Hk as [->|Hk]; [congruence | auto].
    + split.
      * intros _. destruct (for_each_Raise_inv _ _ _ Ef) as [k [Hk Hr]]. eauto.
      * intros _. now exists e'.
Qed.

End WithFloat.

End RawBaseFacts.

(** ** One group through the raw loop body *)

Section RawGroupFacts.
Import Pandas.

Variable float : string -> option (option Q).

Lemma a_float_valor (c : precio) :
  no_numero float c = false -> Crudo.a_float float c = OK (valor float c).
Proof.
  destruct c as [q| |s]; simpl; try reflexivity.
  destruct (float s); [reflexivity | discriminate].
Qed.

Lemma a_float_no_numero (c : precio) :
  no_numero float c = true -> exists msg, Crudo.a_float float c = Raise (ValueError msg).
Proof.
  destruct c as [q| |s]; simpl; try discriminate.
  destruct (float s); [discriminate|]. intros _. eexists. reflexivity.
Qed.

(** [astype(float)] goes through when every text of the column is a number,
    and raises [ValueError] otherwise. *)
Lemma astype_OK (s : list precio) :
  existsb (no_numero float) s = false ->
  Crudo.astype_float float s = OK (map (valor float) s).
Proof.
  unfold Crudo.astype_float.
  induction s as [|c t IH]; simpl; [reflexivity|].
  intros H. apply orb_false_iff in H. destruct H as [Hc Ht].
  rewrite (a_float_valor c Hc). simpl. now rewrite (IH Ht).
Qed.

Lemma astype_Raise (s : list precio) :
  existsb (no_numero float) s = true ->
  exists msg, Crudo.astype_float float s = Raise (ValueError msg).
Proof.
  unfold Crudo.astype_float.
  induction s as [|c t IH]; simpl; [discriminate|].
  destruct (no_numero float c) eqn:Hc; simpl.
  - intros _. destruct (a_float_no_numero c Hc) as [msg ->]. now exists msg.
  - intros Ht. rewrite (a_float_valor c Hc). simpl.
    destruct (IH Ht) as [msg ->]. now exists msg.
Qed.

(** The exception names the first text that is not a number. *)
Lemma astype_primero (s : list precio) (t : string) :
  primer_no_numero float s t ->
  Crudo.astype_float float s = Raise (Crudo.no_convertible t).
Proof.
  intros [pre [post [-> [Hpre Ht]]]]. unfold Crudo.astype_float.
  induction pre as [|c pre IH]; simpl.
  - now rewrite Ht.
  - simpl in Hpre. apply andb_true_iff in Hpre. destruct Hpre as [Hc Hpre].
    apply negb_true_iff in Hc. rewrite (a_float_valor c Hc). simpl.
    now rewrite (IH Hpre).
Qed.

Lemma combine_labelled (f : fila_cruda -> precio) (g : list base_cruda) :
  combine (map index_c g) (map (valor float) (Crudo.col f g))
  = map (fun r => (index_c r, valor float (f (row_c r)))) g.
Proof.
  unfold Crudo.col. induction g as [|r t IH]; simpl; [reflexivity|]. now rewrite IH.
Qed.

Lemma col_c_grupo (f : fila_cruda -> precio) (k : string) (cat : list fila_cruda) :
  Crudo.col f (grupo_base_c k cat) = map f (grupo_c k cat).
Proof.
  unfold Crudo.col. rewrite <- grupo_base_c_rows. now rewrite map_map.
Qed.

Lemma filter_label_single_c (g : list base_cruda) (r : base_cruda) :
  NoDup (map index_c g) -> In r g ->
  filter (fun y => (index_c y =? index_c r)%nat) g = [r].
Proof.
  induction g as [|a t IH]; simpl; intros Hnd Hin; [contradiction|].
  inversion Hnd as [|? ? Hna Hnt]; subst.
  destruct Hin as [->|Hin].
  - rewrite Nat.eqb_refl. f_equal. apply filter_none.
    intros y Hy. apply Nat.eqb_neq. intros Heq. apply Hna.
    rewrite <- Heq. now apply in_map.
  - destruct (Nat.eqb_spec (index_c a) (index_c r)) as [Heq|Hne].
    + exfalso. apply Hna. rewrite Heq. now apply in_map.
    + now apply IH.
Qed.

(** A winner of the labelled series of a group is one of its rows, and
    [.loc] on its label returns that row alone. *)
Lemma gana_grupo_c (better : Q -> Q -> bool) (h : fila_cruda -> option Q)
      (k : string) (cat : list fila_cruda) (i : nat) (v : Q) :
  gana better (map (fun r => (index_c r, h (row_c r))) (grupo_base_c k cat)) i v ->
  exists pre r post,
    grupo_c k cat = pre ++ r :: post /\ h r = Some v
    /\ Crudo.loc i (grupo_base_c k cat) = [r]
    /\ (forall x y, In x pre -> h x = Some y -> better v y = true)
    /\ (forall x y, In x post -> h x = Some y -> better y v = false).
Proof.
  intros [pre' [post' [Hs [Hpre Hpost]]]].
  pose proof (grupo_base_c_nodup k cat) as Hnd.
  rewrite <- grupo_base_c_rows.
  apply map_eq_app in Hs. destruct Hs as [pre [l2 [Hg [Hp Hl2]]]].
  apply map_eq_cons in Hl2. destruct Hl2 as [r [post [-> [Hr Hpo]]]].
  injection Hr as Hi Hv. subst i.
  exists (map row_c pre), (row_c r), (map row_c post).
  split; [|split; [|split; [|split]]].
  - rewrite Hg. now rewrite map_app.
  - exact Hv.
  - unfold Crudo.loc. rewrite filter_label_single_c; [reflexivity | exact Hnd |].
    rewrite Hg. apply in_or_app. right. now left.
  - intros x y Hx Hy. apply in_map_iff in Hx. destruct Hx as [x' [<- Hx']].
    apply (Hpre (index_c x')). subst pre'.
    apply in_map_iff. exists x'. split; [now rewrite Hy | exact Hx'].
  - intros x y Hx Hy. apply in_map_iff in Hx. destruct Hx as [x' [<- Hx']].
    apply (Hpost (index_c x')). subst post'.
    apply in_map_iff. exists x'. split; [now rewrite Hy | exact Hx'].
Qed.

Lemma labelled_c_all_none (h : fila_cruda -> option Q) (k : string) (cat : list fila_cruda) :
  (forall r, In r (grupo_c k cat) -> h r = None) ->
  forall j c, In (j, c) (map (fun r => (index_c r, h (row_c r))) (grupo_base_c k cat)) ->
              c = None.
Proof.
  intros H j c Hin. apply in_map_iff in Hin. destruct Hin as [r [E Hr]].
  injection E as _ <-. apply H. rewrite <- grupo_base_c_rows. now apply in_map.
Qed.

Lemma existsb_numero_c (f : fila_cruda -> option Q) (g : list fila_cruda) :
  existsb (fun r => negb (is_none (f r))) g = true <->
  exists r, In r g /\ f r <> None.
Proof.
  rewrite existsb_exists. split; intros [r [Hin Hr]]; exists r; split; auto.
  - intros E. rewrite E in Hr. discriminate.
  - destruct (f r); [reflexivity | congruence].
Qed.

Lemma existsb_sin_numero_c (f : fila_cruda -> option Q) (g : list fila_cruda) :
  existsb (fun r => negb (is_none (f r))) g = false <->
  (forall r, In r g -> f r = None).
Proof.
  split.
  - intros H r Hr. destruct (f r) eqn:E; [|reflexivity].
    assert (Hex : existsb (fun r => negb (is_none (f r))) g = true).
    { apply existsb_exists. exists r. split; [exact Hr | now rewrite E]. }
    congruence.
  - intros H. destruct (existsb _ g) eqn:E; [|reflexivity].
    apply existsb_exists in E. destruct E as [r [Hr Hn]].
    rewrite (H r Hr) in Hn. discriminate.
Qed.

(** *** The branches of the loop body *)

Lemma resolve_c_same (policy : string) (r : base_cruda) (t : list base_cruda) :
  sin_diferencias_c (r :: t) = true ->
  Crudo.resolve_group float policy (r :: t) = OK [row_c r].
Proof.
  unfold sin_diferencias_c, Crudo.resolve_group. intros ->. reflexivity.
Qed.

Lemma resolve_c_first (r : base_cruda) (t : list base_cruda) :
  Crudo.resolve_group float "first" (r :: t) = OK [row_c r].
Proof.
  unfold Crudo.resolve_group.
  destruct (_ && _); reflexivity.
Qed.

Lemma resolve_c_max_venta (g : list base_cruda) :
  sin_diferencias_c g = false ->
  Crudo.resolve_group float "max_venta" g =
  (v <- Crudo.astype_float float (Crudo.col venta_c g) ;;
   idx <- idxmax (combine (map index_c g) v) ;;
   OK (Crudo.loc idx g)).
Proof.
  unfold sin_diferencias_c, Crudo.resolve_group. intros ->. reflexivity.
Qed.

Lemma resolve_c_min_costo (g : list base_cruda) :
  sin_diferencias_c g = false ->
  Crudo.resolve_group float "min_costo" g =
  (v <- Crudo.astype_float float (Crudo.col compra_c g) ;;
   idx <- idxmin (combine (map index_c g) v) ;;
   OK (Crudo.loc idx g)).
Proof.
  unfold sin_diferencias_c, Crudo.resolve_group. intros ->. reflexivity.
Qed.

Lemma resolve_c_avg (r : base_cruda) (t : list base_cruda) :
  sin_diferencias_c (r :: t) = false ->
  Crudo.resolve_group float "avg" (r :: t) =
  (pc <- Crudo.astype_float float (Crudo.col compra_c (r :: t)) ;;
   pv <- Crudo.astype_float float (Crudo.col venta_c (r :: t)) ;;
   OK [ {| producto_c := producto_c (row_c r);
           compra_c := Crudo.de_numero (mean pc);
           venta_c := Crudo.de_numero (mean pv) |} ]).
Proof.
  unfold sin_diferencias_c, Crudo.resolve_group. intros ->. reflexivity.
Qed.

Lemma resolve_c_unknown (policy : string) (g : list base_cruda) :
  sin_diferencias_c g = false -> conocida policy = false ->
  Crudo.resolve_group float policy g = Raise (CalcPedido.unknown_policy policy).
Proof.
  unfold sin_diferencias_c, Crudo.resolve_group, conocida. intros -> H.
  apply orb_false_iff in H. destruct H as [H H4].
  apply orb_false_iff in H. destruct H as [H H3].
  apply orb_false_iff in H. destruct H as [H1 H2].
  now rewrite H1, H2, H3, H4.
Qed.

Lemma conflicto_c (k : string) (cat : list fila_cruda) :
  sin_diferencias_c (grupo_base_c k cat) = mismos_precios_c (grupo_c k cat)
  \/ grupo_c k cat = [].
Proof.
  destruct (grupo_base_c k cat) as [|rb t] eqn:E.
  - right. rewrite <- grupo_base_c_rows, E. reflexivity.
  - left. rewrite sin_diferencias_c_spec. rewrite <- E. now rewrite grupo_base_c_rows.
Qed.

Lemma conflicto_c_cons (k : string) (cat : list fila_cruda)
      (r0 : fila_cruda) (rest : list fila_cruda) :
  grupo_c k cat = r0 :: rest ->
  sin_diferencias_c (grupo_base_c k cat) = mismos_precios_c (r0 :: rest).
Proof.
  intros Hg. destruct (conflicto_c k cat) as [H|H]; [now rewrite H, Hg | congruence].
Qed.

(** max_venta and min_costo on a group with a price conflict. *)
Lemma resolve_c_max_texto (k : string) (cat : list fila_cruda) :
  sin_diferencias_c (grupo_base_c k cat) = false ->
  existsb (no_numero float) (map venta_c (grupo_c k cat)) = true ->
  exists msg, Crudo.resolve_group float "max_venta" (grupo_base_c k cat)
              = Raise (ValueError msg).
Proof.
  intros Hs Hex. rewrite (resolve_c_max_venta _ Hs), col_c_grupo.
  destruct (astype_Raise _ Hex) as [msg ->]. now exists msg.
Qed.

Lemma resolve_c_min_texto (k : string) (cat : list fila_cruda) :
  sin_diferencias_c (grupo_base_c k cat) = false ->
  existsb (no_numero float) (map compra_c (grupo_c k cat)) = true ->
  exists msg, Crudo.resolve_group float "min_costo" (grupo_base_c k cat)
              = Raise (ValueError msg).
Proof.
  intros Hs Hex. rewrite (resolve_c_min_costo _ Hs), col_c_grupo.
  destruct (astype_Raise _ Hex) as [msg ->]. now exists msg.
Qed.

Lemma resolve_c_max_idx (k : string) (cat : list fila_cruda) :
  sin_diferencias_c (grupo_base_c k cat) = false ->
  existsb (no_numero float) (map venta_c (grupo_c k cat)) = false ->
  Crudo.resolve_group float "max_venta" (grupo_base_c k cat) =
  (idx <- idxmax (map (fun r => (index_c r, venta_num float (row_c r))) (grupo_base_c k cat)) ;;
   OK (Crudo.loc idx (grupo_base_c k cat))).
Proof.
  intros Hs Hex. rewrite (resolve_c_max_venta _ Hs).
  rewrite <- (col_c_grupo venta_c) in Hex. rewrite (astype_OK _ Hex). simpl.
  now rewrite combine_labelled.
Qed.

Lemma resolve_c_min_idx (k : string) (cat : list fila_cruda) :
  sin_diferencias_c (grupo_base_c k cat) = false ->
  existsb (no_numero float) (map compra_c (grupo_c k cat)) = false ->
  Crudo.resolve_group float "min_costo" (grupo_base_c k cat) =
  (idx <- idxmin (map (fun r => (index_c r, compra_num float (row_c r))) (grupo_base_c k cat)) ;;
   OK (Crudo.loc idx (grupo_base_c k cat))).
Proof.
  intros Hs Hex. rewrite (resolve_c_min_costo _ Hs).
  rewrite <- (col_c_grupo compra_c) in Hex. rewrite (astype_OK _ Hex). simpl.
  now rewrite combine_labelled.
Qed.

Lemma resolve_c_max_spec (k : string) (cat : list fila_cruda) :
  sin_diferencias_c (grupo_base_c k cat) = false ->
  existsb (no_numero float) (map venta_c (grupo_c k cat)) = false ->
  (exists r, In r (grupo_c k cat) /\ venta_num float r <> None) ->
  exists r, Crudo.resolve_group float "max_venta" (grupo_base_c k cat) = OK [r]
            /\ primero_max_c (venta_num float) (grupo_c k cat) r.
Proof.
  intros Hs Hex [r1 [Hin Hv]]. rewrite (resolve_c_max_idx k cat Hs Hex).
  destruct (idxmax_cases (map (fun r => (index_c r, venta_num float (row_c r)))
                              (grupo_base_c k cat))) as [[i Hi]|Hr].
  - destruct (idxmax_OK _ _ Hi) as [v Hg].
    destruct (gana_grupo_c mayor (venta_num float) k cat i v Hg)
      as [pre [r [post [Hsplit [Hrv [Hl [Hpre Hpost]]]]]]].
    exists r. rewrite Hi. simpl. rewrite Hl. split; [reflexivity|].
    exists pre, post, v. repeat split; auto.
    + intros x y Hx Hy. apply mayor_lt. eapply Hpre; eauto.
    + intros x y Hx Hy. apply mayor_le. eapply Hpost; eauto.
  - exfalso. pose proof (proj2 (idxmax_Raise _) Hr) as Hall. clear Hr. rename Hall into Hr.
    apply Hv.
    rewrite <- grupo_base_c_rows in Hin. apply in_map_iff in Hin.
    destruct Hin as [rb [<- Hrb]].
    apply (Hr (index_c rb)). apply in_map_iff. now exists rb.
Qed.

Lemma resolve_c_min_spec (k : string) (cat : list fila_cruda) :
  sin_diferencias_c (grupo_base_c k cat) = false ->
  existsb (no_numero float) (map compra_c (grupo_c k cat)) = false ->
  (exists r, In r (grupo_c k cat) /\ compra_num float r <> None) ->
  exists r, Crudo.resolve_group float "min_costo" (grupo_base_c k cat) = OK [r]
            /\ primero_min_c (compra_num float) (grupo_c k cat) r.
Proof.
  intros Hs Hex [r1 [Hin Hv]]. rewrite (resolve_c_min_idx k cat Hs Hex).
  destruct (idxmin_cases (map (fun r => (index_c r, compra_num float (row_c r)))
                              (grupo_base_c k cat))) as [[i Hi]|Hr].
  - destruct (idxmin_OK _ _ Hi) as [v Hg].
    destruct (gana_grupo_c menor (compra_num float) k cat i v Hg)
      as [pre [r [post [Hsplit [Hrv [Hl [Hpre Hpost]]]]]]].
    exists r. rewrite Hi. simpl. rewrite Hl. split; [reflexivity|].
    exists pre, post, v. repeat split; auto.
    + intros x y Hx Hy. apply menor_lt. eapply Hpre; eauto.
    + intros x y Hx Hy. apply menor_le. eapply Hpost; eauto.
  - exfalso. pose proof (proj2 (idxmin_Raise _) Hr) as Hall. clear Hr. rename Hall into Hr.
    apply Hv.
    rewrite <- grupo_base_c_rows in Hin. apply in_map_iff in Hin.
    destruct Hin as [rb [<- Hrb]].
    apply (Hr (index_c rb)). apply in_map_iff. now exists rb.
Qed.

Lemma resolve_c_max_all_na (k : string) (cat : list fila_cruda) :
  sin_diferencias_c (grupo_base_c k cat) = false ->
  existsb (no_numero float) (map venta_c (grupo_c k cat)) = false ->
  (forall r, In r (grupo_c k cat) -> venta_num float r = None) ->
  exists e, Crudo.resolve_group float "max_venta" (grupo_base_c k cat) = Raise e.
Proof.
  intros Hs Hex H. rewrite (resolve_c_max_idx k cat Hs Hex).
  pose proof (proj1 (idxmax_Raise _) (labelled_c_all_none (venta_num float) k cat H)) as E.
  rewrite E. now exists all_na.
Qed.

Lemma resolve_c_min_all_na (k : string) (cat : list fila_cruda) :
  sin_diferencias_c (grupo_base_c k cat) = false ->
  existsb (no_numero float) (map compra_c (grupo_c k cat)) = false ->
  (forall r, In r (grupo_c k cat) -> compra_num float r = None) ->
  exists e, Crudo.resolve_group float "min_costo" (grupo_base_c k cat) = Raise e.
Proof.
  intros Hs Hex H. rewrite (resolve_c_min_idx k cat Hs Hex).
  pose proof (proj1 (idxmin_Raise _) (labelled_c_all_none (compra_num float) k cat H)) as E.
  rewrite E. now exists all_na.
Qed.

Lemma de_numero_mean (s : list (option Q)) :
  Crudo.de_numero (mean s) = media_sin_nulos s.
Proof. rewrite mean_media. unfold media_sin_nulos. destruct (dropna s); reflexivity. Qed.

(** avg on a group with a price conflict. *)
Lemma resolve_c_avg_texto (k : string) (cat : list fila_cruda) :
  sin_diferencias_c (grupo_base_c k cat) = false ->
  existsb (no_numero float) (map compra_c (grupo_c k cat))
  || existsb (no_numero float) (map venta_c (grupo_c k cat)) = true ->
  exists msg, Crudo.resolve_group float "avg" (grupo_base_c k cat) = Raise (ValueError msg).
Proof.
  intros Hs Hex.
  destruct (grupo_base_c k cat) as [|rb t] eqn:E.
  { rewrite <- grupo_base_c_rows, E in Hex. discriminate. }
  rewrite (resolve_c_avg rb t Hs). rewrite <- E, !col_c_grupo.
  destruct (existsb (no_numero float) (map compra_c (grupo_c k cat))) eqn:Ec.
  - destruct (astype_Raise _ Ec) as [msg ->]. now exists msg.
  - rewrite (astype_OK _ Ec). simpl in *.
    destruct (astype_Raise _ Hex) as [msg ->]. now exists msg.
Qed.

Lemma resolve_c_avg_spec (k : string) (cat : list fila_cruda)
      (r0 : fila_cruda) (rest : list fila_cruda) :
  grupo_c k cat = r0 :: rest ->
  sin_diferencias_c (grupo_base_c k cat) = false ->
  existsb (no_numero float) (map compra_c (r0 :: rest))
  || existsb (no_numero float) (map venta_c (r0 :: rest)) = false ->
  Crudo.resolve_group float "avg" (grupo_base_c k cat) =
  OK [ {| producto_c := producto_c r0;
          compra_c := media_sin_nulos (map (compra_num float) (r0 :: rest));
          venta_c := media_sin_nulos (map (venta_num float) (r0 :: rest)) |} ].
Proof.
  intros Hg Hs Hex. apply orb_false_iff in Hex. destruct Hex as [Hc Hv].
  destruct (grupo_base_c_cons k cat r0 rest Hg) as [rb [t [E [Hr Ht]]]].
  pose proof (col_c_grupo compra_c k cat) as Cc.
  pose proof (col_c_grupo venta_c k cat) as Cv.
  rewrite E in *. rewrite (resolve_c_avg rb t Hs).
  rewrite Cc, Cv, Hg. rewrite (astype_OK _ Hc). cbn [bind].
  rewrite (astype_OK _ Hv). cbn [bind].
  rewrite <- !de_numero_mean, Hr, !map_map. reflexivity.
Qed.

(** The loop body raises on the group of a duplicated key exactly when the
    group has a price conflict on which the policy fails. *)
Lemma resolve_c_raises (policy : string) (k : string) (cat : list fila_cruda) :
  In k (claves_dup_c cat) ->
  (exists e, Crudo.resolve_group float policy (grupo_base_c k cat) = Raise e) <->
  (mismos_precios_c (grupo_c k cat) = false /\ falla float policy (grupo_c k cat) = true).
Proof.
  intros Hk. destruct (grupo_c_no_vacio cat k Hk) as [r0 [rest Hg]].
  pose proof (conflicto_c_cons k cat r0 rest Hg) as Hs. rewrite <- Hg in Hs.
  destruct (grupo_base_c_cons k cat r0 rest Hg) as [rb [t [E _]]].
  destruct (mismos_precios_c (grupo_c k cat)) eqn:Hm.
  - rewrite E in *. rewrite (resolve_c_same policy rb t Hs).
    split; [intros [e H]; discriminate | intros [H _]; discriminate].
  - unfold falla. destruct (conocida policy) eqn:Hc; simpl.
    2:{ rewrite (resolve_c_unknown policy _ Hs Hc). split; eauto. }
    destruct (String.eqb_spec policy "first") as [->|Hf].
    { rewrite E. rewrite resolve_c_first.
      split; [intros [e H]; discriminate | intros [_ H]; discriminate]. }
    destruct (String.eqb_spec policy "max_venta") as [->|Hmv].
    { destruct (existsb (no_numero float) (map venta_c (grupo_c k cat))) eqn:Hex; simpl.
      - destruct (resolve_c_max_texto k cat Hs Hex) as [msg Hr]. split; eauto.
      - destruct (existsb (fun r => negb (is_none (venta_num float r))) (grupo_c k cat)) eqn:Hn.
        + apply existsb_numero_c in Hn.
          destruct (resolve_c_max_spec k cat Hs Hex Hn) as [r [Hr _]]. rewrite Hr.
          split; [intros [e H]; discriminate|]. intros [_ H]. exfalso.
          destruct Hn as [r1 [Hin Hv]]. rewrite forallb_forall in H.
          specialize (H (venta_c r1) (in_map venta_c _ _ Hin)).
          unfold venta_num in Hv. destruct (valor float (venta_c r1)); [discriminate|congruence].
        + rewrite existsb_sin_numero_c in Hn.
          split; [|intros _; now apply resolve_c_max_all_na].
          intros _. split; [reflexivity|]. apply forallb_forall.
          intros c Hc'. apply in_map_iff in Hc'. destruct Hc' as [r [<- Hr]].
          specialize (Hn r Hr). unfold venta_num in Hn. now rewrite Hn. }
    destruct (String.eqb_spec policy "min_costo") as [->|Hmc].
    { destruct (existsb (no_numero float) (map compra_c (grupo_c k cat))) eqn:Hex; simpl.
      - destruct (resolve_c_min_texto k cat Hs Hex) as [msg Hr]. split; eauto.
      - destruct (existsb (fun r => negb (is_none (compra_num float r))) (grupo_c k cat)) eqn:Hn.
        + apply existsb_numero_c in Hn.
          destruct (resolve_c_min_spec k cat Hs Hex Hn) as [r [Hr _]]. rewrite Hr.
          split; [intros [e H]; discriminate|]. intros [_ H]. exfalso.
          destruct Hn as [r1 [Hin Hv]]. rewrite forallb_forall in H.
          specialize (H (compra_c r1) (in_map compra_c _ _ Hin)).
          unfold compra_num in Hv. destruct (valor float (compra_c r1)); [discriminate|congruence].
        + rewrite existsb_sin_numero_c in Hn.
          split; [|intros _; now apply resolve_c_min_all_na].
          intros _. split; [reflexivity|]. apply forallb_forall.
          intros c Hc'. apply in_map_iff in Hc'. destruct Hc' as [r [<- Hr]].
          specialize (Hn r Hr). unfold compra_num in Hn. now rewrite Hn. }
    assert (Ha : policy = "avg").
    { unfold conocida in Hc.
      apply String.eqb_neq in Hf. apply String.eqb_neq in Hmv. apply String.eqb_neq in Hmc.
      rewrite Hf, Hmv, Hmc in Hc. simpl in Hc. now apply String.eqb_eq. }
    subst policy.
    destruct (existsb (no_numero float) (map compra_c (grupo_c k cat))
              || existsb (no_numero float) (map venta_c (grupo_c k cat))) eqn:Hex.
    + destruct (resolve_c_avg_texto k cat Hs Hex) as [msg Hr]. split; eauto.
    + rewrite Hg in Hex. rewrite (resolve_c_avg_spec k cat r0 rest Hg Hs Hex).
      split; [intros [e H]; discriminate | intros [_ H]; discriminate].
Qed.

End RawGroupFacts.

(** ** Catalogues of numbers and nulls through the raw resolver *)

Section RawTypedFacts.
Import Pandas.

Variable float : string -> option (option Q).










Lemma de_numero_cruda (r : base_row) (pc pv : option Q) :
  {| producto_c := producto_c (row_c (base_de r));
     compra_c := Crudo.de_numero pc;
     venta_c := Crudo.de_numero pv |}
  = cruda {| producto := producto (row r); precio_compra := pc; precio_venta := pv |}.
Proof. reflexivity. Qed.











End RawTypedFacts.

(** ** Prices that are not numbers *)

Section RawClaims.
Import Pandas.




(** The same catalogue with the text in the sale price: max_venta and avg
    stop on the conversion, min_costo, which converts the purchase prices
    only, goes through. *)
Example text_price_example :
  Crudo.deduplicate_catalog sin_numeros [barata_c; venta_texto] "max_venta"
  = Raise (Crudo.no_convertible "consultar")
  /\ Crudo.deduplicate_catalog sin_numeros [barata_c; venta_texto] "avg"
     = Raise (Crudo.no_convertible "consultar")
  /\ Crudo.deduplicate_catalog sin_numeros [barata_c; venta_texto] "min_costo"
     = OK [barata_c]
  /\ Crudo.deduplicate_catalog sin_numeros [barata_c; venta_texto] "first"
     = OK [barata_c].
Proof. repeat split; reflexivity. Qed.

End RawClaims.

(** ** When the raw resolver raises *)

Section RawExtras.
Import Pandas.

(** X11. [deduplicate_catalog] raises exactly when the catalogue has a key
    with several rows, with a price conflict among them, on which the policy
    fails: the policy is none of the four; or it converts a price that is a
    text and not a number (the sale prices for max_venta, the purchase prices
    for min_costo, both for avg); or max_venta, or min_costo, finds no number
    at all in its column.  The policy first never raises, and a catalogue
    without such a group never makes the function raise. *)
Theorem resolver_raises_on_a_failing_group
        (float : string -> option (option Q)) (cat : list fila_cruda) (policy : string) :
  ((exists e, Crudo.deduplicate_catalog float cat policy = Raise e) <->
   (exists k, 2 <= List.length (grupo_c k cat)
              /\ mismos_precios_c (grupo_c k cat) = false
              /\ falla float policy (grupo_c k cat) = true))
  /\ (forall e, Crudo.deduplicate_catalog float cat "first" <> Raise e).
Proof.
  assert (Hiff : forall p,
            (exists e, Crudo.deduplicate_catalog float cat p = Raise e) <->
            (exists k, 2 <= List.length (grupo_c k cat)
                       /\ mismos_precios_c (grupo_c k cat) = false
                       /\ falla float p (grupo_c k cat) = true)).
  { intros p. rewrite dedup_c_raises. split.
    - intros [k [e [Hk Hr]]]. exists k. split; [now apply claves_dup_c_spec|].
      apply (resolve_c_raises float p k cat Hk). now exists e.
    - intros [k [Hlen [Hm Hf]]].
      assert (Hk : In k (claves_dup_c cat)) by now apply claves_dup_c_spec.
      destruct (proj2 (resolve_c_raises float p k cat Hk) (conj Hm Hf)) as [e He].
      now exists k, e. }
  split; [apply Hiff|].
  intros e He.
  destruct (proj1 (Hiff "first") (ex_intro _ e He)) as [k [_ [_ Hf]]].
  discriminate.
Qed.


End RawExtras.
